(** * Buienradar client library (src/lib/buienradar.js): a shallow embedding

    The JavaScript module is embedded function by function.  Numbers are
    rationals extended with NaN and the two infinities, dates are time
    values in milliseconds (or the Invalid Date), promises are their
    settled results, and the mutable fields of the API object and of the
    enclosing closure are a record that every operation threads through.

    Conventions of the embedding
    - floating point: a finite number is the rational it stands for, and
      the products, quotients and differences the module computes are
      rounded to the nearest double as IEEE 754 says ([binary64]); the
      sign of a zero is not kept, a decimal literal stands for the
      decimal it writes (for 0.1, the one literal that is no double and
      is compared with, [tenth_literal] shows that this changes no
      comparison with a double), and [Math.pow] is a parameter of the
      host;
    - the local time zone is a constant offset [LocalTZA] of the host
      (daylight-saving transitions are outside the model);
    - external collaborators (HTTP transport, xml2js, geodist, the clock)
      appear as arguments of the function that consults them.

    The polling script src/unnamed/part_000 is embedded in module
    [Script], as the states of its event loop. *)

From Stdlib Require Import ZArith QArith Qcanon Qround Qabs Qpower Lqa String Ascii List.
From Stdlib Require SpecFloat.
From stdpp Require Import base decidable option numbers list strings pretty gmap.

#[local] Set Warnings "-register-all".
#[local] Open Scope Z_scope.

(* ===================================================================== *)
(** ** JavaScript values *)
(* ===================================================================== *)

Module JS.

(** The Number type: a finite value, NaN, +Infinity or -Infinity. *)
Inductive number :=
| Finite (q : Qc)
| NaN
| PosInf
| NegInf.

(** Language values.  A Date carries its time value, [None] for the
    Invalid Date. *)
Inductive jsval :=
| VUndefined
| VNull
| VBool (b : bool)
| VNum (n : number)
| VStr (s : string)
| VDate (t : option Z)
| VArr (items : list jsval)
| VObj (fields : gmap string jsval).

(** The errors the module creates, by message, and the engine's own. *)
Inductive error :=
| InitError            (* 'Buienradar should be initiated with lat and lon config' *)
| IncorrectLocation    (* 'new location is incorrect!' *)
| LocationNotSet       (* 'Location is not set properly, please check ...' *)
| NoUrlReceivedRainData (* 'No url received rain data' *)
| Timeout              (* 'timeout' *)
| CouldNotGetData      (* 'Could not get data from buienradar service, ...' *)
| InvalidResponse      (* 'Got invalid response from server' *)
| NoNearestStation     (* 'Could not get nearest weather station from data' *)
| ReferenceError (identifier : string)
| TypeError (what : string)
| Thrown (e : jsval).   (* an error value handed over by a collaborator *)

(** What the host (engine and imported packages) provides. *)
Class Host := {
  (** ECMAScript StringToNumber *)
  StringToNumber : string → number;
  (** ToNumber on arrays and plain objects (via ToPrimitive) *)
  ObjectToNumber : jsval → number;
  (** Math.pow(10, x) at a finite x *)
  Math_pow10 : Qc → number;
  (** offset of local time from UTC, in milliseconds *)
  LocalTZA : Z;
  (** require('geodist') applied to two {lat, lon} objects *)
  geodist : jsval → jsval → number;
  (** xmlParser.parseString: the (err, result) its callback receives *)
  parseString : string → jsval * jsval;
}.

Definition num (z : Z) : number := Finite (Q2Qc (inject_Z z)).
Definition dec (n : Z) (d : positive) : number := Finite (Q2Qc (n # d)).

(** 2^e *)
Definition pow2 (e : Z) : Q := Qpower 2 e.

(** The exponent of the leading bit of q > 0: 2^e <= q < 2^(e+1). *)
Definition ilog2 (q : Q) : Z :=
  let e := Z.log2 (Qnum q) - Z.log2 (Zpos (Qden q)) in
  if Qle_bool (pow2 e) q then e else e - 1.

(** The integer nearest to q, the even one of two that are equally
    near. *)
Definition round_half_even (q : Q) : Z :=
  let f := Qfloor q in
  match Qcompare (q - inject_Z f) (1 # 2) with
  | Lt => f
  | Gt => f + 1
  | Eq => if Z.even f then f else f + 1
  end.

(** The double nearest to q, as every arithmetic operation of the
    engine rounds its exact result: 53 bits from the leading one on, in
    units of 2^-1074 at least, ties to the even significand, and an
    infinity from 2^1024 on. *)
Definition binary64 (q : Q) : number :=
  let a := Qabs q in
  if Qeq_bool a 0 then Finite (Q2Qc 0)
  else
    let e := Z.max (ilog2 a - 52) (-1074) in
    let r := (inject_Z (round_half_even (a / pow2 e)) * pow2 e)%Q in
    if Qle_bool (pow2 1024) r then (if Qle_bool 0 q then PosInf else NegInf)
    else Finite (Q2Qc (if Qle_bool 0 q then r else - r)).

(** The double nearest to n/d: what the engine holds for that decimal. *)
Definition double (n : Z) (d : positive) : number := binary64 (n # d).

Definition Qc_ltb (x y : Qc) : bool := bool_decide (x < y)%Qc.
Definition Qc_eqb (x y : Qc) : bool := bool_decide (x = y).

(** x < y on numbers: false as soon as one side is NaN. *)
Definition num_lt (x y : number) : bool :=
  match x, y with
  | NaN, _ | _, NaN => false
  | Finite a, Finite b => Qc_ltb a b
  | NegInf, (Finite _ | PosInf) => true
  | Finite _, PosInf => true
  | _, _ => false
  end.

(** x === y on numbers. *)
Definition num_eq (x y : number) : bool :=
  match x, y with
  | Finite a, Finite b => Qc_eqb a b
  | PosInf, PosInf | NegInf, NegInf => true
  | _, _ => false
  end.

Definition num_isNaN (x : number) : bool :=
  match x with NaN => true | _ => false end.

(** x * k and x / k for a finite constant k > 0, and x - k for a finite
    constant k. *)
Definition num_mul (x : number) (k : Qc) : number :=
  match x with Finite a => binary64 (this a * this k) | _ => x end.
Definition num_div (x : number) (k : Qc) : number :=
  match x with Finite a => binary64 (this a / this k) | _ => x end.
Definition num_minus (x : number) (k : Qc) : number :=
  match x with Finite a => binary64 (this a - this k) | _ => x end.

(** Math.round: the nearest integer, ties towards +Infinity; of a
    double it is a double. *)
Definition Math_round (x : number) : number :=
  match x with
  | Finite a => num (Qfloor (this a + (1 # 2))%Q)
  | _ => x
  end.

(** Math.round(x * 100) / 100 *)
Definition round2 (x : number) : number :=
  num_div (Math_round (num_mul x (Q2Qc 100))) (Q2Qc 100).

Section Coercions.
Context `{Host}.

Definition ToNumber (v : jsval) : number :=
  match v with
  | VUndefined => NaN
  | VNull => num 0
  | VBool b => if b then num 1 else num 0
  | VNum n => n
  | VStr s => StringToNumber s
  | VDate t => match t with Some ms => num ms | None => NaN end
  | VArr _ | VObj _ => ObjectToNumber v
  end.

(** the global isNaN, which coerces its argument *)
Definition isNaN (v : jsval) : bool := num_isNaN (ToNumber v).
End Coercions.

(** ToBoolean *)
Definition truthy (v : jsval) : bool :=
  match v with
  | VUndefined | VNull => false
  | VBool b => b
  | VNum (Finite q) => negb (Qc_eqb q 0%Qc)
  | VNum NaN => false
  | VNum _ => true
  | VStr s => negb (String.eqb s "")
  | VDate _ | VArr _ | VObj _ => true
  end.

(** v[key]: member access; only plain objects have fields here, and
    reading a member of undefined or null throws a TypeError, which the
    callers handle where they can meet it. *)
Definition get (v : jsval) (key : string) : jsval :=
  match v with
  | VObj fields => default VUndefined (fields !! key)
  | _ => VUndefined
  end.

(** x === y *)
Definition strict_eq (x y : jsval) : bool :=
  match x, y with
  | VUndefined, VUndefined | VNull, VNull => true
  | VBool a, VBool b => Bool.eqb a b
  | VNum a, VNum b => num_eq a b
  | VStr a, VStr b => String.eqb a b
  | _, _ => false
  end.

(** typeof v === 'number' *)
Definition is_number (v : jsval) : bool :=
  match v with VNum _ => true | _ => false end.

(** The settled state of a promise. *)
Inductive settled (A E : Type) :=
| Resolved (a : A)
| Rejected (e : E).
Arguments Resolved {A E} a.
Arguments Rejected {A E} e.

End JS.
Import JS.

Abbreviation promise A := (settled A error).

(* ===================================================================== *)
(** ** Rain indication *)
(* ===================================================================== *)

Module Indicators.
(** Buienradar.rainIndicators *)
Definition NO_RAIN : number := dec 1 10.
Definition LIGHT_RAIN : number := dec 25 10.
Definition MODERATE_RAIN : number := num 10.
Definition HEAVY_RAIN : number := num 50.
Definition VIOLENT_RAIN : number := num 51.
End Indicators.

Section RainIndication.
Context `{Host}.

(** this.getRainIndication *)
Definition getRainIndication (amount : jsval) : jsval :=
  if isNaN amount then VBool false
  else
    let a := ToNumber amount in
    if num_lt a (dec 1 10) then VNum Indicators.NO_RAIN
    else if num_lt a (dec 25 10) then VNum Indicators.LIGHT_RAIN
    else if num_lt a (num 10) then VNum Indicators.MODERATE_RAIN
    else if num_lt a (num 50) then VNum Indicators.HEAVY_RAIN
    else VNum Indicators.VIOLENT_RAIN.
End RainIndication.

(* ===================================================================== *)
(** ** The rain text and rainDataRegex: digits, a pipe, digits and colons *)
(* ===================================================================== *)

Module RainText.

Definition is_digit (c : ascii) : bool :=
  let n := nat_of_ascii c in (48 <=? n)%nat && (n <=? 57)%nat.

Definition is_colon (c : ascii) : bool := Ascii.eqb c ":".
Definition is_pipe (c : ascii) : bool := Ascii.eqb c "|".

(** the class [\d:] *)
Definition is_time_char (c : ascii) : bool := is_digit c || is_colon c.

(** The longest prefix of a class, and what follows it: a greedy star. *)
Fixpoint span (p : ascii → bool) (s : list ascii) : list ascii * list ascii :=
  match s with
  | c :: s' =>
      if p c then let (a, b) := span p s' in (c :: a, b) else ([], s)
  | [] => ([], [])
  end.

(** One attempt of the pattern at the head of [s]: both captures and the
    rest of the text.  The greedy run of digits never has to give characters
    back: after a shorter run of digits comes a digit, not the pipe. *)
Definition match_here (s : list ascii)
  : option (list ascii * list ascii * list ascii) :=
  let (value, r) := span is_digit s in
  match r with
  | c :: r' =>
      if is_pipe c then
        let (time, rest) := span is_time_char r' in Some (value, time, rest)
      else None
  | [] => None
  end.

(** All matches, left to right: the global flag restarts the search
    where the last match ended, and a failed attempt moves one character
    on.  A match is never empty (it holds the pipe), so [length s]
    attempts and one more suffice. *)
Fixpoint exec_all (fuel : nat) (s : list ascii) : list (string * string) :=
  match fuel with
  | O => []
  | S fuel' =>
      match match_here s with
      | Some (value, time, rest) =>
          (string_of_list_ascii value, string_of_list_ascii time)
            :: exec_all fuel' rest
      | None =>
          match s with
          | _ :: s' => exec_all fuel' s'
          | [] => []
          end
      end
  end.

(** The (value, time) captures of every match in [data]. *)
Definition tokens (data : string) : list (string * string) :=
  let s := list_ascii_of_string data in exec_all (S (length s)) s.

(** body.match(rainDataRegex) is not null *)
Definition matches (body : string) : bool :=
  match tokens body with [] => false | _ => true end.

(** ToNumber of a run of decimal digits; the empty string is 0. *)
Definition digit_value (c : ascii) : Z := Z.of_nat (nat_of_ascii c) - 48.
Definition digits_to_Z (s : list ascii) : Z :=
  fold_left (λ acc c, 10 * acc + digit_value c) s 0.
Definition Number_of_digits (s : string) : Z :=
  digits_to_Z (list_ascii_of_string s).

(** The Number that a run of digits coerces to: the double nearest to
    the decimal. *)
Definition digits_number (s : string) : number :=
  binary64 (inject_Z (Number_of_digits s)).

(** time.split(':') *)
Fixpoint split_colon (s : list ascii) : list (list ascii) :=
  match s with
  | [] => [[]]
  | c :: s' =>
      if is_colon c then [] :: split_colon s'
      else match split_colon s' with
           | h :: t => (c :: h) :: t
           | [] => [[c]]
           end
  end.

End RainText.

(* ===================================================================== *)
(** ** Dates *)
(* ===================================================================== *)

Module Date.

Definition msPerDay : Z := 86400000.
Definition msPerHour : Z := 3600000.
Definition msPerMinute : Z := 60000.
Definition msPerSecond : Z := 1000.

(** A time value, or NaN when out of the range of Date. *)
Definition TimeClip (t : Z) : option Z :=
  if Z.abs t <=? 8640000000000000 then Some t else None.

Definition Day (t : Z) : Z := t / msPerDay.
Definition MinFromTime (t : Z) : Z := (t / msPerMinute) mod 60.
Definition SecFromTime (t : Z) : Z := (t / msPerSecond) mod 60.
Definition msFromTime (t : Z) : Z := t mod msPerSecond.

Definition MakeTime (hour min sec ms : Z) : Z :=
  hour * msPerHour + min * msPerMinute + sec * msPerSecond + ms.
Definition MakeDate (day time : Z) : Z := day * msPerDay + time.

(** new Date(t) for a numeric time value, NaN being [None] *)
Definition of_time (t : option Z) : option Z :=
  match t with Some ms => TimeClip ms | None => None end.

Section Local.
Context `{Host}.

(** Date.prototype.setHours applied to an argument list (apply): hour,
    then minutes, seconds and milliseconds where given, the others kept
    from the date; arguments past the fourth are ignored.  The date is
    valid and at least one argument is present where the module calls
    it. *)
Definition setHours (date : Z) (args : list Z) : option Z :=
  let t := date + LocalTZA in
  let hour := default 0 (args !! 0%nat) in
  let min := default (MinFromTime t) (args !! 1%nat) in
  let sec := default (SecFromTime t) (args !! 2%nat) in
  let ms := default (msFromTime t) (args !! 3%nat) in
  TimeClip (MakeDate (Day t) (MakeTime hour min sec ms) - LocalTZA).
End Local.

End Date.

(* ===================================================================== *)
(** ** Rain samples *)
(* ===================================================================== *)

Record RainSample := {
  value : string;        (* the raw rain value, as captured *)
  amount : number;       (* mm/h *)
  time : option Z;       (* a Date *)
  indication : jsval;
}.

Section RainParser.
Context `{Host}.

(** Math.pow(10, x) *)
Definition Math_pow_10 (x : number) : number :=
  match x with
  | Finite q => Math_pow10 q
  | NaN => NaN
  | PosInf => PosInf
  | NegInf => num 0
  end.

(** Math.round(Math.pow(10, (value - 109) / 32) * 100) / 100 on the
    digits a match captured *)
Definition amount_of (value : string) : number :=
  round2 (Math_pow_10
            (num_div (num_minus (RainText.digits_number value) (Q2Qc 109))
                     (Q2Qc 32))).

(** The date of the first token: now, with its hours set from the
    token, a day later when that lies more than twelve hours after the
    second reading of the clock. *)
Definition first_time (new_Date Date_now : Z) (time : string) : option Z :=
  let fields := RainText.split_colon (list_ascii_of_string time) in
  let previousTime :=
    Date.setHours new_Date (map RainText.digits_to_Z fields ++ [0]) in
  match previousTime with
  | Some t =>
      if 12 * 3600 * 1000 <? t - Date_now
      then Date.of_time (Some (t + 24 * 3600 * 1000))
      else Some t
  | None => None
  end.

(** The callback of data.replace, on one match.  [previousTime] is
    [None] while undefined; a Date, valid or not, is truthy. *)
Definition on_match (new_Date Date_now : Z)
    (acc : list RainSample * option (option Z)) (tok : string * string)
  : list RainSample * option (option Z) :=
  let '(result, previousTime) := acc in
  let '(value, time) := tok in
  let amount := amount_of value in
  let time' :=
    match previousTime with
    | None => first_time new_Date Date_now time
    | Some p => Date.of_time ((λ t, t + 300 * 1000) <$> p)
    end in
  (result ++ [ {| value := value; amount := amount; time := time';
                  indication := getRainIndication (VNum amount) |} ],
   Some time').

(** The samples the .then handler of getRainData collects from the raw
    text. *)
Definition parse (new_Date Date_now : Z) (data : string) : list RainSample :=
  if truthy (VStr data)
  then fst (fold_left (on_match new_Date Date_now) (RainText.tokens data) ([], None))
  else [].

End RainParser.

(* ===================================================================== *)
(** ** The API object and the closure it shares *)
(* ===================================================================== *)

(** The fields of [this]. *)
Record Buienradar := {
  lat : number;
  lon : number;
  _lat : option number;                 (* undefined until first compared *)
  _lon : option number;
  requestCacheTimeout : jsval;
  rainData : option (list RainSample);  (* undefined or null: [None] *)
  rainDataCacheTimeout : option nat;    (* a timer handle *)
}.

(** What a pending cache timer does when it fires. *)
Inductive timer_action :=
| ClearRainData        (* () => this.rainData = null *)
| ClearFeedDataCache.  (* () => feedDataCache = null *)

(** The promise getFeedData builds, as the cache holds it. *)
Inductive promise_state :=
| Pending
| Settled (r : promise jsval).

(** The module with one object: the object, the variables of the
    function that fills the prototype (every object of the module would
    share them), the timers that setTimeout holds, and the promises in
    flight. *)
Record world := {
  self : Buienradar;
  rainDataCache : jsval;
  feedDataCache : option nat;           (* a promise of [feed_promises] *)
  nearestWeatherStationId : jsval;
  timers : list (nat * timer_action);   (* pending timeouts, by handle *)
  next_timer : nat;
  rain_requests : nat;                  (* getRawRainData calls in flight *)
  feed_promises : list promise_state;
}.

Definition with_self (f : Buienradar → Buienradar) (w : world) : world :=
  {| self := f (self w); rainDataCache := rainDataCache w;
     feedDataCache := feedDataCache w;
     nearestWeatherStationId := nearestWeatherStationId w;
     timers := timers w; next_timer := next_timer w;
     rain_requests := rain_requests w; feed_promises := feed_promises w |}.

Definition set_location (la lo : number) (b : Buienradar) : Buienradar :=
  {| lat := la; lon := lo; _lat := _lat b; _lon := _lon b;
     requestCacheTimeout := requestCacheTimeout b; rainData := rainData b;
     rainDataCacheTimeout := rainDataCacheTimeout b |}.

Definition set_last_location (la lo : number) (b : Buienradar) : Buienradar :=
  {| lat := lat b; lon := lon b; _lat := Some la; _lon := Some lo;
     requestCacheTimeout := requestCacheTimeout b; rainData := rainData b;
     rainDataCacheTimeout := rainDataCacheTimeout b |}.

Definition set_rainData (d : option (list RainSample)) (b : Buienradar) : Buienradar :=
  {| lat := lat b; lon := lon b; _lat := _lat b; _lon := _lon b;
     requestCacheTimeout := requestCacheTimeout b; rainData := d;
     rainDataCacheTimeout := rainDataCacheTimeout b |}.

Definition set_rainDataCacheTimeout (h : option nat) (b : Buienradar) : Buienradar :=
  {| lat := lat b; lon := lon b; _lat := _lat b; _lon := _lon b;
     requestCacheTimeout := requestCacheTimeout b; rainData := rainData b;
     rainDataCacheTimeout := h |}.

Definition set_closure (rc : jsval) (fc : option nat) (id : jsval) (w : world) : world :=
  {| self := self w; rainDataCache := rc; feedDataCache := fc;
     nearestWeatherStationId := id;
     timers := timers w; next_timer := next_timer w;
     rain_requests := rain_requests w; feed_promises := feed_promises w |}.

Definition set_feedDataCache (fc : option nat) (w : world) : world :=
  set_closure (rainDataCache w) fc (nearestWeatherStationId w) w.

Definition set_nearestWeatherStationId (id : jsval) (w : world) : world :=
  set_closure (rainDataCache w) (feedDataCache w) id w.

Definition set_timers (ts : list (nat * timer_action)) (n : nat) (w : world) : world :=
  {| self := self w; rainDataCache := rainDataCache w;
     feedDataCache := feedDataCache w;
     nearestWeatherStationId := nearestWeatherStationId w;
     timers := ts; next_timer := n;
     rain_requests := rain_requests w; feed_promises := feed_promises w |}.

Definition set_rain_requests (n : nat) (w : world) : world :=
  {| self := self w; rainDataCache := rainDataCache w;
     feedDataCache := feedDataCache w;
     nearestWeatherStationId := nearestWeatherStationId w;
     timers := timers w; next_timer := next_timer w;
     rain_requests := n; feed_promises := feed_promises w |}.

Definition set_feed_promises (ps : list promise_state) (w : world) : world :=
  {| self := self w; rainDataCache := rainDataCache w;
     feedDataCache := feedDataCache w;
     nearestWeatherStationId := nearestWeatherStationId w;
     timers := timers w; next_timer := next_timer w;
     rain_requests := rain_requests w; feed_promises := ps |}.

(** setTimeout(action, delay): a fresh handle joins the pending timers. *)
Definition setTimeout (a : timer_action) (w : world) : world * nat :=
  (set_timers (timers w ++ [(next_timer w, a)]) (S (next_timer w)) w,
   next_timer w).

(** clearTimeout(handle): nothing happens for undefined or for a handle
    that is no longer pending. *)
Definition clearTimeout (h : option nat) (w : world) : world :=
  match h with
  | Some id =>
      set_timers (filter (λ t, t.1 ≠ id) (timers w)) (next_timer w) w
  | None => w
  end.

Section Location.
Context `{Host}.

(** The constructor, called with or without new: an instance, or the
    Error it returns. *)
Definition Buienradar_new (config : jsval) : Buienradar + error :=
  if negb (truthy config) || negb (truthy (get config "lat"))
     || negb (truthy (get config "lon"))
  then inr InitError
  else inl {|
    lat := round2 (ToNumber (get config "lat"));
    lon := round2 (ToNumber (get config "lon"));
    _lat := None; _lon := None;
    requestCacheTimeout :=
      (if truthy (get config "requestCacheTimeout")
       then get config "requestCacheTimeout" else VNum (num 1000));
    rainData := None;
    rainDataCacheTimeout := None |}.

(** The module just loaded, with one instance. *)
Definition initial (b : Buienradar) : world :=
  {| self := b; rainDataCache := VUndefined; feedDataCache := None;
     nearestWeatherStationId := VUndefined;
     timers := []; next_timer := 0%nat;
     rain_requests := 0%nat; feed_promises := [] |}.

(** this.resetCache *)
Definition resetCache (w : world) : world :=
  set_closure VNull (feedDataCache w) VNull w.

(** this.setLatLon: the world after it, or the Error it throws. *)
Definition setLatLon (lat lon : jsval) (w : world) : world + error :=
  let '(lat, lon) :=
    if negb (truthy lon) && truthy lat && truthy (get lat "lat")
    then (get lat "lat", get lat "lon") else (lat, lon) in
  if isNaN lat || isNaN lon then inr IncorrectLocation
  else
    inl (resetCache
           (with_self (set_location (round2 (ToNumber lat))
                                    (round2 (ToNumber lon))) w)).

(** this.checkLocationChange *)
Definition same_location (b : Buienradar) : bool :=
  match _lat b, _lon b with
  | Some la, Some lo => num_eq la (lat b) && num_eq (lon b) lo
  | _, _ => false
  end.

Definition checkLocationChange (w : world) : world :=
  if same_location (self w) then w
  else resetCache
         (with_self (set_last_location (lat (self w)) (lon (self w))) w).

End Location.

(* ===================================================================== *)
(** ** The rain fetcher: a race of two requests and a timeout *)
(* ===================================================================== *)

Module Race.

Inductive endpoint :=
| AzureRaintext   (* https://br-gpsgadget-new.azurewebsites.net/data/raintext *)
| GpsGetrr.       (* http://gps.buienradar.nl/getrr.php *)

(** A url: the endpoint and the lat and lon of its query. *)
Definition url : Type := endpoint * number * number.

Definition apiUrls (b : Buienradar) : list url :=
  [ (AzureRaintext, lat b, lon b); (GpsGetrr, lat b, lon b) ].

(** What the event loop delivers while the race is open, in order. *)
Inductive event :=
| Reply (index : nat) (error : jsval) (body : option string)
    (* the callback of request(apiUrls[index], ...) *)
| TimerFires.
    (* the setTimeout of 5000 ms *)

(** The callback of one request: how it settles its promise, if it
    does.  [responseCounter] is the let of getRawRainData. *)
Definition on_reply (responseCounter : nat) (urlList : list url)
    (body : option string) : option (promise string) :=
  match body with
  | Some b =>
      if truthy (VStr b) && RainText.matches b then Some (Resolved b)
      else if (responseCounter =? length urlList)%nat
           then Some (Rejected NoUrlReceivedRainData)
           else None
  | None =>
      if (responseCounter =? length urlList)%nat
      then Some (Rejected NoUrlReceivedRainData)
      else None
  end.

(** Promise.race: the first promise to settle decides; later events
    find it settled.  No statement of the function assigns
    [responseCounter] after its initialisation. *)
Fixpoint race (responseCounter : nat) (urlList : list url)
    (trace : list event) : option (promise string) :=
  match trace with
  | [] => None
  | Reply _ _ body :: trace' =>
      match on_reply responseCounter urlList body with
      | Some r => Some r
      | None => race responseCounter urlList trace'
      end
  | TimerFires :: _ => Some (Rejected Timeout)
  end.

(** this.getRawRainData under a trace of events: how the returned
    promise settles, [None] while it is pending. *)
Definition getRawRainData (b : Buienradar) (trace : list event)
  : option (promise string) :=
  if negb (truthy (VNum (lat b))) || negb (truthy (VNum (lon b)))
  then Some (Rejected LocationNotSet)
  else
    let responseCounter := 0%nat in
    race responseCounter (apiUrls b) trace.

End Race.

(* ===================================================================== *)
(** ** The rain cache *)
(* ===================================================================== *)

(** What a call of getRainData does before it returns. *)
Inductive rain_call :=
| ServedFromCache (data : list RainSample)  (* Promise.resolve(this.rainData) *)
| Fetches.                                  (* this.getRawRainData().then(...) *)

Section RainCache.
Context `{Host}.

(** this.getRainData(forceRefresh), up to its return. *)
Definition getRainData (forceRefresh : bool) (w : world) : world * rain_call :=
  let w := checkLocationChange w in
  match rainData (self w) with
  | Some data =>
      if negb forceRefresh && truthy (requestCacheTimeout (self w))
      then (w, ServedFromCache data)
      else (set_rain_requests (S (rain_requests w)) w, Fetches)
  | None => (set_rain_requests (S (rain_requests w)) w, Fetches)
  end.

(** The .then handler of getRainData on the raw text [data], with the
    two readings of the clock it makes at the first token. *)
Definition getRainData_then (new_Date Date_now : Z) (data : string) (w : world)
  : world * promise (list RainSample) :=
  let result := parse new_Date Date_now data in
  if (1 <? length result)%nat then
    if truthy (requestCacheTimeout (self w)) then
      let w1 := with_self (set_rainData (Some result)) w in
      let w2 := clearTimeout (rainDataCacheTimeout (self w1)) w1 in
      let (w3, h) := setTimeout ClearRainData w2 in
      (with_self (set_rainDataCacheTimeout (Some h)) w3, Resolved result)
    else (w, Resolved result)
  else (with_self (set_rainData None) w, Rejected CouldNotGetData).

(** A request of getRainData comes back: a rejected fetch skips the
    handler. *)
Definition getRainData_settle (new_Date Date_now : Z) (raw : promise string)
    (w : world) : world * promise (list RainSample) :=
  let w := set_rain_requests (pred (rain_requests w)) w in
  match raw with
  | Resolved data => getRainData_then new_Date Date_now data w
  | Rejected e => (w, Rejected e)
  end.

End RainCache.

(** A pending timer fires: it leaves the table and runs its action. *)
Definition run_action (a : timer_action) (w : world) : world :=
  match a with
  | ClearRainData => with_self (set_rainData None) w
  | ClearFeedDataCache => set_feedDataCache None w
  end.

Definition fire (id : nat) (a : timer_action) (w : world) : world :=
  run_action a (set_timers (filter (λ t, t.1 ≠ id) (timers w)) (next_timer w) w).

(* ===================================================================== *)
(** ** The feed *)
(* ===================================================================== *)

(** Which identifiers a function of the module can see.  The lists are
    the declarations of buienradar.js, the parameters of Node's module
    wrapper, and the properties of Node's global object. *)
Module Scope.

(** const request, const geodist, var xmlParser, const Buienradar *)
Definition module_level : list string :=
  ["request"; "geodist"; "xmlParser"; "Buienradar"]%string.

(** the const and the lets of the function called on the prototype *)
Definition prototype_function : list string :=
  ["rainDataRegex"; "rainDataCache"; "feedDataCache";
   "nearestWeatherStationId"]%string.

(** the parameters and the const of getRawFeedData and of its arrows *)
Definition getRawFeedData_locals : list string :=
  ["resolve"; "reject"; "req"; "response"; "data"; "chunk"; "e"]%string.

Definition module_wrapper : list string :=
  ["exports"; "require"; "module"; "__filename"; "__dirname"]%string.

Definition node_globals : list string :=
  ["globalThis"; "global"; "process"; "console"; "Buffer";
   "setTimeout"; "clearTimeout"; "setInterval"; "clearInterval";
   "setImmediate"; "clearImmediate"; "queueMicrotask";
   "URL"; "URLSearchParams"; "TextEncoder"; "TextDecoder"; "WebAssembly";
   "Object"; "Function"; "Array"; "Number"; "Boolean"; "String"; "Symbol";
   "BigInt"; "Date"; "Promise"; "RegExp"; "Map"; "Set"; "WeakMap"; "WeakSet";
   "Proxy"; "Reflect"; "JSON"; "Math"; "Intl"; "ArrayBuffer"; "DataView";
   "Error"; "EvalError"; "RangeError"; "ReferenceError"; "SyntaxError";
   "TypeError"; "URIError"; "Infinity"; "NaN"; "undefined";
   "eval"; "isFinite"; "isNaN"; "parseFloat"; "parseInt";
   "decodeURI"; "decodeURIComponent"; "encodeURI"; "encodeURIComponent";
   "escape"; "unescape"]%string.

Definition visible_in_getRawFeedData : list string :=
  getRawFeedData_locals ++ prototype_function ++ module_level
    ++ module_wrapper ++ node_globals.

Definition bound (x : string) (scope : list string) : bool :=
  existsb (String.eqb x) scope.

End Scope.

(** this.getRawFeedData: the executor evaluates [http.request] first; an
    unbound identifier throws, which rejects the promise.  [transport]
    is what the request would deliver. *)
Definition getRawFeedData (transport : promise string) : promise string :=
  if Scope.bound "http" Scope.visible_in_getRawFeedData then transport
  else Rejected (ReferenceError "http").

(** promise.then(handler) once the promise has settled. *)
Definition and_then {A : Type} (r : promise jsval) (handler : jsval → promise A)
  : promise A :=
  match r with
  | Resolved data => handler data
  | Rejected e => Rejected e
  end.

Section Feed.
Context `{Host}.

(** this.getFeedData: the world and the promise it returns. *)
Definition getFeedData (w : world) : world * nat :=
  match feedDataCache w with
  | Some p =>
      if truthy (requestCacheTimeout (self w)) then (w, p)
      else
        let p' := length (feed_promises w) in
        (set_feedDataCache (Some p')
           (set_feed_promises (feed_promises w ++ [Pending]) w), p')
  | None =>
      let p' := length (feed_promises w) in
      (set_feedDataCache (Some p')
         (set_feed_promises (feed_promises w ++ [Pending]) w), p')
  end.

Definition settle (p : nat) (r : promise jsval) (w : world) : world :=
  set_feed_promises (<[p := Settled r]> (feed_promises w)) w.

(** The raw fetch of promise [p] is over: the .then handler of
    getFeedData runs on a body, a rejection passes through. *)
Definition getFeedData_settle (p : nat) (raw : promise string) (w : world) : world :=
  match raw with
  | Rejected e => settle p (Rejected e) w
  | Resolved data =>
      let '(err, result) := parseString data in
      if truthy err then
        set_feedDataCache None (settle p (Rejected (Thrown err)) w)
      else
        let weergegevens := get (get result "buienradarnl") "weergegevens" in
        if negb (truthy result && truthy (get result "buienradarnl")
                 && truthy weergegevens)
        then set_feedDataCache None (settle p (Rejected InvalidResponse) w)
        else
          let w := settle p (Resolved weergegevens) w in
          if truthy (requestCacheTimeout (self w))
          then fst (setTimeout ClearFeedDataCache w)
          else w
  end.

End Feed.

(* ===================================================================== *)
(** ** The nearest weather station *)
(* ===================================================================== *)

(** v.key where the receiver may be undefined or null *)
Definition member (v : jsval) (key : string) : jsval + error :=
  match v with
  | VUndefined | VNull => inr (TypeError key)
  | _ => inl (get v key)
  end.

(** obj[key] = f(obj[key]) on a plain object *)
Definition update (v : jsval) (key : string) (f : jsval → jsval) : jsval :=
  match v with
  | VObj fields => VObj (alter f key fields)
  | _ => v
  end.

Section Station.
Context `{Host}.

(** data.actueel_weer.weerstations.weerstation *)
Definition weatherStationList (data : jsval) : jsval + error :=
  match member (get data "actueel_weer") "weerstations" with
  | inl weerstations => member weerstations "weerstation"
  | inr e => inr e
  end.

(** !(weatherStation[param] && weatherStation[param] !== '-'); reading
    a member of a station that is undefined or null throws. *)
Definition missing (weatherStation : jsval) (param : string) : bool + error :=
  match member weatherStation param with
  | inl v => inl (negb (truthy v && negb (strict_eq v (VStr "-"))))
  | inr e => inr e
  end.

(** The skip flag after requireParams.forEach, or what it throws; no
    flag without requireParams.  Once the flag is set, skip || ... reads
    no further member. *)
Definition skip (requireParams : option (list string)) (weatherStation : jsval)
  : bool + error :=
  match requireParams with
  | Some params =>
      fold_left (λ skip param,
                   match skip with
                   | inl false => missing weatherStation param
                   | _ => skip
                   end) params (inl false)
  | None => inl false
  end.

(** !nearestDistance || dist < nearestDistance *)
Definition nearer (nearestDistance : option number) (dist : number) : bool :=
  match nearestDistance with
  | None => true
  | Some d => negb (truthy (VNum d)) || num_lt dist d
  end.

Definition position (la lo : jsval) : jsval :=
  VObj (<["lat" := la]> (<["lon" := lo]> ∅)).

(** weatherStationList.forEach, from index [i] on, with the [result]
    and [nearestDistance] so far; the result keeps its index.  What the
    callback throws on a station ends the loop. *)
Fixpoint scan (location : jsval) (requireParams : option (list string))
    (i : nat) (stations : list jsval)
    (result : option (nat * jsval)) (nearestDistance : option number)
  : option (nat * jsval) + error :=
  match stations with
  | [] => inl result
  | weatherStation :: rest =>
      match skip requireParams weatherStation with
      | inr e => inr e
      | inl true => scan location requireParams (S i) rest result nearestDistance
      | inl false =>
          match member weatherStation "lat", member weatherStation "lon" with
          | inl la, inl lo =>
              let dist := geodist location (position la lo) in
              if nearer nearestDistance dist
              then scan location requireParams (S i) rest
                     (Some (i, weatherStation)) (Some dist)
              else scan location requireParams (S i) rest result nearestDistance
          | inr e, _ | _, inr e => inr e
          end
      end
  end.

(** findNearestWeatherStation: the station it returns, [None] where it
    rejects and returns undefined, or what the loop throws. *)
Definition findNearestWeatherStation (b : Buienradar)
    (requireParams : option (list string)) (stations : list jsval)
  : option (nat * jsval) + error :=
  let location := position (VNum (lat b)) (VNum (lon b)) in
  match scan location requireParams 0 stations None None with
  | inl (Some (i, weatherStation)) =>
      if truthy weatherStation then inl (Some (i, weatherStation)) else inl None
  | inl None => inl None
  | inr e => inr e
  end.

(** The station as it is resolved: a missing rain rate becomes 0, and
    date is new Date(station), the Invalid Date.  Assigning a property
    of a primitive throws in strict mode.  Named properties of arrays
    and dates are not represented: such a station is left as it is. *)
Definition normalise (weatherStation : jsval) : jsval + error :=
  match weatherStation with
  | VObj fields =>
      let fields :=
        if strict_eq (get weatherStation "regenMMPU") (VStr "-")
        then <["regenMMPU" := VNum (num 0)]> fields else fields in
      inl (VObj (<["date" := VDate None]> fields))
  | VArr _ | VDate _ => inl weatherStation
  | _ => inr (TypeError "date")
  end.

(** The station object sits in the feed: writing to it writes there. *)
Definition store_station (data : jsval) (i : nat) (weatherStation : jsval) : jsval :=
  update data "actueel_weer" (λ actueel_weer,
    update actueel_weer "weerstations" (λ weerstations,
      update weerstations "weerstation" (λ l,
        match l with
        | VArr items => VArr (<[i := weatherStation]> items)
        | _ => l
        end))).

(** Which of the three branches a call takes. *)
Inductive lookup_path :=
| ScanRequired      (* requireParams && requireParams.length *)
| ScanAndMemoize    (* !nearestWeatherStationId *)
| FindMemoized.     (* data.find(...) *)

Definition path_of (requireParams : option (list string)) (w : world) : lookup_path :=
  match requireParams with
  | Some (_ :: _) => ScanRequired
  | _ => if truthy (nearestWeatherStationId w) then FindMemoized else ScanAndMemoize
  end.

(** The handler of getNearestWeatherStationData on the feed [data]: the
    world, the feed and the settlement of the promise.  In the first
    branch the value of requireParams.filter is dropped, so the scan
    runs with requireParams as passed.  [data] is no array and has no
    find: the third branch throws.  What the executor throws before it
    has settled the promise rejects it. *)
Definition getNearestWeatherStationData_then
    (requireParams : option (list string)) (data : jsval) (w : world)
  : world * jsval * promise jsval :=
  match weatherStationList data with
  | inr e => (w, data, Rejected e)
  | inl weatherStationList =>
      match path_of requireParams w with
      | FindMemoized => (w, data, Rejected (TypeError "find"))
      | path =>
          match weatherStationList with
          | VArr stations =>
              match findNearestWeatherStation (self w) requireParams stations with
              | inr e => (w, data, Rejected e)
              | inl None => (w, data, Rejected NoNearestStation)
              | inl (Some (i, nearestWeatherStation)) =>
                  let w' :=
                    match path with
                    | ScanAndMemoize =>
                        set_nearestWeatherStationId
                          (get nearestWeatherStation "stationcode") w
                    | _ => w
                    end in
                  match normalise nearestWeatherStation with
                  | inl station =>
                      (w', store_station data i station, Resolved station)
                  | inr e => (w', data, Rejected e)
                  end
              end
          | _ => (w, data, Rejected (TypeError "forEach"))
          end
      end
  end.

(** this.getNearestWeatherStationData, up to its return. *)
Definition getNearestWeatherStationData (w : world) : world * nat :=
  getFeedData (checkLocationChange w).

End Station.

(* ===================================================================== *)
(** ** Forecast and current weather *)
(* ===================================================================== *)

(** The template literal dag-plus, followed by i in decimal *)
Definition day_key (i : nat) : string := "dag-plus" +:+ pretty i.

(** dagen.push(v) on the object that holds dagen *)
Definition push_day (v : jsval) (vm : gmap string jsval) : gmap string jsval :=
  alter (λ dagen, match dagen with
                  | VArr items => VArr (items ++ [v])
                  | _ => dagen
                  end) "dagen" vm.

(** The while loop of getWeatherForecast from day [i] on.  Every turn
    deletes a key that is present, so the loop makes at most as many
    turns as [vm] has keys. *)
Fixpoint collect_days (fuel : nat) (i : nat) (vm : gmap string jsval)
  : gmap string jsval :=
  match fuel with
  | O => vm
  | S fuel' =>
      let day := default VUndefined (vm !! day_key i) in
      if truthy day
      then collect_days fuel' (S i) (delete (day_key i) (push_day day vm))
      else vm
  end.

(** vm[key] = vm[key]['$'] *)
Definition unwrap (key : string) (vm : gmap string jsval)
  : gmap string jsval + error :=
  match member (default VUndefined (vm !! key)) "$" with
  | inl text => inl (<[key := text]> vm)
  | inr e => inr e
  end.

(** The handler of getWeatherForecast on the feed [data]: the feed as
    the handler leaves it, and the settlement.  The object resolved is
    data.verwachting_meerdaags itself. *)
Definition getWeatherForecast_then (data : jsval) : jsval * promise jsval :=
  match data, get data "verwachting_meerdaags" with
  | VObj fields, VObj vm =>
      let store vm := VObj (<["verwachting_meerdaags" := VObj vm]> fields) in
      let vm := <["dagen" := VArr []]> vm in
      let vm := collect_days (S (size vm)) 1 vm in
      match unwrap "tekst_middellang" vm with
      | inr e => (store vm, Rejected e)
      | inl vm =>
          match unwrap "tekst_lang" vm with
          | inr e => (store vm, Rejected e)
          | inl vm => (store vm, Resolved (VObj vm))
          end
      end
  | _, _ => (data, Rejected (TypeError "dagen"))
  end.

(** The handler of getCurrentWeather. *)
Definition getCurrentWeather_then (data : jsval) : promise jsval :=
  Resolved (get data "verwachting_vandaag").

(** A handler runs on the value of a resolved feed promise and leaves
    the value it wrote to in the promise. *)
Definition feed_value (w : world) (p : nat) : option jsval :=
  match feed_promises w !! p with
  | Some (Settled (Resolved data)) => Some data
  | _ => None
  end.

Definition store_feed (p : nat) (data : jsval) (w : world) : world :=
  set_feed_promises (<[p := Settled (Resolved data)]> (feed_promises w)) w.

(** How a promise of getFeedData has settled, if it has. *)
Definition feed_result (w : world) (p : nat) : option (promise jsval) :=
  match feed_promises w !! p with
  | Some (Settled r) => Some r
  | _ => None
  end.

(* ===================================================================== *)
(** ** The module at run time *)
(* ===================================================================== *)

Section Run.
Context `{Host}.

(** One turn of the event loop: a call of a method up to its return, a
    handler on a promise that has settled, or a timer.  The outcome of a
    fetch is whatever the network makes it; getCurrentWeather,
    getRainDataFromArray and hasLocation change nothing and have no
    turn. *)
Inductive step : world → world → Prop :=
| step_setLatLon lat lon w w' :
    setLatLon lat lon w = inl w' → step w w'
| step_getRainData forceRefresh w :
    step w (getRainData forceRefresh w).1
| step_getRainData_settle new_Date Date_now raw w :
    (0 < rain_requests w)%nat →
    step w (getRainData_settle new_Date Date_now raw w).1
| step_getFeedData w :
    step w (getFeedData w).1
| step_getFeedData_settle p raw w :
    feed_promises w !! p = Some Pending →
    step w (getFeedData_settle p raw w)
| step_getNearestWeatherStationData w :
    step w (getNearestWeatherStationData w).1
| step_getNearestWeatherStationData_then requireParams p data w :
    feed_value w p = Some data →
    step w (let '(w', data', _) :=
              getNearestWeatherStationData_then requireParams data w in
            store_feed p data' w')
| step_getWeatherForecast_then p data w :
    feed_value w p = Some data →
    step w (store_feed p (getWeatherForecast_then data).1 w)
| step_fire id a w :
    (id, a) ∈ timers w → step w (fire id a w).

(** The worlds a program can bring about from a freshly constructed
    object. *)
Inductive reachable : world → Prop :=
| reach_new config b :
    Buienradar_new config = inl b → reachable (initial b)
| reach_step w w' :
    reachable w → step w w' → reachable w'.

End Run.

(** The pending timers of each cache slot. *)
#[global] Instance timer_action_eq_dec : EqDecision timer_action.
Proof. solve_decision. Defined.

Definition rain_timers (w : world) : list (nat * timer_action) :=
  filter (λ t, t.2 = ClearRainData) (timers w).
Definition feed_timers (w : world) : list (nat * timer_action) :=
  filter (λ t, t.2 = ClearFeedDataCache) (timers w).

(* ===================================================================== *)
(** ** What the properties are stated with *)
(* ===================================================================== *)

Section Following.
Context `{Host}.

(** The samples that follow a sample dated [p]: each one five minutes
    after the one before, whatever its own time field says. *)
Fixpoint following (p : option Z) (toks : list (string * string)) : list RainSample :=
  match toks with
  | [] => []
  | (value, _) :: rest =>
      let t := Date.of_time ((λ t, t + 300 * 1000) <$> p) in
      {| value := value; amount := amount_of value; time := t;
         indication := getRainIndication (VNum (amount_of value)) |}
        :: following t rest
  end.

End Following.

(** A captured value read as a decimal: the digits of n, with or without
    zeros before them; the empty capture reads 0. *)
Definition zeros (k : nat) : string := string_of_list_ascii (replicate k "0"%char).

Definition reads (value : string) (n : N) : Prop :=
  (value = ""%string ∧ n = 0%N) ∨ ∃ k, value = zeros k +:+ pretty n.

(** What every reachable world satisfies: handles are fresh and
    distinct; a pending rain timer is the one this.rainDataCacheTimeout
    names; a pending fetch of the feed is the cached promise; a pending
    feed timer belongs to the cached promise, which has resolved; and
    there is one feed timer at most. *)
Record timers_ok (w : world) : Prop := {
  ok_timeout : truthy (requestCacheTimeout (self w)) = true;
  ok_fresh : ∀ id a, (id, a) ∈ timers w → (id < next_timer w)%nat;
  ok_distinct : NoDup (timers w).*1;
  ok_handle : ∀ h, rainDataCacheTimeout (self w) = Some h → (h < next_timer w)%nat;
  ok_rain : ∀ id, (id, ClearRainData) ∈ timers w →
            rainDataCacheTimeout (self w) = Some id;
  ok_pending : ∀ p, feed_promises w !! p = Some Pending → feedDataCache w = Some p;
  ok_feed : ∀ id, (id, ClearFeedDataCache) ∈ timers w →
            ∃ p data, feedDataCache w = Some p
                      ∧ feed_promises w !! p = Some (Settled (Resolved data));
  ok_feed_one : ∀ id id', (id, ClearFeedDataCache) ∈ timers w →
                (id', ClearFeedDataCache) ∈ timers w → id = id';
}.

(** Two worlds that agree on everything the invariant reads. *)
Definition same_caches (w w' : world) : Prop :=
  requestCacheTimeout (self w') = requestCacheTimeout (self w)
  ∧ rainDataCacheTimeout (self w') = rainDataCacheTimeout (self w)
  ∧ timers w' = timers w ∧ next_timer w' = next_timer w
  ∧ feedDataCache w' = feedDataCache w ∧ feed_promises w' = feed_promises w.

(* ===================================================================== *)
(** ** Example data *)
(* ===================================================================== *)

(** A host to evaluate examples with: UTC as the local zone, a power of
    ten that is the nearest double at whole exponents and takes the whole
    part of the exponent elsewhere, strings of digits as the only numeric strings,
    and a parser and a distance that are constant. *)
Definition pow10_whole (x : Qc) : number :=
  let e := Qfloor (this x) in
  if (0 <=? e)%Z then binary64 (inject_Z (10 ^ e))
  else double 1 (Z.to_pos (10 ^ (- e))).

Definition example_host : Host := {|
  StringToNumber s :=
    (if forallb RainText.is_digit (list_ascii_of_string s)
     then num (RainText.Number_of_digits s) else NaN);
  ObjectToNumber _ := NaN;
  Math_pow10 := pow10_whole;
  LocalTZA := 0;
  geodist _ _ := NaN;
  parseString _ := (VUndefined, VUndefined);
|}.

(** An object at (52.22, 6.89) with the default cache timeout. *)
Definition example_object : Buienradar := {|
  lat := dec 5222 100; lon := dec 689 100; _lat := None; _lon := None;
  requestCacheTimeout := VNum (num 1000);
  rainData := None; rainDataCacheTimeout := None |}.

(** Three samples, as the provider sends them. *)
Definition example_text : string := "077|14:30
109|14:35
141|14:40".

(** A run: the object is constructed at (52.221537, 6.893662), asks for
    rain data, and the text arrives. *)
Definition example_config : jsval :=
  VObj (<["lat" := VNum (dec 52221537 1000000)]>
       (<["lon" := VNum (dec 6893662 1000000)]> ∅)).

Definition constructed_object : Buienradar :=
  match @Buienradar_new example_host example_config with
  | inl b => b
  | inr _ => example_object
  end.

Definition cached_world : world :=
  (@getRainData_settle example_host 52320000 52320000 (Resolved example_text)
     (getRainData false (initial constructed_object)).1).1.

(** A config with latitude 0, and one whose latitude rounds to 0: the
    constructor accepts the second, and the object it makes cannot fetch
    rain data. *)
Definition equator_config : jsval :=
  VObj (<["lat" := VNum (num 0)]> (<["lon" := VNum (dec 689 100)]> ∅)).

Definition near_equator_config : jsval :=
  VObj (<["lat" := VNum (dec 4 1000)]> (<["lon" := VNum (dec 689 100)]> ∅)).

Definition near_equator_object : Buienradar :=
  match @Buienradar_new example_host near_equator_config with
  | inl b => b
  | inr _ => example_object
  end.

(** A feed with two stations: the first has no reading of its rain
    sensor, the second has one. *)
Definition rainless_station : jsval :=
  VObj (<["stationcode" := VStr "6275"]>
       (<["lat" := VStr "52.07"]>
       (<["lon" := VStr "5.88"]>
       (<["luchtdruk" := VStr "1020.4"]>
       (<["regenMMPU" := VStr "-"]> ∅))))).

Definition distant_station : jsval :=
  VObj (<["stationcode" := VStr "6380"]>
       (<["lat" := VStr "50.92"]>
       (<["lon" := VStr "5.78"]>
       (<["luchtdruk" := VStr "1019.8"]>
       (<["regenMMPU" := VStr "0.2"]> ∅))))).

Definition two_station_feed : jsval :=
  VObj {[ "actueel_weer"%string :=
    VObj {[ "weerstations"%string :=
      VObj {[ "weerstation"%string :=
        VArr [rainless_station; distant_station] ]} ]} ]}.

(** A feed with a two-day forecast; the two texts are elements with
    attributes, which xml2js wraps. *)
Definition wrapped_text (text periode : string) : jsval :=
  VObj (<["_" := VStr text]> (<["$" := VObj {[ "periode"%string := VStr periode ]}]> ∅)).

Definition forecast_feed : jsval :=
  VObj {[ "verwachting_meerdaags"%string :=
    VObj (<["dag-plus1" := VObj {[ "dagweek"%string := VStr "vr" ]}]>
         (<["dag-plus2" := VObj {[ "dagweek"%string := VStr "za" ]}]>
         (<["tekst_middellang" := wrapped_text "Wisselvallig." "zaterdag t/m maandag"]>
         (<["tekst_lang" := wrapped_text "Droger." "dinsdag t/m vrijdag"]> ∅)))) ]}.

Definition forecast_world : world :=
  set_feedDataCache (Some 0%nat)
    (set_feed_promises [Settled (Resolved forecast_feed)] (initial example_object)).

(* ===================================================================== *)
(** ** The rest of the module *)
(* ===================================================================== *)

(** this.hasLocation: both fields have type number, NaN included. *)
Definition hasLocation (b : Buienradar) : bool :=
  is_number (VNum (lat b)) && is_number (VNum (lon b)).

(** A sample of getRainDataFromArray: the value is the array element. *)
Record ArraySample := {
  a_value : jsval;
  a_amount : number;
  a_time : option Z;
  a_indication : jsval;
}.

Section FromArray.
Context `{Host}.

(** The amount of an array element, by the formula of the parser. *)
Definition amount_of_value (value : jsval) : number :=
  round2 (Math_pow_10 (num_div (num_minus (ToNumber value) (Q2Qc 109)) (Q2Qc 32))).

(** The callback of data.map at index [i], [Date_now] being the clock
    at that call. *)
Definition sample_at (Date_now : Z) (i : nat) (value : jsval) : ArraySample :=
  let amount := amount_of_value value in
  {| a_value := value; a_amount := amount;
     a_time := Date.of_time (Some (Date_now + 300 * 1000 * Z.of_nat i));
     a_indication := getRainIndication (VNum amount) |}.

(** this.getRainDataFromArray: [clock i] is what Date.now() returns in
    the i-th call of the callback. *)
Definition getRainDataFromArray (clock : nat → Z) (data : list jsval)
  : promise (list ArraySample) :=
  Resolved (imap (λ i value, sample_at (clock i) i value) data).

End FromArray.

(** The pipes of a text. *)
Definition count_pipes (data : string) : nat :=
  length (List.filter RainText.is_pipe (list_ascii_of_string data)).

(** What a token must look like: digits, and digits and colons. *)
Definition token_ok (tok : string * string) : Prop :=
  forallb RainText.is_digit (list_ascii_of_string tok.1) = true
  ∧ forallb RainText.is_time_char (list_ascii_of_string tok.2) = true.

Section SampleOk.
Context `{Host}.

(** A sample as the parser builds it from its value. *)
Definition sample_ok (s : RainSample) : Prop :=
  amount s = amount_of (value s)
  ∧ indication s = getRainIndication (VNum (amount s)).

End SampleOk.

Section CachesOk.
Context `{Host}.

(** What the caches hold in every reachable world: the rain cache has at
    least two samples, each built from its value; the last location is
    recorded in full or not at all; feedDataCache names a promise that
    exists; and rainDataCache never holds a value. *)
Record caches_ok (w : world) : Prop := {
  ok_samples : ∀ d, rainData (self w) = Some d →
               (2 ≤ length d)%nat ∧ Forall sample_ok d;
  ok_last : is_Some (_lat (self w)) ↔ is_Some (_lon (self w));
  ok_promise : ∀ p, feedDataCache w = Some p → (p < length (feed_promises w))%nat;
  ok_dead : rainDataCache w = VUndefined ∨ rainDataCache w = VNull;
}.

End CachesOk.

(** An event that settles nothing: a reply without a body or with a
    body that the pattern does not match. *)
Definition silent (ev : Race.event) : bool :=
  match ev with
  | Race.Reply _ _ (Some body) => negb (RainText.matches body)
  | Race.Reply _ _ None => true
  | Race.TimerFires => false
  end.

(** this.lat and this.lon are both truthy. *)
Definition located (b : Buienradar) : bool :=
  truthy (VNum (lat b)) && truthy (VNum (lon b)).

(** The callback of parseString got no error and a result with the
    envelope buienradarnl.weergegevens. *)
Definition envelope_ok (err result : jsval) : bool :=
  negb (truthy err)
  && (truthy result && truthy (get result "buienradarnl")
      && truthy (get (get result "buienradarnl") "weergegevens")).

(** The example host with a parser that hands every body the same
    (err, result). *)
Definition parsing_host (err result : jsval) : Host := {|
  StringToNumber := @StringToNumber example_host;
  ObjectToNumber := @ObjectToNumber example_host;
  Math_pow10 := @Math_pow10 example_host;
  LocalTZA := @LocalTZA example_host;
  geodist := @geodist example_host;
  parseString _ := (err, result);
|}.

(** A parsed document around the forecast feed. *)
Definition parsed_document : jsval :=
  VObj {[ "buienradarnl"%string := VObj {[ "weergegevens"%string := forecast_feed ]} ]}.

(** The module after a first getFeedData, its fetch still pending. *)
Definition fetching_world : world := (getFeedData (initial constructed_object)).1.

Section Distance.
Context `{Host}.

(** The distance the scan computes for a station that it can read. *)
Definition distance_to (b : Buienradar) (weatherStation : jsval) : number :=
  geodist (position (VNum (lat b)) (VNum (lon b)))
    (position (get weatherStation "lat") (get weatherStation "lon")).

End Distance.

(** A finite distance above 0. *)
Definition positive (d : number) : Prop := ∃ q, d = Finite q ∧ (0 < q)%Qc.

(** undefined or null *)
Definition nullish (v : jsval) : bool :=
  match v with VUndefined | VNull => true | _ => false end.

Section NearestOf.
Context `{Host}.
Variable b : Buienradar.
Variable requireParams : option (list string).

(** Station [ws] at index [i] is the nearest of [all]: no station that
    passes the filter is nearer, and those before it are farther. *)
Definition nearest_of (all : list jsval) (i : nat) (ws : jsval) : Prop :=
  all !! i = Some ws
  ∧ skip requireParams ws = inl false
  ∧ ∀ j st, all !! j = Some st → skip requireParams st = inl false →
      if (j <? i)%nat then num_lt (distance_to b ws) (distance_to b st) = true
      else num_lt (distance_to b st) (distance_to b ws) = false.

(** What the scan has established after the stations [seen]. *)
Definition scan_inv (seen : list jsval)
    (result : option (nat * jsval)) (nearestDistance : option number) : Prop :=
  match result, nearestDistance with
  | None, None => ∀ st, st ∈ seen → skip requireParams st = inl true
  | Some (j, r), Some d => d = distance_to b r ∧ nearest_of seen j r
  | _, _ => False
  end.

End NearestOf.

(** A host that measures on the grid: the distance of two positions
    with numeric coordinates is the sum of the differences of their
    latitudes and of their longitudes. *)
Definition Qc_abs_diff (x y : Qc) : Qc :=
  if Qc_ltb x y then (y - x)%Qc else (x - y)%Qc.

Definition grid_distance (p q : jsval) : number :=
  match get p "lat", get p "lon", get q "lat", get q "lon" with
  | VNum (Finite a), VNum (Finite o), VNum (Finite a'), VNum (Finite o') =>
      Finite (Qc_abs_diff a a' + Qc_abs_diff o o')%Qc
  | _, _, _, _ => NaN
  end.

Definition grid_host : Host := {|
  StringToNumber := @StringToNumber example_host;
  ObjectToNumber := @ObjectToNumber example_host;
  Math_pow10 := @Math_pow10 example_host;
  LocalTZA := @LocalTZA example_host;
  geodist := grid_distance;
  parseString := @parseString example_host;
|}.

Definition station (code : string) (la lo : number) : jsval :=
  VObj (<["stationcode" := VStr code]>
       (<["lat" := VNum la]> (<["lon" := VNum lo]>
       (<["regenMMPU" := VStr "0.0"]> ∅)))).

(** Three stations around (52.22, 6.89): the second is at the spot, the
    third is the nearest of the other two. *)
Definition station_far : jsval := station "6260" (dec 5210 100) (dec 518 100).
Definition station_here : jsval := station "6290" (dec 5222 100) (dec 689 100).
Definition station_near : jsval := station "6283" (dec 5207 100) (dec 665 100).

Definition stations_feed (stations : list jsval) : jsval :=
  VObj {[ "actueel_weer"%string :=
    VObj {[ "weerstations"%string :=
      VObj {[ "weerstation"%string := VArr stations ]} ]} ]}.

(* ===================================================================== *)
(** * The polling script (src/unnamed/part_000) *)
(* ===================================================================== *)

Module Script.

(** The variables of the script; [i] is undefined until a reply runs the
    loop. *)
Record globals := {
  lat : Qc;
  lon : Qc;
  rain_found : number;
  i : jsval;
}.

(** The script at rest between two callbacks: its variables, what
    console.log has written (oldest first), the requests that have no reply
    yet and the calls of will_it_rain that setTimeout holds. *)
Record state := {
  vars : globals;
  console : list jsval;
  requests : nat;
  timeouts : nat;
}.

Definition set_i (k : nat) (s : state) : state :=
  {| vars := {| lat := lat (vars s); lon := lon (vars s);
                rain_found := rain_found (vars s);
                i := VNum (num (Z.of_nat k)) |};
     console := console s; requests := requests s; timeouts := timeouts s |}.

Definition log (v : jsval) (s : state) : state :=
  {| vars := vars s; console := console s ++ [v];
     requests := requests s; timeouts := timeouts s |}.

Definition is_cr (c : ascii) : bool := Ascii.eqb c "013"%char.
Definition is_lf (c : ascii) : bool := Ascii.eqb c "010"%char.
Definition is_pipe (c : ascii) : bool := Ascii.eqb c "|"%char.

Definition to_head (c : ascii) (parts : list (list ascii)) : list (list ascii) :=
  match parts with
  | h :: t => (c :: h) :: t
  | [] => [[c]]
  end.

(** body.split('\r\n') *)
Fixpoint split_crlf (s : list ascii) : list (list ascii) :=
  match s with
  | [] => [[]]
  | c :: s' =>
      match s' with
      | d :: s'' =>
          if is_cr c && is_lf d then [] :: split_crlf s''
          else to_head c (split_crlf s')
      | [] => [[c]]
      end
  end.

(** array[i].split('|') *)
Fixpoint split_pipe (s : list ascii) : list (list ascii) :=
  match s with
  | [] => [[]]
  | c :: s' =>
      if is_pipe c then [] :: split_pipe s' else to_head c (split_pipe s')
  end.

Definition lines (body : string) : list string :=
  map string_of_list_ascii (split_crlf (list_ascii_of_string body)).

Definition fields (line : string) : list string :=
  map string_of_list_ascii (split_pipe (list_ascii_of_string line)).

(** rain_found != 1, for the rain_found of the callback: its var is
    hoisted, so the name is the callback's own and is undefined ([None])
    until line 35 assigns it. *)
Definition not_found (own : option number) : bool :=
  match own with
  | None => true
  | Some n => negb (num_eq n (num 1))
  end.

Section Callback.
Context `{Host}.

(** array2[0] > 0 *)
Definition rainy (line : string) : bool :=
  num_lt (num 0)
    (ToNumber (match fields line !! 0%nat with
               | Some first => VStr first
               | None => VUndefined
               end)).

(** for (i = 1; i < 7; i++) { ... } with [left] = 7 - i turns to go.
    Lines 22 to 33 fill variables of the callback that nothing reads; with
    rainTime a string they cannot throw, and they are left out. *)
Fixpoint for_i (left : nat) (array : list string) (own : option number)
    (s : state) : state * option error :=
  let k := (7 - left)%nat in
  let s := set_i k s in
  match left with
  | O => (s, None)
  | S left' =>
      match array !! k with
      | None => (s, Some (TypeError "split"))
      | Some line =>
          if rainy line && not_found own then
            match fields line !! 1%nat with
            | None => (s, Some (TypeError "substr"))
            | Some rainTime =>
                for_i left' array (Some (num 1)) (log (VNum (num 1)) s)
            end
          else for_i left' array own s
      end
  end.

(** The callback of request, with [err] for its error.  [response] is
    [None] when undefined, else its statusCode. *)
Definition on_response (err : jsval) (response : option number)
    (body : string) (s : state) : state * option error :=
  if negb (truthy err) then
    match response with
    | None => (s, Some (TypeError "statusCode"))
    | Some statusCode =>
        if num_eq statusCode (num 200) then for_i 6 (lines body) None s
        else (s, None)
    end
  else (s, None).

End Callback.

Definition will_it_rain (s : state) : state :=
  {| vars := vars s; console := console s;
     requests := S (requests s); timeouts := S (timeouts s) |}.

(** Lines 47 to 51.  difMinute is a var of the callback, so the name has
    no binding here. *)
Definition announce (s : state) : state * option error :=
  if num_eq (rain_found (vars s)) (num 1)
  then (s, Some (ReferenceError "difMinute"))
  else (log (VStr "No rain expected within the next 30 min") s, None).

Definition initial : state :=
  {| vars := {| lat := Q2Qc (52221537 # 1000000);
                lon := Q2Qc (6893662 # 1000000);
                rain_found := num 0;
                i := VUndefined |};
     console := []; requests := 0; timeouts := 0 |}.

(** The script from its first line to its last. *)
Definition main : state * option error := announce (will_it_rain initial).

Definition timeout_fires (s : state) : state :=
  will_it_rain {| vars := vars s; console := console s;
                  requests := requests s; timeouts := pred (timeouts s) |}.

Definition reply_arrives `{Host} (err : jsval) (response : option number)
    (body : string) (s : state) : state * option error :=
  on_response err response body
    {| vars := vars s; console := console s;
       requests := pred (requests s); timeouts := timeouts s |}.

(** What the event loop does next.  An error that a callback throws is
    caught by nobody; the relation lets the run go on after it, which only
    adds runs to those of a process that such an error ends. *)
Inductive step `{Host} : state → state → Prop :=
| step_timeout s :
    (0 < timeouts s)%nat → step s (timeout_fires s)
| step_reply s err response body :
    (0 < requests s)%nat → step s (reply_arrives err response body s).1.

(** The line that a reply can add to the console. *)
Definition logged `{Host} (array : list string) : list jsval :=
  if existsb rainy (take 6 (drop 1 array)) then [VNum (num 1)] else [].

Definition with_console (out : list jsval) (s : state) : state :=
  {| vars := vars s; console := console s ++ out;
     requests := requests s; timeouts := timeouts s |}.

End Script.

(** A line of the reply has a time after its pipe. *)
Definition has_time (line : string) : bool :=
  (2 <=? length (Script.fields line))%nat.

Definition crlf : string := String "013" (String "010" EmptyString).

(** A reply of eight lines, the fourth with rain. *)
Definition example_body : string :=
  String.concat crlf
    ["000|14:30"; "000|14:35"; "000|14:40"; "077|14:45"; "087|14:50";
     "000|14:55"; "000|15:00"; "000|15:05"]%string.

(** A reply that stops after its third line. *)
Definition short_body : string :=
  String.concat crlf ["000|14:30"; "077|14:35"; "000|14:40"]%string.

(** What the Standard Library's specification of IEEE 754 arithmetic
    gives in binary64 for the quotient of two integers below 2^53, and
    for the product of such a quotient with an integer. *)
Definition of_spec_float (f : SpecFloat.spec_float) : number :=
  match f with
  | SpecFloat.S754_zero _ => Finite (Q2Qc 0)
  | SpecFloat.S754_infinity s => if s then NegInf else PosInf
  | SpecFloat.S754_nan => NaN
  | SpecFloat.S754_finite s m e =>
      Finite (Q2Qc ((if s then - inject_Z (Zpos m) else inject_Z (Zpos m))
                    * pow2 e))
  end.

Definition spec_of_Z (z : Z) : SpecFloat.spec_float :=
  SpecFloat.binary_normalize 53 1024 z 0 false.

Definition quotient_spec (n : Z) (d : BinNums.positive)
  : SpecFloat.spec_float :=
  SpecFloat.SFdiv 53 1024 (spec_of_Z n) (spec_of_Z (Zpos d)).

Definition product_spec (n : Z) (d : BinNums.positive) (k : Z)
  : SpecFloat.spec_float :=
  SpecFloat.SFmul 53 1024 (quotient_spec n d) (spec_of_Z k).

(* ===================================================================== *)
(** * Properties *)
(* ===================================================================== *)

(** ** Numbers *)

Section Doubles.
#[local] Open Scope Q_scope.

Lemma pow2_pos e : 0 < pow2 e.
Proof. apply Qpower_0_lt. reflexivity. Qed.

Lemma pow2_add a b : pow2 (a + b) == pow2 a * pow2 b.
Proof. apply Qpower_plus. discriminate. Qed.

Lemma pow2_succ e : pow2 (e + 1) == 2 * pow2 e.
Proof. rewrite pow2_add. change (pow2 1) with 2. ring. Qed.

Lemma pow2_pred e : pow2 (e - 1) == pow2 e / 2.
Proof.
  assert (H : pow2 e == 2 * pow2 (e - 1)).
  { rewrite <- pow2_succ. by replace (e - 1 + 1)%Z with e by lia. }
  rewrite H. field.
Qed.

Lemma pow2_Z k : (0 ≤ k)%Z → pow2 k == inject_Z (2 ^ k).
Proof. intros Hk. unfold pow2. by rewrite Zpower_Qpower. Qed.

Lemma pow2_le a b : (a ≤ b)%Z → pow2 a <= pow2 b.
Proof. intros Hab. apply Qpower_le_compat_l; [done | discriminate]. Qed.

Lemma pow2_lt a b : (a < b)%Z → pow2 a < pow2 b.
Proof. intros Hab. apply Qpower_lt_compat_l; [done | reflexivity]. Qed.

Lemma ilog2_spec q : 0 < q → pow2 (ilog2 q) <= q ∧ q < pow2 (ilog2 q + 1).
Proof.
  intros Hq. unfold ilog2.
  destruct q as [n d]. unfold Qlt in Hq. cbn in Hq. rewrite Z.mul_1_r in Hq.
  cbn [Qnum Qden].
  set (ln := Z.log2 n). set (ld := Z.log2 (Z.pos d)).
  destruct (Z.log2_spec n Hq) as [Hn1 Hn2]. fold ln in Hn1, Hn2.
  destruct (Z.log2_spec (Z.pos d) ltac:(lia)) as [Hd1 Hd2]. fold ld in Hd1, Hd2.
  assert (Hln : (0 ≤ ln)%Z) by apply Z.log2_nonneg.
  assert (Hld : (0 ≤ ld)%Z) by apply Z.log2_nonneg.
  set (e := (ln - ld)%Z).
  assert (HA : pow2 e * inject_Z (2 ^ ld) == inject_Z (2 ^ ln)).
  { rewrite <- !pow2_Z by done. rewrite <- pow2_add. by replace (e + ld)%Z with ln by lia. }
  assert (Hqd : (n # d) * inject_Z (Z.pos d) == inject_Z n).
  { unfold Qeq, Qmult, inject_Z. cbn. lia. }
  assert (HB : 0 < inject_Z (2 ^ ld)) by (rewrite <- pow2_Z by done; apply pow2_pos).
  assert (HD : 0 < inject_Z (Z.pos d)) by (unfold Qlt; cbn; lia).
  assert (Hn1' : inject_Z (2 ^ ln) <= inject_Z n) by (by rewrite <- Zle_Qle).
  assert (Hn2' : inject_Z n < 2 * inject_Z (2 ^ ln)).
  { change 2 with (inject_Z 2). rewrite <- inject_Z_mult, <- Zlt_Qlt.
    rewrite Z.pow_succ_r in Hn2 by done. lia. }
  assert (Hd1' : inject_Z (2 ^ ld) <= inject_Z (Z.pos d)) by (by rewrite <- Zle_Qle).
  assert (Hd2' : inject_Z (Z.pos d) < 2 * inject_Z (2 ^ ld)).
  { change 2 with (inject_Z 2). rewrite <- inject_Z_mult, <- Zlt_Qlt.
    rewrite Z.pow_succ_r in Hd2 by done. lia. }
  pose proof (pow2_pos e) as He.
  assert (Hup : (n # d) < 2 * pow2 e).
  { apply Qnot_le_lt. intros Hc. nra. }
  assert (Hlow : pow2 e / 2 < (n # d)).
  { apply Qnot_le_lt. intros Hc.
    assert (pow2 e / 2 == pow2 e * (1 # 2)) as E by field. rewrite E in Hc. nra. }
  destruct (Qle_bool (pow2 e) (n # d)) eqn:Hb.
  - apply Qle_bool_iff in Hb. split; [done |]. by rewrite pow2_succ.
  - assert (Hlt : (n # d) < pow2 e).
    { apply Qnot_le_lt. intros Hc. apply Qle_bool_iff in Hc. congruence. }
    split.
    + rewrite pow2_pred. by apply Qlt_le_weak.
    + by replace (e - 1 + 1)%Z with e by lia.
Qed.

Lemma ilog2_unique q e e' :
  pow2 e <= q → q < pow2 (e + 1) → pow2 e' <= q → q < pow2 (e' + 1) → e = e'.
Proof.
  intros H1 H2 H3 H4.
  destruct (Z.lt_trichotomy e e') as [Hlt | [-> | Hlt]]; [| done |].
  - pose proof (pow2_le (e + 1) e' ltac:(lia)). lra.
  - pose proof (pow2_le (e' + 1) e ltac:(lia)). lra.
Qed.

Lemma ilog2_proper q q' : 0 < q → q == q' → ilog2 q = ilog2 q'.
Proof.
  intros Hq E.
  destruct (ilog2_spec q Hq) as [H1 H2].
  assert (Hq' : 0 < q') by lra.
  destruct (ilog2_spec q' Hq') as [H3 H4].
  apply (ilog2_unique q); lra.
Qed.

Lemma round_half_even_proper q q' : q == q' → round_half_even q = round_half_even q'.
Proof.
  intros E. unfold round_half_even. rewrite <- (Qfloor_comp _ _ E).
  assert (E' : q - inject_Z (Qfloor q) == q' - inject_Z (Qfloor q)) by lra.
  by rewrite (Qcompare_comp _ _ E' _ _ (Qeq_refl (1 # 2))).
Qed.

Lemma round_half_even_near q : Qabs (inject_Z (round_half_even q) - q) <= 1 # 2.
Proof.
  unfold round_half_even.
  pose proof (Qfloor_le q) as Hle. pose proof (Qlt_floor q) as Hlt.
  rewrite inject_Z_plus in Hlt. change (inject_Z 1) with 1 in Hlt.
  set (f := Qfloor q) in *.
  apply Qabs_Qle_condition.
  destruct (Qcompare_spec (q - inject_Z f) (1 # 2)) as [E | E | E].
  - destruct (Z.even f); rewrite ?inject_Z_plus; change (inject_Z 1) with 1; lra.
  - lra.
  - rewrite inject_Z_plus. change (inject_Z 1) with 1. lra.
Qed.

Lemma round_half_even_Z q (z : Z) : q == inject_Z z → round_half_even q = z.
Proof.
  intros E. rewrite (round_half_even_proper _ _ E). unfold round_half_even.
  rewrite Qfloor_Z.
  destruct (Qcompare_spec (inject_Z z - inject_Z z) (1 # 2)); [lra | done | lra].
Qed.

Lemma round_half_even_nonneg q : 0 <= q → (0 ≤ round_half_even q)%Z.
Proof.
  intros Hq. unfold round_half_even.
  assert (Hf : (0 ≤ Qfloor q)%Z).
  { change 0%Z with (Qfloor 0). by apply Qfloor_resp_le. }
  destruct (Qcompare _ _); [destruct (Z.even _) | |]; lia.
Qed.

(** The double of a rational that is no zero *)
Lemma binary64_nonzero q :
  ¬ q == 0 →
  binary64 q =
    let a := Qabs q in
    let e := Z.max (ilog2 a - 52) (-1074) in
    let r := inject_Z (round_half_even (a / pow2 e)) * pow2 e in
    if Qle_bool (pow2 1024) r then (if Qle_bool 0 q then PosInf else NegInf)
    else Finite (Q2Qc (if Qle_bool 0 q then r else - r)).
Proof.
  intros Hq. unfold binary64.
  destruct (Qeq_bool (Qabs q) 0) eqn:E; [| done].
  apply Qeq_bool_iff in E. exfalso. apply Hq.
  revert E. apply Qabs_case; intros; lra.
Qed.

Lemma pow2_lt_inv a b : pow2 a < pow2 b → (a < b)%Z.
Proof.
  intros H. destruct (Z_lt_le_dec a b) as [| Hle]; [done |].
  pose proof (pow2_le b a Hle). lra.
Qed.

Lemma Qabs_sign q r :
  0 <= r → Qabs ((if Qle_bool 0 q then r else - r) - q) == Qabs (r - Qabs q).
Proof.
  intros Hr. destruct (Qle_bool 0 q) eqn:E.
  - apply Qle_bool_iff in E. by rewrite (Qabs_pos q E).
  - assert (Hneg : q <= 0).
    { apply Qlt_le_weak, Qnot_le_lt. intros Hc. apply Qle_bool_iff in Hc. congruence. }
    rewrite (Qabs_neg q Hneg).
    assert (E' : - r - q == - (r - - q)) by ring. rewrite E'. apply Qabs_opp.
Qed.

(** Rounding to a double moves a number by at most half a unit in the
    last place: a 2^53-th of it, or 2^-1075 near zero. *)
Lemma binary64_near q :
  Qabs q <= pow2 1023 →
  ∃ r : Qc, binary64 q = Finite r
            ∧ Qabs (this r - q) <= Qabs q * pow2 (-53) + pow2 (-1075).
Proof.
  intros Hmax.
  destruct (Qeq_dec q 0) as [Hz | Hnz].
  { exists (Q2Qc 0). split.
    - unfold binary64.
      assert (E : Qeq_bool (Qabs q) 0 = true)
        by (apply Qeq_bool_iff; rewrite Hz; reflexivity).
      by rewrite E.
    - cbn [this Q2Qc]. rewrite Hz. vm_compute. discriminate. }
  rewrite (binary64_nonzero q Hnz). cbn zeta.
  set (a := Qabs q) in *.
  assert (Ha : 0 < a).
  { unfold a. apply Qabs_case; intros; lra. }
  destruct (ilog2_spec a Ha) as [Hlo Hhi].
  set (e0 := ilog2 a) in *.
  set (e := Z.max (e0 - 52) (-1074)).
  pose proof (round_half_even_near (a / pow2 e)) as Hnear.
  pose proof (round_half_even_nonneg (a / pow2 e)) as Hnn.
  set (m := round_half_even (a / pow2 e)) in *.
  pose proof (pow2_pos e) as He.
  assert (Hm : 0 <= inject_Z m).
  { change 0 with (inject_Z 0). rewrite <- Zle_Qle. apply Hnn.
    apply Qle_shift_div_l; lra. }
  assert (Hr : Qabs (inject_Z m * pow2 e - a) <= pow2 e * (1 # 2)).
  { apply Qabs_Qle_condition in Hnear as [H1 H2].
    assert (Ediv : a / pow2 e * pow2 e == a) by (field; lra).
    apply Qabs_Qle_condition. split; nra. }
  assert (He0 : (e0 < 1024)%Z).
  { apply pow2_lt_inv. pose proof (pow2_lt 1023 1024 ltac:(lia)). lra. }
  assert (Hulp : pow2 e * (1 # 2) <= a * pow2 (-53) + pow2 (-1075)).
  { pose proof (pow2_pos (-53)). pose proof (pow2_pos (-1075)).
    unfold e. destruct (Z.max_spec (e0 - 52) (-1074)) as [[_ ->] | [_ ->]].
    - assert (E : pow2 (-1074) * (1 # 2) == pow2 (-1075)).
      { change (-1075)%Z with (-1074 - 1)%Z. rewrite pow2_pred. field. }
      nra.
    - assert (E : pow2 (e0 - 52) * (1 # 2) == pow2 e0 * pow2 (-53)).
      { replace (e0 - 52)%Z with (e0 + (-53) + 1)%Z by lia.
        rewrite pow2_succ, pow2_add. field. }
      nra. }
  assert (Hsmall : pow2 e * (1 # 2) <= pow2 970).
  { assert (pow2 e <= pow2 971) by (apply pow2_le; lia).
    assert (E : pow2 971 == 2 * pow2 970) by (by rewrite <- pow2_succ).
    lra. }
  assert (Hfit : inject_Z m * pow2 e < pow2 1024).
  { apply Qabs_Qle_condition in Hr as [_ H2].
    assert (E : pow2 1024 == 2 * pow2 1023) by (by rewrite <- pow2_succ).
    pose proof (pow2_lt 970 1023 ltac:(lia)). lra. }
  destruct (Qle_bool (pow2 1024) (inject_Z m * pow2 e)) eqn:Hov.
  { apply Qle_bool_iff in Hov. lra. }
  eexists. split; [reflexivity |].
  cbn [this Q2Qc]. rewrite Qred_correct.
  rewrite Qabs_sign by nra. fold a. lra.
Qed.

(** Integers of 53 bits, scaled by a power of two in the range of
    doubles, are doubles. *)
Lemma binary64_exact q (m s : Z) :
  q == inject_Z m * pow2 s →
  (Z.abs m < 2 ^ 53)%Z → (-1074 ≤ s ≤ 971)%Z →
  binary64 q = Finite (Q2Qc q).
Proof.
  intros Eq Hm Hs.
  destruct (Qeq_dec q 0) as [Hz | Hnz].
  { unfold binary64.
    assert (E : Qeq_bool (Qabs q) 0 = true)
      by (apply Qeq_bool_iff; rewrite Hz; reflexivity).
    rewrite E. f_equal. apply Qc_is_canon. cbn [this Q2Qc].
    rewrite !Qred_correct. lra. }
  rewrite (binary64_nonzero q Hnz). cbn zeta.
  pose proof (pow2_pos s) as Hps.
  assert (Ea : Qabs q == inject_Z (Z.abs m) * pow2 s).
  { rewrite Eq, Qabs_Qmult, (Qabs_pos (pow2 s)) by lra. reflexivity. }
  set (a := Qabs q) in *.
  assert (Ha : 0 < a).
  { unfold a. apply Qabs_case; intros; lra. }
  destruct (ilog2_spec a Ha) as [Hlo Hhi].
  set (e0 := ilog2 a) in *.
  set (e := Z.max (e0 - 52) (-1074)).
  assert (Hbound : a < pow2 (53 + s)).
  { rewrite Ea, pow2_add, (pow2_Z 53) by lia.
    assert (inject_Z (Z.abs m) < inject_Z (2 ^ 53)) by (by rewrite <- Zlt_Qlt).
    nra. }
  assert (He0 : (e0 < 53 + s)%Z) by (apply pow2_lt_inv; lra).
  assert (Hes : (e ≤ s)%Z) by (unfold e; lia).
  assert (Ediv : a / pow2 e == inject_Z (Z.abs m * 2 ^ (s - e))).
  { rewrite inject_Z_mult, <- pow2_Z by lia. rewrite Ea.
    replace s with ((s - e) + e)%Z at 1 by lia. rewrite pow2_add.
    pose proof (pow2_pos e). field. lra. }
  rewrite (round_half_even_Z _ _ Ediv).
  assert (Er : inject_Z (Z.abs m * 2 ^ (s - e)) * pow2 e == a).
  { rewrite <- Ediv. pose proof (pow2_pos e). field. lra. }
  assert (Hfit : a < pow2 1024).
  { pose proof (pow2_le (53 + s) 1024 ltac:(lia)). lra. }
  destruct (Qle_bool (pow2 1024) _) eqn:Hov.
  { apply Qle_bool_iff in Hov. lra. }
  f_equal. apply Qc_is_canon. cbn [this Q2Qc]. rewrite !Qred_correct.
  destruct (Qle_bool 0 q) eqn:E.
  - apply Qle_bool_iff in E. rewrite Er. unfold a. by rewrite Qabs_pos.
  - assert (Hneg : q <= 0).
    { apply Qlt_le_weak, Qnot_le_lt. intros Hc. apply Qle_bool_iff in Hc. congruence. }
    rewrite Er. unfold a. rewrite Qabs_neg by done. ring.
Qed.

Lemma binary64_Z (z : Z) :
  (Z.abs z < 2 ^ 53)%Z → binary64 (inject_Z z) = Finite (Q2Qc (inject_Z z)).
Proof.
  intros Hz. apply (binary64_exact _ z 0); [| done | lia].
  change (pow2 0) with 1. ring.
Qed.

Lemma binary64_proper q q' : q == q' → binary64 q = binary64 q'.
Proof.
  intros E. destruct (Qeq_dec q 0) as [Hz | Hnz].
  - unfold binary64.
    assert (E1 : Qeq_bool (Qabs q) 0 = true)
      by (apply Qeq_bool_iff; rewrite Hz; reflexivity).
    assert (E2 : Qeq_bool (Qabs q') 0 = true)
      by (apply Qeq_bool_iff; rewrite <- E, Hz; reflexivity).
    by rewrite E1, E2.
  - assert (Hnz' : ¬ q' == 0) by (intros Hc; apply Hnz; lra).
    rewrite (binary64_nonzero q Hnz), (binary64_nonzero q' Hnz'). cbn zeta.
    assert (Ea : Qabs q == Qabs q') by (by rewrite E).
    assert (Ha : 0 < Qabs q) by (apply Qabs_case; intros; lra).
    rewrite <- (ilog2_proper _ _ Ha Ea).
    set (e := Z.max _ _).
    assert (Ed : Qabs q / pow2 e == Qabs q' / pow2 e) by (by rewrite Ea).
    rewrite <- (round_half_even_proper _ _ Ed).
    assert (Eb : Qle_bool 0 q = Qle_bool 0 q').
    { destruct (Qle_bool 0 q) eqn:B1, (Qle_bool 0 q') eqn:B2; try done.
      - apply Qle_bool_iff in B1. assert (0 <= q') as Hc by lra.
        apply Qle_bool_iff in Hc. congruence.
      - apply Qle_bool_iff in B2. assert (0 <= q) as Hc by lra.
        apply Qle_bool_iff in Hc. congruence. }
    by rewrite Eb.
Qed.

Lemma round_half_even_le q (n : Z) : q <= inject_Z n → (round_half_even q ≤ n)%Z.
Proof.
  intros Hq. pose proof (round_half_even_near q) as Hnear.
  apply Qabs_Qle_condition in Hnear as [_ H2].
  assert (H : inject_Z (round_half_even q) < inject_Z (n + 1)).
  { rewrite inject_Z_plus. change (inject_Z 1) with 1. lra. }
  rewrite <- Zlt_Qlt in H. lia.
Qed.

(** No double lies between a tenth and the double nearest to it, which
    is 7205759403792794 / 2^56: a double is below the one exactly when it
    is below the other. *)
Lemma tenth_among_doubles q (r : Qc) :
  binary64 q = Finite r →
  this r < 1 # 10 ↔ this r < 7205759403792794 # 72057594037927936.
Proof.
  intros Hr. split; [intros H; lra |]. intros Hlt.
  destruct (Qeq_dec q 0) as [Hz | Hnz].
  { unfold binary64 in Hr.
    assert (E : Qeq_bool (Qabs q) 0 = true)
      by (apply Qeq_bool_iff; rewrite Hz; reflexivity).
    rewrite E in Hr. injection Hr as <-. reflexivity. }
  rewrite (binary64_nonzero q Hnz) in Hr. cbn zeta in Hr.
  set (a := Qabs q) in *.
  assert (Ha : 0 < a).
  { unfold a. apply Qabs_case; intros; lra. }
  destruct (ilog2_spec a Ha) as [Hlo Hhi].
  set (e0 := ilog2 a) in *.
  set (e := Z.max (e0 - 52) (-1074)) in *.
  pose proof (pow2_pos e) as He.
  pose proof (round_half_even_nonneg (a / pow2 e)) as Hnn.
  assert (Hle : (round_half_even (a / pow2 e) ≤ 2 ^ 53)%Z).
  { apply round_half_even_le. rewrite <- pow2_Z by lia.
    apply Qle_shift_div_r; [done |]. rewrite <- pow2_add.
    assert (pow2 (e0 + 1) <= pow2 (53 + e)) by (apply pow2_le; unfold e; lia).
    lra. }
  set (m := round_half_even (a / pow2 e)) in *.
  assert (Hm : (0 ≤ m)%Z) by (apply Hnn, Qle_shift_div_l; lra).
  assert (Hm0 : 0 <= inject_Z m) by (change 0 with (inject_Z 0); by rewrite <- Zle_Qle).
  assert (Hm53 : inject_Z m <= inject_Z (2 ^ 53)) by (by rewrite <- Zle_Qle).
  destruct (Qle_bool (pow2 1024) _); [by destruct (Qle_bool 0 q) |].
  injection Hr as <-. cbn [this Q2Qc] in *. rewrite Qred_correct in *.
  destruct (Qle_bool 0 q); [| nra].
  destruct (Z_le_gt_dec (-56) e) as [Hbig | Hsmall].
  - assert (Ee : pow2 e == inject_Z (2 ^ (e + 56)) * (1 # 72057594037927936)).
    { rewrite <- pow2_Z by lia. change (1 # 72057594037927936) with (pow2 (-56)).
      rewrite <- pow2_add. by replace (e + 56 + -56)%Z with e by lia. }
    rewrite Ee in Hlt |- *. rewrite Qmult_assoc, <- inject_Z_mult in Hlt |- *.
    set (k := (m * 2 ^ (e + 56))%Z) in *.
    assert (Hk : inject_Z k < inject_Z 7205759403792794).
    { assert (E : 7205759403792794 # 72057594037927936
                  == inject_Z 7205759403792794 * (1 # 72057594037927936))
        by reflexivity.
      rewrite E in Hlt. lra. }
    rewrite <- Zlt_Qlt in Hk.
    assert (Hk' : inject_Z k <= inject_Z 7205759403792793) by (rewrite <- Zle_Qle; lia).
    change (inject_Z 7205759403792793) with (7205759403792793 # 1) in Hk'. lra.
  - assert (Hp : pow2 e <= pow2 (-57)) by (apply pow2_le; lia).
    change (pow2 (-57)) with (1 # 144115188075855872) in Hp.
    change (inject_Z (2 ^ 53)) with (9007199254740992 # 1) in Hm53. nra.
Qed.

End Doubles.

(** The ladder of getRainIndication compares with the literal 0.1, the
    double nearest to a tenth; on a double the comparison with the tenth
    itself gives the same. *)
Lemma tenth_literal (q : Q) :
  num_lt (binary64 q) (dec 1 10) = num_lt (binary64 q) (double 1 10).
Proof.
  assert (Hd : num_eq (double 1 10)
                 (Finite (Q2Qc (7205759403792794 # 72057594037927936))) = true)
    by (by vm_compute).
  destruct (double 1 10) as [d | | |]; try done.
  apply bool_decide_eq_true in Hd. subst d.
  destruct (binary64 q) as [r | | |] eqn:Hr; try done.
  cbn [num_lt dec]. unfold Qc_ltb. apply bool_decide_ext.
  unfold Qclt. cbn [this Q2Qc]. rewrite !Qred_correct.
  by apply (tenth_among_doubles q).
Qed.


(** The rounding agrees with the Standard Library's specification of
    binary64 division and multiplication, here on some quotients and on
    the products 52.205 * 100 and 1e307 * 100. *)
Example binary64_agrees_with_SpecFloat :
  forallb (λ '(n, d), num_eq (double n d) (of_spec_float (quotient_spec n d)))
    [(1, 10%positive); (25, 10%positive); (52205, 1000%positive);
     (5222, 100%positive); (689, 100%positive); (-1, 3%positive);
     (2 ^ 52 + 1, 3%positive); (7, (2 ^ 40)%positive); (0, 7%positive)]
  = true
  ∧ forallb (λ '(n, d, k),
       num_eq (num_mul (double n d) (Q2Qc (inject_Z k)))
              (of_spec_float (product_spec n d k)))
      [(52205, 1000%positive, 100); (10 ^ 307, 1%positive, 100);
       (1, 10%positive, 100); (-689, 100%positive, 100)]
    = true.
Proof. by vm_compute. Qed.

(** Math.round(x * 100) / 100 on a finite x: the double written c/100,
    for an integer c that is half a unit at most from the double x * 100,
    itself a rounding error from 100 x. *)
Lemma round2_hundredths (p : Qc) :
  (Qabs (this p) <= pow2 1016)%Q →
  ∃ c : Z,
    round2 (Finite p) = double c 100
    ∧ (Qabs (inject_Z c - 100 * this p)
       <= (1 # 2) + Qabs (this p) * pow2 (-46) + pow2 (-1075))%Q.
Proof.
  intros Hp. unfold round2, num_mul.
  assert (E100 : (this p * this (Q2Qc 100) == 100 * this p)%Q)
    by (cbn [this Q2Qc]; rewrite Qred_correct; ring).
  rewrite (binary64_proper _ _ E100).
  pose proof (pow2_pos 1016) as H1016.
  assert (E1023 : (pow2 1023 == 128 * pow2 1016)%Q).
  { change 1023 with (7 + 1016). rewrite pow2_add. reflexivity. }
  assert (E46 : (pow2 (-46) == 128 * pow2 (-53))%Q).
  { change (-46) with (7 + -53). rewrite pow2_add. reflexivity. }
  pose proof (pow2_pos (-53)) as H53.
  pose proof (Qabs_nonneg (this p)) as Hnn.
  assert (Eabs : (Qabs (100 * this p) == 100 * Qabs (this p))%Q)
    by (rewrite Qabs_Qmult; reflexivity).
  destruct (binary64_near (100 * this p)%Q) as (y & -> & Hy).
  { rewrite Eabs, E1023. lra. }
  rewrite Eabs in Hy.
  cbn [Math_round]. set (c := Qfloor (this y + (1 # 2))).
  pose proof (Qfloor_le (this y + (1 # 2))) as Hle.
  pose proof (Qlt_floor (this y + (1 # 2))) as Hlt.
  fold c in Hle, Hlt. rewrite inject_Z_plus in Hlt.
  change (inject_Z 1) with 1%Q in Hlt.
  exists c. split.
  - unfold num, num_div, double. apply binary64_proper.
    cbn [this Q2Qc]. rewrite !Qred_correct.
    unfold Qeq, Qdiv, Qmult, Qinv, inject_Z. cbn. lia.
  - apply Qabs_Qle_condition in Hy as [Hy1 Hy2].
    apply Qabs_Qle_condition. split; nra.
Qed.

Lemma Qc_ltb_true (x y : Qc) : Qc_ltb x y = true ↔ (x < y)%Qc.
Proof. unfold Qc_ltb. apply bool_decide_eq_true. Qed.

Lemma Qc_ltb_false (x y : Qc) : Qc_ltb x y = false ↔ (y ≤ x)%Qc.
Proof.
  unfold Qc_ltb. rewrite bool_decide_eq_false.
  split; [apply Qcnot_lt_le | apply Qcle_not_lt].
Qed.

(** Orders between rationals, some of them literals: down to Q, where
    linear arithmetic decides. *)
Ltac qc_order :=
  repeat match goal with
         | H : Qc_ltb _ _ = true |- _ => apply Qc_ltb_true in H
         | H : Qc_ltb _ _ = false |- _ => apply Qc_ltb_false in H
         end;
  unfold Qclt, Qcle in *; cbn in *; lra.

(** ** Rain indication *)

Section IndicationFacts.
Context `{Host}.

Lemma getRainIndication_finite (a : Qc) :
  getRainIndication (VNum (Finite a)) =
    if Qc_ltb a (Q2Qc (1 # 10)) then VNum Indicators.NO_RAIN
    else if Qc_ltb a (Q2Qc (25 # 10)) then VNum Indicators.LIGHT_RAIN
    else if Qc_ltb a (Q2Qc 10) then VNum Indicators.MODERATE_RAIN
    else if Qc_ltb a (Q2Qc 50) then VNum Indicators.HEAVY_RAIN
    else VNum Indicators.VIOLENT_RAIN.
Proof. reflexivity. Qed.

(** An input that coerces to a finite number is classified as that
    number. *)
Lemma getRainIndication_coerced (v : jsval) (x : Qc) :
  ToNumber v = Finite x →
  getRainIndication v = getRainIndication (VNum (Finite x)).
Proof. intros Hv. unfold getRainIndication, isNaN. cbn [ToNumber]. by rewrite Hv. Qed.

(** C8.  On a finite amount a >= 0 getRainIndication
    returns the one indicator whose left-closed, right-open interval
    holds a (below 0.1, below 2.5, below 10, below 50, from 50 on); it is
    monotonic: for a <= b the indicator of a is at most that of b; the
    eight boundary amounts of the specification fall as listed.  An input
    of any type is classified by the number it coerces to: it yields
    false exactly when that number is NaN, and else the indicator of that
    number (VIOLENT_RAIN for Infinity, NO_RAIN for -Infinity). *)
Theorem getRainIndication_ladder (a b : Qc) (v : jsval) :
  (0 ≤ a)%Qc → (a ≤ b)%Qc →
  let ind x := getRainIndication (VNum (Finite x)) in
  ((a < Q2Qc (1 # 10))%Qc ∧ ind a = VNum Indicators.NO_RAIN
   ∨ (Q2Qc (1 # 10) ≤ a < Q2Qc (25 # 10))%Qc ∧ ind a = VNum Indicators.LIGHT_RAIN
   ∨ (Q2Qc (25 # 10) ≤ a < Q2Qc 10)%Qc ∧ ind a = VNum Indicators.MODERATE_RAIN
   ∨ (Q2Qc 10 ≤ a < Q2Qc 50)%Qc ∧ ind a = VNum Indicators.HEAVY_RAIN
   ∨ (Q2Qc 50 ≤ a)%Qc ∧ ind a = VNum Indicators.VIOLENT_RAIN)
  ∧ (∃ x y, ind a = VNum (Finite x) ∧ ind b = VNum (Finite y) ∧ (x ≤ y)%Qc)
  ∧ (ind (Q2Qc (99 # 1000)) = VNum Indicators.NO_RAIN
     ∧ ind (Q2Qc (1 # 10)) = VNum Indicators.LIGHT_RAIN
     ∧ ind (Q2Qc (2499 # 1000)) = VNum Indicators.LIGHT_RAIN
     ∧ ind (Q2Qc (25 # 10)) = VNum Indicators.MODERATE_RAIN
     ∧ ind (Q2Qc (9999 # 1000)) = VNum Indicators.MODERATE_RAIN
     ∧ ind (Q2Qc 10) = VNum Indicators.HEAVY_RAIN
     ∧ ind (Q2Qc (49999 # 1000)) = VNum Indicators.HEAVY_RAIN
     ∧ ind (Q2Qc 50) = VNum Indicators.VIOLENT_RAIN)
  ∧ (getRainIndication v = VBool false ↔ ToNumber v = NaN)
  ∧ match ToNumber v with
    | Finite x => getRainIndication v = ind x
    | PosInf => getRainIndication v = VNum Indicators.VIOLENT_RAIN
    | NegInf => getRainIndication v = VNum Indicators.NO_RAIN
    | NaN => getRainIndication v = VBool false
    end.
Proof.
  intros Ha Hab ind. subst ind. cbn beta.
  split; [| split; [| split; [| split]]].
  - rewrite getRainIndication_finite.
    destruct (Qc_ltb a (Q2Qc (1 # 10))) eqn:E1; [left; split; [qc_order | done] |].
    destruct (Qc_ltb a (Q2Qc (25 # 10))) eqn:E2;
      [right; left; split; [split; qc_order | done] |].
    destruct (Qc_ltb a (Q2Qc 10)) eqn:E3;
      [right; right; left; split; [split; qc_order | done] |].
    destruct (Qc_ltb a (Q2Qc 50)) eqn:E4;
      [right; right; right; left; split; [split; qc_order | done] |].
    right; right; right; right. split; [qc_order | done].
  - rewrite !getRainIndication_finite.
    destruct (Qc_ltb a (Q2Qc (1 # 10))) eqn:A1;
    [| destruct (Qc_ltb a (Q2Qc (25 # 10))) eqn:A2;
       [| destruct (Qc_ltb a (Q2Qc 10)) eqn:A3;
          [| destruct (Qc_ltb a (Q2Qc 50)) eqn:A4]]];
    (destruct (Qc_ltb b (Q2Qc (1 # 10))) eqn:B1;
     [| destruct (Qc_ltb b (Q2Qc (25 # 10))) eqn:B2;
        [| destruct (Qc_ltb b (Q2Qc 10)) eqn:B3;
           [| destruct (Qc_ltb b (Q2Qc 50)) eqn:B4]]]);
    (eexists _, _; split; [reflexivity | split; [reflexivity |]]);
    first [ by vm_compute | exfalso; qc_order ].
  - rewrite !getRainIndication_finite. by repeat split.
  - destruct (ToNumber v) as [x | | |] eqn:Hv.
    + rewrite (getRainIndication_coerced _ _ Hv), getRainIndication_finite.
      split; [| done]. by repeat (destruct (Qc_ltb _ _)).
    + split; [done |]. intros _. unfold getRainIndication, isNaN. by rewrite Hv.
    + split; [| done]. unfold getRainIndication, isNaN. by rewrite Hv.
    + split; [| done]. unfold getRainIndication, isNaN. by rewrite Hv.
  - destruct (ToNumber v) as [x | | |] eqn:Hv.
    + by apply getRainIndication_coerced.
    + unfold getRainIndication, isNaN. by rewrite Hv.
    + unfold getRainIndication, isNaN. by rewrite Hv.
    + unfold getRainIndication, isNaN. by rewrite Hv.
Qed.

End IndicationFacts.

Lemma getRainIndication_ladder_witness :
  (0 ≤ Q2Qc (1 # 20))%Qc ∧ (Q2Qc (1 # 20) ≤ Q2Qc 3)%Qc
  ∧ (∃ x y,
        @getRainIndication example_host (VNum (Finite (Q2Qc (1 # 20))))
          = VNum (Finite x)
        ∧ @getRainIndication example_host (VNum (Finite (Q2Qc 3)))
          = VNum (Finite y)
        ∧ (x ≤ y)%Qc)
  ∧ (@getRainIndication example_host (VStr "veel") = VBool false
     ↔ @ToNumber example_host (VStr "veel") = NaN)
  ∧ @getRainIndication example_host (VStr "veel") = VBool false.
Proof.
  assert (H0 : (0 ≤ Q2Qc (1 # 20))%Qc) by (by vm_compute).
  assert (H1 : (Q2Qc (1 # 20) ≤ Q2Qc 3)%Qc) by (by vm_compute).
  destruct (@getRainIndication_ladder example_host _ _ (VStr "veel") H0 H1)
    as (_ & Hmono & _ & Hnan & _).
  exact (conj H0 (conj H1 (conj Hmono (conj Hnan (proj2 Hnan eq_refl))))).
Defined.

(** C8, on the code.  null, the empty string and true are no
    numbers, and getRainIndication does not return false for them: it
    returns the indicators of 0, 0 and 1. *)
Lemma getRainIndication_classifies_non_numbers :
  is_number VNull = false
  ∧ @getRainIndication example_host VNull = VNum Indicators.NO_RAIN
  ∧ @getRainIndication example_host VNull ≠ VBool false
  ∧ @getRainIndication example_host (VStr "") ≠ VBool false
  ∧ @getRainIndication example_host (VBool true) ≠ VBool false.
Proof. by vm_compute. Qed.

(** Inputs that are no numbers but have a numeric value are classified
    by it: null, the empty string and false count as 0, true as 1.
    Those without one (undefined, NaN, a word) yield false, and so does
    an unparsed amount that is no number. *)
Example getRainIndication_coerces :
  @getRainIndication example_host VNull = VNum Indicators.NO_RAIN
  ∧ @getRainIndication example_host (VStr "") = VNum Indicators.NO_RAIN
  ∧ @getRainIndication example_host (VStr "12") = VNum Indicators.HEAVY_RAIN
  ∧ @getRainIndication example_host (VBool true) = VNum Indicators.LIGHT_RAIN
  ∧ @getRainIndication example_host (VNum PosInf) = VNum Indicators.VIOLENT_RAIN
  ∧ @getRainIndication example_host VUndefined = VBool false
  ∧ @getRainIndication example_host (VNum NaN) = VBool false
  ∧ @getRainIndication example_host (VStr "veel") = VBool false.
Proof. by vm_compute. Qed.

(** ** The rain text *)

Lemma tokens_empty : RainText.tokens "" = [].
Proof. reflexivity. Qed.

Lemma truthy_string_tokens (data : string) :
  truthy (VStr data) = false → RainText.tokens data = [].
Proof.
  cbn. destruct data; [reflexivity | discriminate].
Qed.

Lemma span_app p s a b : RainText.span p s = (a, b) → s = a ++ b.
Proof.
  revert a b. induction s as [| c s IH]; intros a b; cbn.
  - by intros [= <- <-].
  - destruct (p c).
    + destruct (RainText.span p s) as [a' b'] eqn:E. intros [= <- <-].
      cbn. f_equal. by apply IH.
    + by intros [= <- <-].
Qed.

Lemma span_all p s a b : RainText.span p s = (a, b) → forallb p a = true.
Proof.
  revert a b. induction s as [| c s IH]; intros a b; cbn.
  - by intros [= <- <-].
  - destruct (p c) eqn:Hc.
    + destruct (RainText.span p s) as [a' b'] eqn:E. intros [= <- <-].
      cbn. rewrite Hc. by eapply IH.
    + by intros [= <- <-].
Qed.

Lemma span_stops p s a b :
  RainText.span p s = (a, b) → match b with c :: _ => p c = false | [] => True end.
Proof.
  revert a b. induction s as [| c s IH]; intros a b; cbn.
  - by intros [= <- <-].
  - destruct (p c) eqn:Hc.
    + destruct (RainText.span p s) as [a' b'] eqn:E. intros [= <- <-].
      by eapply IH.
    + by intros [= <- <-].
Qed.

(** A match of the pattern at the head of the text is what the regular
    expression describes: digits, the pipe, then digits and colons up to
    the first character that is neither. *)
Lemma match_here_shape s value time rest :
  RainText.match_here s = Some (value, time, rest) →
  s = value ++ "|"%char :: time ++ rest
  ∧ forallb RainText.is_digit value = true
  ∧ forallb RainText.is_time_char time = true
  ∧ match rest with c :: _ => RainText.is_time_char c = false | [] => True end.
Proof.
  unfold RainText.match_here.
  destruct (RainText.span RainText.is_digit s) as [v r] eqn:Hv.
  destruct r as [| c r]; [done |].
  destruct (RainText.is_pipe c) eqn:Hc; [| done].
  destruct (RainText.span RainText.is_time_char r) as [t r'] eqn:Ht.
  intros [= <- <- <-].
  apply Ascii.eqb_eq in Hc. subst c.
  rewrite (span_app _ _ _ _ Hv), (span_app _ _ _ _ Ht).
  repeat split; [by eapply span_all | by eapply span_all | by eapply span_stops].
Qed.

Lemma match_here_shorter s value time rest :
  RainText.match_here s = Some (value, time, rest) →
  (length rest < length s)%nat.
Proof.
  intros Hm. apply match_here_shape in Hm as (-> & _).
  rewrite length_app. cbn. rewrite length_app. lia.
Qed.

(** The fuel of [tokens] is enough: the search ends at the end of the
    text, and more fuel finds nothing more. *)
Lemma exec_all_enough_fuel fuel : ∀ s extra,
  (length s < fuel)%nat →
  RainText.exec_all (fuel + extra) s = RainText.exec_all fuel s.
Proof.
  induction fuel as [| fuel IH]; intros s extra Hlen; [lia |].
  change (S fuel + extra)%nat with (S (fuel + extra)). cbn.
  destruct (RainText.match_here s) as [[[v t] rest] |] eqn:Hm.
  - f_equal. apply IH. apply match_here_shorter in Hm. lia.
  - destruct s as [| c s]; [done |]. apply IH. cbn in Hlen. lia.
Qed.

(** Every match captures digits as its value, and digits and colons as
    its time. *)
Lemma exec_all_tokens_ok fuel : ∀ s, Forall token_ok (RainText.exec_all fuel s).
Proof.
  induction fuel as [| fuel IH]; intros s; cbn; [constructor |].
  destruct (RainText.match_here s) as [[[v t] rest] |] eqn:Hm.
  - apply match_here_shape in Hm as (_ & Hv & Ht & _).
    constructor; [| apply IH].
    split; cbn; by rewrite list_ascii_of_string_of_list_ascii.
  - destruct s; [constructor | apply IH].
Qed.

(** ** Decimal digits *)

Lemma list_ascii_of_string_app (a b : string) :
  list_ascii_of_string (a +:+ b) = list_ascii_of_string a ++ list_ascii_of_string b.
Proof.
  induction a as [| c a IH]; [done |].
  change (c :: list_ascii_of_string (a +:+ b)
          = c :: (list_ascii_of_string a ++ list_ascii_of_string b)).
  by rewrite IH.
Qed.

Lemma digit_value_pretty (d : N) :
  (d < 10)%N → RainText.digit_value (pretty_N_char d) = Z.of_N d.
Proof.
  intros Hd.
  assert (d = 0 ∨ d = 1 ∨ d = 2 ∨ d = 3 ∨ d = 4 ∨ d = 5 ∨ d = 6 ∨ d = 7
          ∨ d = 8 ∨ d = 9)%N as Hcases by lia.
  repeat (destruct Hcases as [-> | Hcases]; [reflexivity |]). by subst.
Qed.

(** Reading the digits that [pretty] writes in front of a text gives
    what reading the text gives when started from the number written. *)
Lemma digits_of_pretty_go (x : N) : ∀ s,
  fold_left (λ acc c, 10 * acc + RainText.digit_value c)
    (list_ascii_of_string (pretty_N_go x s)) 0
  = fold_left (λ acc c, 10 * acc + RainText.digit_value c)
      (list_ascii_of_string s) (Z.of_N x).
Proof.
  induction (N.lt_wf_0 x) as [x _ IH]. intros s.
  destruct (decide (x = 0%N)) as [-> | Hx]; [by rewrite pretty_N_go_0 |].
  rewrite pretty_N_go_step by lia.
  rewrite IH by (apply N.div_lt; lia).
  cbn [list_ascii_of_string fold_left]. f_equal.
  rewrite digit_value_pretty by (apply N.mod_lt; lia).
  rewrite (N.div_mod x 10) at 3 by lia. lia.
Qed.

Lemma digits_of_pretty (n : N) : RainText.Number_of_digits (pretty n) = Z.of_N n.
Proof.
  unfold RainText.Number_of_digits, RainText.digits_to_Z, pretty, pretty_N.
  destruct (decide (n = 0%N)) as [-> | Hn]; [reflexivity |].
  by rewrite digits_of_pretty_go.
Qed.

Lemma digits_of_zeros (k : nat) (l : list ascii) :
  RainText.digits_to_Z (replicate k "0"%char ++ l) = RainText.digits_to_Z l.
Proof.
  unfold RainText.digits_to_Z. rewrite fold_left_app. f_equal.
  induction k as [| k IH]; [done |]. cbn. exact IH.
Qed.

(** A capture that reads n coerces to n. *)
Lemma reads_digits (value : string) (n : N) :
  reads value n → RainText.Number_of_digits value = Z.of_N n.
Proof.
  intros [[-> ->] | [k ->]]; [reflexivity |].
  unfold RainText.Number_of_digits, zeros.
  rewrite list_ascii_of_string_app, list_ascii_of_string_of_list_ascii.
  rewrite digits_of_zeros. apply digits_of_pretty.
Qed.

Lemma string_app_assoc (a b c : string) : (a +:+ b) +:+ c = a +:+ (b +:+ c).
Proof.
  induction a as [| x a IH]; [done |].
  change (String x ((a +:+ b) +:+ c) = String x (a +:+ (b +:+ c))).
  by rewrite IH.
Qed.

Lemma pretty_N_go_app (x : N) : ∀ s, pretty_N_go x s = pretty_N_go x "" +:+ s.
Proof.
  induction (N.lt_wf_0 x) as [x _ IH]. intros s.
  destruct (decide (x = 0%N)) as [-> | Hx]; [by rewrite !pretty_N_go_0 |].
  rewrite !(pretty_N_go_step x) by lia.
  rewrite (IH (x `div` 10)%N) by (apply N.div_lt; lia).
  rewrite (IH (x `div` 10)%N ltac:(apply N.div_lt; lia) (String _ "")).
  by rewrite string_app_assoc.
Qed.

Lemma pretty_snoc (n d : N) :
  (0 < n)%N → (d < 10)%N →
  pretty (10 * n + d)%N = pretty n +:+ String (pretty_N_char d) "".
Proof.
  intros Hn Hd. unfold pretty, pretty_N.
  destruct (decide (10 * n + d = 0)%N); [lia |].
  destruct (decide (n = 0)%N); [lia |].
  rewrite pretty_N_go_step by lia.
  replace ((10 * n + d) `div` 10)%N with n
    by (apply (N.div_unique _ 10 n d); lia).
  replace ((10 * n + d) `mod` 10)%N with d
    by (apply (N.mod_unique _ 10 n d); lia).
  apply pretty_N_go_app.
Qed.

Lemma digit_char (c : ascii) :
  RainText.is_digit c = true → ∃ d, (d < 10)%N ∧ c = pretty_N_char d.
Proof.
  intros Hc.
  assert (Hn : (48 ≤ nat_of_ascii c ≤ 57)%nat).
  { unfold RainText.is_digit in Hc. apply andb_true_iff in Hc as [H1 H2].
    apply Nat.leb_le in H1, H2. lia. }
  exists (N.of_nat (nat_of_ascii c - 48)). split; [lia |].
  rewrite <- (ascii_nat_embedding c) at 1.
  assert (Hcases : ∃ k, (k < 10)%nat ∧ nat_of_ascii c = (48 + k)%nat)
    by (exists (nat_of_ascii c - 48)%nat; lia).
  destruct Hcases as (k & Hk & ->).
  do 10 (destruct k as [| k]; [reflexivity |]). lia.
Qed.

Lemma pretty_digit (d : N) : (d < 10)%N → pretty d = String (pretty_N_char d) "".
Proof.
  intros Hd.
  assert (d = 0 ∨ d = 1 ∨ d = 2 ∨ d = 3 ∨ d = 4 ∨ d = 5 ∨ d = 6 ∨ d = 7
          ∨ d = 8 ∨ d = 9)%N as Hcases by lia.
  repeat (destruct Hcases as [-> | Hcases]; [reflexivity |]). by subst.
Qed.

Lemma zeros_snoc (k : nat) : zeros k +:+ "0" = zeros (S k).
Proof.
  unfold zeros. induction k as [| k IH]; [done |].
  change (String "0" (string_of_list_ascii (replicate k "0"%char) +:+ "0")
          = String "0" (string_of_list_ascii (replicate (S k) "0"%char))).
  by rewrite IH.
Qed.

(** Every run of digits reads as a number. *)
Lemma digits_read (l : list ascii) :
  forallb RainText.is_digit l = true → ∃ n, reads (string_of_list_ascii l) n.
Proof.
  induction l as [| c l IH] using rev_ind; intros Hl.
  - exists 0%N. by left.
  - rewrite forallb_app in Hl. apply andb_true_iff in Hl as [Hl Hc].
    cbn in Hc. rewrite andb_true_r in Hc.
    destruct (digit_char c Hc) as (d & Hd & ->).
    assert (Happ : string_of_list_ascii (l ++ [pretty_N_char d])
                   = string_of_list_ascii l +:+ String (pretty_N_char d) "").
    { clear. induction l as [| x l IH]; [done |].
      change (String x (string_of_list_ascii (l ++ [pretty_N_char d]))
              = String x (string_of_list_ascii l +:+ String (pretty_N_char d) "")).
      by rewrite IH. }
    rewrite Happ.
    destruct (IH Hl) as [n [[-> ->] | [k ->]]].
    + exists d. right. exists 0%nat. by rewrite pretty_digit.
    + destruct (decide (n = 0%N)) as [-> | Hn].
      * exists d. right. exists (S k).
        change (pretty 0%N) with "0"%string. rewrite zeros_snoc.
        by rewrite pretty_digit.
      * exists (10 * n + d)%N. right. exists k.
        rewrite pretty_snoc by lia. by rewrite string_app_assoc.
Qed.

Lemma reads_complete (value : string) :
  forallb RainText.is_digit (list_ascii_of_string value) = true →
  ∃ n, reads value n.
Proof.
  intros Hv. rewrite <- (string_of_list_ascii_of_string value). by apply digits_read.
Qed.

(** ** The parser *)

Section ParserFacts.
Context `{Host}.

(** Below 2^53 the exponent (value - 109) / 32 is computed without
    rounding. *)
Lemma amount_of_small (value : string) (n : N) :
  reads value n → (n < 2 ^ 53)%N →
  amount_of value = round2 (Math_pow10 (Q2Qc ((Z.of_N n - 109) # 32))).
Proof.
  intros Hreads Hn. unfold amount_of, RainText.digits_number.
  rewrite (reads_digits _ _ Hreads).
  assert (Hz : 0 ≤ Z.of_N n < 2 ^ 53).
  { split; [lia |]. change (2 ^ 53) with (Z.of_N (2 ^ 53)). lia. }
  rewrite binary64_Z by lia. unfold num_minus.
  assert (E1 : (this (Q2Qc (inject_Z (Z.of_N n))) - this (Q2Qc 109)
                == inject_Z (Z.of_N n - 109))%Q).
  { cbn [this Q2Qc]. rewrite !Qred_correct.
    unfold Qeq, Qminus, Qplus, Qopp, inject_Z. cbn. lia. }
  rewrite (binary64_proper _ _ E1), binary64_Z by lia. unfold num_div.
  assert (E2 : (this (Q2Qc (inject_Z (Z.of_N n - 109))) / this (Q2Qc 32)
                == (Z.of_N n - 109) # 32)%Q).
  { cbn [this Q2Qc]. rewrite !Qred_correct.
    unfold Qeq, Qdiv, Qmult, Qinv, inject_Z. cbn. lia. }
  rewrite (binary64_proper _ _ E2).
  rewrite (binary64_exact _ (Z.of_N n - 109) (-5)); [reflexivity | | lia | lia].
  change (pow2 (-5)) with (1 # 32)%Q.
  unfold Qeq, Qmult, inject_Z. cbn. lia.
Qed.

Lemma fold_on_match_following nd dn toks acc p :
  (fold_left (on_match nd dn) toks (acc, Some p)).1 = acc ++ following p toks.
Proof.
  revert acc p. induction toks as [| [v t] rest IH]; intros acc p; cbn.
  - by rewrite app_nil_r.
  - rewrite IH. by rewrite <- app_assoc.
Qed.

Lemma parse_tokens nd dn data v t rest :
  RainText.tokens data = (v, t) :: rest →
  parse nd dn data =
    {| value := v; amount := amount_of v; time := first_time nd dn t;
       indication := getRainIndication (VNum (amount_of v)) |}
      :: following (first_time nd dn t) rest.
Proof.
  intros Htok. unfold parse.
  destruct (truthy (VStr data)) eqn:Ht.
  - rewrite Htok. cbn. by rewrite fold_on_match_following.
  - apply truthy_string_tokens in Ht. congruence.
Qed.

Lemma following_length p toks : length (following p toks) = length toks.
Proof.
  revert p. induction toks as [| [v t] rest IH]; intros p; cbn; [done |].
  by rewrite IH.
Qed.

Lemma following_values p toks i s tok :
  following p toks !! i = Some s → toks !! i = Some tok →
  value s = tok.1 ∧ amount s = amount_of tok.1.
Proof.
  revert p i. induction toks as [| [v t] rest IH]; intros p i; [done |].
  destruct i as [| i]; cbn.
  - intros [= <-] [= <-]. done.
  - apply IH.
Qed.

Lemma following_head p toks s :
  following p toks !! 0%nat = Some s →
  time s = Date.of_time ((λ t, t + 300 * 1000) <$> p).
Proof. destruct toks as [| [v t] rest]; [done |]. by intros [= <-]. Qed.

Lemma following_spacing p toks i s s' :
  following p toks !! i = Some s → following p toks !! S i = Some s' →
  time s' = Date.of_time ((λ t, t + 300 * 1000) <$> time s).
Proof.
  revert p i. induction toks as [| [v t] rest IH]; intros p i; [done |].
  destruct i as [| i]; cbn.
  - intros [= <-] Hs'. cbn. by apply following_head in Hs'.
  - apply IH.
Qed.

Lemma of_time_step (p : option Z) (t' : Z) :
  Date.of_time ((λ t, t + 300 * 1000) <$> p) = Some t' →
  ∃ t, p = Some t ∧ t' = t + 300000.
Proof.
  destruct p as [t |]; cbn; [| done].
  unfold Date.TimeClip. case (Z.abs _ <=? _); [| done].
  intros [= <-]. eauto.
Qed.

(** C7.  When the raw text holds two matches of the pattern or more,
    the handler of getRainData resolves with one sample per match, in
    order, the i-th carrying the value of the i-th match; every value
    reads as a number n in decimal.  Where n is below 2^53 and
    Math.pow(10, (n - 109) / 32) is a finite p, the amount is the double
    written c/100 for an integer c within a half of 100 p, up to the
    rounding of the product (p / 2^46, and 2^-1075 near zero): p rounded
    to two decimals in double arithmetic; a power that is infinite or NaN
    is the amount as it is.  Each sample after the first is dated
    new Date(previous + 300000), so a valid date is exactly five minutes
    after the date before it, and the time field of its own match plays
    no part. *)
Theorem getRainData_samples (new_Date Date_now : Z) (data : string) (w : world) :
  (2 ≤ length (RainText.tokens data))%nat →
  ∃ samples,
    (getRainData_then new_Date Date_now data w).2 = Resolved samples
    ∧ length samples = length (RainText.tokens data)
    ∧ (∀ i s tok,
         samples !! i = Some s → RainText.tokens data !! i = Some tok →
         value s = tok.1
         ∧ (∃ n, reads (value s) n)
         ∧ ∀ n : N,
             reads (value s) n → (n < 2 ^ 53)%N →
             match Math_pow10 (Q2Qc ((Z.of_N n - 109) # 32)) with
             | Finite p =>
                 (Qabs (this p) <= pow2 1016)%Q →
                 ∃ c : Z,
                   amount s = double c 100
                   ∧ (Qabs (inject_Z c - 100 * this p)
                      <= (1 # 2) + Qabs (this p) * pow2 (-46) + pow2 (-1075))%Q
             | p => amount s = p
             end)
    ∧ (∀ i s s',
         samples !! i = Some s → samples !! S i = Some s' →
         time s' = Date.of_time ((λ t, t + 300 * 1000) <$> time s)
         ∧ ∀ t', time s' = Some t' →
                 ∃ t, time s = Some t ∧ t' = t + 300000).
Proof.
  intros Hn.
  destruct (RainText.tokens data) as [| [v t] rest] eqn:Htok; [cbn in Hn; lia |].
  pose proof (parse_tokens new_Date Date_now data v t rest Htok) as Hparse.
  set (first := {| value := v; amount := amount_of v;
                   time := first_time new_Date Date_now t;
                   indication := getRainIndication (VNum (amount_of v)) |}) in *.
  assert (Hlen : length (parse new_Date Date_now data) = S (length rest))
    by (rewrite Hparse; cbn; by rewrite following_length).
  exists (parse new_Date Date_now data). split; [| split; [| split]].
  - unfold getRainData_then.
    assert (Hgt : (1 <? length (parse new_Date Date_now data))%nat = true)
      by (apply Nat.ltb_lt; rewrite Hlen; cbn in Hn; lia).
    rewrite Hgt.
    destruct (truthy (requestCacheTimeout (self w))); reflexivity.
  - by rewrite Hlen.
  - intros i s tok Hs Htk.
    assert (Hsample : value s = tok.1 ∧ amount s = amount_of (value s)).
    { rewrite Hparse in Hs. destruct i as [| i]; cbn in Hs, Htk.
      - injection Hs as <-. injection Htk as <-. done.
      - destruct (following_values _ _ _ _ _ Hs Htk) as [Hv Ha].
        split; [done |]. by rewrite Hv. }
    destruct Hsample as [Hv Ha]. split; [done |]. split.
    { apply reads_complete. rewrite Hv.
      pose proof (exec_all_tokens_ok
                    (S (length (list_ascii_of_string data)))
                    (list_ascii_of_string data)) as Hall.
      fold (RainText.tokens data) in Hall. rewrite Htok in Hall.
      rewrite Forall_forall in Hall.
      by apply (Hall tok (list_elem_of_lookup_2 _ _ _ Htk)). }
    intros n Hreads Hsmall. rewrite Ha, (amount_of_small _ _ Hreads Hsmall).
    destruct (Math_pow10 _) as [p | | |]; [| reflexivity ..].
    apply round2_hundredths.
  - intros i s s'. rewrite Hparse. intros Hs Hs'.
    assert (Hstep : time s' = Date.of_time ((λ t, t + 300 * 1000) <$> time s)).
    { destruct i as [| i]; cbn in Hs, Hs'.
      - injection Hs as <-. cbn. by apply following_head in Hs'.
      - by apply (following_spacing _ _ _ _ _ Hs Hs'). }
    split; [done |]. intros t' Ht'. rewrite Hstep in Ht'.
    by apply of_time_step.
Qed.

End ParserFacts.

Lemma getRainData_samples_witness :
  (2 ≤ length (RainText.tokens example_text))%nat
  ∧ ∃ samples,
      (@getRainData_then example_host 52320000 52320000 example_text
         (initial example_object)).2 = Resolved samples
      ∧ length samples = 3%nat
      ∧ map value samples = ["077"; "109"; "141"]%string
      ∧ map (λ s, num_eq (amount s.1) s.2)
            (zip samples [double 10 100; double 100 100; double 1000 100])
        = [true; true; true]
      ∧ map time samples = [Some 52200000; Some 52500000; Some 52800000].
Proof.
  assert (Hn : (2 ≤ length (RainText.tokens example_text))%nat)
    by (vm_compute; lia).
  destruct (@getRainData_samples example_host 52320000 52320000 example_text
              (initial example_object) Hn) as (samples & Hr & Hl & _).
  refine (conj Hn (ex_intro _ samples (conj Hr _))).
  assert (Hparsed : samples = @parse example_host 52320000 52320000 example_text)
    by (vm_compute in Hr; injection Hr as <-; by vm_compute).
  rewrite Hparsed. by vm_compute.
Defined.

(** The example of the specification: parsed at 14:32 on day 0, the
    three samples are dated 14:30, 14:35 and 14:40 of that day. *)
Example parse_example :
  let samples := @parse example_host 52320000 52320000 example_text in
  map (λ s, (value s, time s)) samples
    = [ ("077"%string, Some 52200000); ("109"%string, Some 52500000);
        ("141"%string, Some 52800000) ]
  ∧ map (λ s, num_eq (amount s.1) s.2)
        (zip samples [double 1 10; num 1; num 10]) = [true; true; true].
Proof. by vm_compute. Qed.

Section FirstTime.
Context `{Host}.

(** What the guard of the first token does: the date moves a day on
    exactly when it lies more than twelve hours after the clock. *)
Lemma first_time_guard nd dn time t :
  Date.setHours nd
    (map RainText.digits_to_Z (RainText.split_colon (list_ascii_of_string time))
       ++ [0]) = Some t →
  first_time nd dn time =
    if 43200000 <? t - dn then Date.TimeClip (t + 86400000) else Some t.
Proof. intros Ht. unfold first_time. by rewrite Ht. Qed.

(** A first timestamp that is not after the clock stays where it is,
    however far in the past it lies. *)
Lemma first_time_past nd dn time t :
  Date.setHours nd
    (map RainText.digits_to_Z (RainText.split_colon (list_ascii_of_string time))
       ++ [0]) = Some t →
  t ≤ dn → first_time nd dn time = Some t.
Proof.
  intros Ht Hle. rewrite (first_time_guard _ _ _ _ Ht).
  destruct (43200000 <? t - dn) eqn:E; [apply Z.ltb_lt in E; lia | done].
Qed.

End FirstTime.

(** C1, on the code.  Parsed at 23:50:00.000 of day 0 (85 800 000 ms,
    local zone UTC), a text whose first sample reads 00:05 gets its
    first sample dated 00:05 of day 0 (300 000 ms): 23 h 45 min before
    the clock, and not 00:05 of day 1 (86 700 000 ms). *)
Theorem first_sample_not_rolled_forward :
  let now := 85800000 in
  let samples := @parse example_host now now "000|00:05
000|00:10" in
  map time samples = [Some 300000; Some 600000]
  ∧ 12 * 3600 * 1000 < now - 300000
  ∧ head (map time samples) ≠ Some (Some (300000 + 24 * 3600 * 1000)).
Proof. by vm_compute. Qed.

(** The guard fires the other way round: a first sample more than
    twelve hours ahead of the clock is moved one day further ahead. *)
Example first_sample_rolled_when_ahead :
  map time (@parse example_host 300000 300000 "000|23:05
000|23:10") = [Some (83100000 + 86400000); Some (83400000 + 86400000)].
Proof. by vm_compute. Qed.

(** ** The race *)

Lemma on_reply_counter_zero urlList body r :
  urlList ≠ [] →
  Race.on_reply 0 urlList body = Some r → ∃ b, r = Resolved b.
Proof.
  intros Hne. unfold Race.on_reply.
  assert (Hz : (0 =? length urlList)%nat = false)
    by (destruct urlList; [done | reflexivity]).
  rewrite Hz. destruct body as [b |]; [| done].
  case (truthy (VStr b) && RainText.matches b); [| done].
  intros [= <-]. eauto.
Qed.

Lemma race_never_reports_no_data urlList trace :
  urlList ≠ [] →
  Race.race 0 urlList trace ≠ Some (Rejected NoUrlReceivedRainData).
Proof.
  intros Hne. induction trace as [| [index err body |] trace IH]; cbn; [done | | done].
  destruct (Race.on_reply 0 urlList body) as [r |] eqn:E; [| done].
  destruct (on_reply_counter_zero _ _ _ Hne E) as [b ->]. done.
Qed.

(** C5, on the code.  Both endpoints answer and neither body matches
    the pattern: the promise of getRawRainData is still pending after the
    second answer, and only the timer settles it, with 'timeout'.  No
    trace of events at all makes it reject with 'No url received rain
    data': the counter that the callback compares with the number of
    urls stays 0. *)
Theorem replies_without_rain_data_wait_for_timeout :
  let replies := [ Race.Reply 0 VNull (Some "no data"%string);
                   Race.Reply 1 VNull (Some ""%string) ] in
  Race.getRawRainData example_object replies = None
  ∧ Race.getRawRainData example_object (replies ++ [Race.TimerFires])
      = Some (Rejected Timeout)
  ∧ ∀ b trace,
      Race.getRawRainData b trace ≠ Some (Rejected NoUrlReceivedRainData).
Proof.
  split; [by vm_compute | split; [by vm_compute |]].
  intros b trace. unfold Race.getRawRainData.
  case (negb (truthy (VNum (lat b))) || negb (truthy (VNum (lon b)))); [done |].
  by apply race_never_reports_no_data.
Qed.

(** ** Coordinates *)

Lemma strict_eq_zero_falsy (v : jsval) :
  strict_eq v (VNum (num 0)) = true → truthy v = false.
Proof.
  destruct v as [| | b | [q | | |] | s | t | l | f]; cbn; try done.
  unfold Qc_eqb. intros Hq. apply bool_decide_eq_true in Hq. subst q.
  reflexivity.
Qed.

Section Coordinates.
Context `{Host}.

(** C9.  A config whose lat or lon is 0 makes the constructor return
    its Error, and an object whose lat or lon is 0 makes getRawRainData
    reject with the location error, before any request is made. *)
Theorem zero_coordinates_count_as_absent
    (config : jsval) (b : Buienradar) (trace : list Race.event) :
  strict_eq (get config "lat") (VNum (num 0)) = true
  ∨ strict_eq (get config "lon") (VNum (num 0)) = true →
  num_eq (lat b) (num 0) = true ∨ num_eq (lon b) (num 0) = true →
  Buienradar_new config = inr InitError
  ∧ Race.getRawRainData b trace = Some (Rejected LocationNotSet).
Proof.
  intros Hc Hb. split.
  - unfold Buienradar_new.
    destruct Hc as [Hc | Hc]; apply strict_eq_zero_falsy in Hc; rewrite Hc;
      cbn; by rewrite ?orb_true_r.
  - unfold Race.getRawRainData.
    destruct Hb as [Hb | Hb];
      apply (strict_eq_zero_falsy (VNum _)) in Hb; rewrite Hb;
      cbn; by rewrite ?orb_true_r.
Qed.

End Coordinates.

Lemma zero_coordinates_count_as_absent_witness :
  (strict_eq (get equator_config "lat") (VNum (num 0)) = true
   ∨ strict_eq (get equator_config "lon") (VNum (num 0)) = true)
  ∧ (num_eq (lat near_equator_object) (num 0) = true
     ∨ num_eq (lon near_equator_object) (num 0) = true)
  ∧ @Buienradar_new example_host equator_config = inr InitError
  ∧ Race.getRawRainData near_equator_object [] = Some (Rejected LocationNotSet).
Proof.
  assert (Hc : strict_eq (get equator_config "lat") (VNum (num 0)) = true
               ∨ strict_eq (get equator_config "lon") (VNum (num 0)) = true)
    by (left; by vm_compute).
  assert (Hb : num_eq (lat near_equator_object) (num 0) = true
               ∨ num_eq (lon near_equator_object) (num 0) = true)
    by (left; by vm_compute).
  exact (conj Hc (conj Hb
    (@zero_coordinates_count_as_absent example_host equator_config
       near_equator_object [] Hc Hb))).
Defined.

(** ** The feed fetch *)

Lemma http_is_unbound :
  Scope.bound "http" Scope.visible_in_getRawFeedData = false.
Proof. reflexivity. Qed.

Lemma getRawFeedData_rejects transport :
  getRawFeedData transport = Rejected (ReferenceError "http").
Proof. unfold getRawFeedData. by rewrite http_is_unbound. Qed.

Section FeedFacts.
Context `{Host}.

Lemma getFeedData_fresh w :
  feedDataCache w = None →
  getFeedData w =
    (set_feedDataCache (Some (length (feed_promises w)))
       (set_feed_promises (feed_promises w ++ [Pending]) w),
     length (feed_promises w)).
Proof. intros Hc. unfold getFeedData. by rewrite Hc. Qed.

(** C4.  Whatever the transport would deliver, getRawFeedData rejects
    with the ReferenceError for http; so a getFeedData that has nothing
    cached returns a promise that rejects with it, and the promises that
    getNearestWeatherStationData, getWeatherForecast and getCurrentWeather
    chain to it reject as well. *)
Theorem feed_fetch_always_fails
    (transport : promise string) (requireParams : option (list string))
    (w : world) :
  feedDataCache w = None →
  getRawFeedData transport = Rejected (ReferenceError "http")
  ∧ ∃ r,
      (let '(w1, p) := getFeedData w in
       feed_result (getFeedData_settle p (getRawFeedData transport) w1) p)
        = Some r
      ∧ r = Rejected (ReferenceError "http")
      ∧ and_then r (λ data,
          (getNearestWeatherStationData_then requireParams data w).2)
          = Rejected (ReferenceError "http")
      ∧ and_then r (λ data, (getWeatherForecast_then data).2)
          = Rejected (ReferenceError "http")
      ∧ and_then r getCurrentWeather_then = Rejected (ReferenceError "http").
Proof.
  intros Hc. split; [apply getRawFeedData_rejects |].
  exists (Rejected (ReferenceError "http")).
  split; [| by repeat split].
  rewrite (getFeedData_fresh _ Hc), getRawFeedData_rejects.
  unfold getFeedData_settle, settle, feed_result. cbn.
  rewrite list_lookup_insert_eq; [done |].
  rewrite length_app. cbn. lia.
Qed.

End FeedFacts.

Lemma feed_fetch_always_fails_witness :
  feedDataCache (initial example_object) = None
  ∧ getRawFeedData (Resolved "<buienradarnl/>"%string)
      = Rejected (ReferenceError "http")
  ∧ ∃ r,
      (let '(w1, p) := getFeedData (initial example_object) in
       feed_result
         (@getFeedData_settle example_host p
            (getRawFeedData (Resolved "<buienradarnl/>"%string)) w1) p)
        = Some r
      ∧ r = Rejected (ReferenceError "http").
Proof.
  assert (Hc : feedDataCache (initial example_object) = None) by reflexivity.
  destruct (@feed_fetch_always_fails example_host
              (Resolved "<buienradarnl/>"%string) None
              (initial example_object) Hc) as (Hraw & r & Hr & Hrej & _).
  exact (conj Hc (conj Hraw (ex_intro _ r (conj Hr Hrej)))).
Defined.

(** ** Changing the location *)

Section LocationFacts.
Context `{Host}.

Lemma resetCache_self w : self (resetCache w) = self w.
Proof. reflexivity. Qed.

Lemma checkLocationChange_rainData w :
  rainData (self (checkLocationChange w)) = rainData (self w).
Proof. unfold checkLocationChange. by case (same_location (self w)). Qed.

Lemma checkLocationChange_timeout w :
  requestCacheTimeout (self (checkLocationChange w)) = requestCacheTimeout (self w).
Proof. unfold checkLocationChange. by case (same_location (self w)). Qed.

Lemma checkLocationChange_requests w :
  rain_requests (checkLocationChange w) = rain_requests w.
Proof. unfold checkLocationChange. by case (same_location (self w)). Qed.

Lemma setLatLon_inv lat lon w w' :
  setLatLon lat lon w = inl w' →
  ∃ la lo, w' = resetCache (with_self (set_location la lo) w).
Proof.
  unfold setLatLon.
  destruct (negb (truthy lon) && truthy lat && truthy (get lat "lat"));
    (match goal with |- context [isNaN ?a || isNaN ?b] =>
       case (isNaN a || isNaN b) end; [done |]);
    intros [= <-]; eauto.
Qed.

(** What setLatLon leaves in place: this.rainData, the only variable
    getRainData reads its cache from.  After any accepted setLatLon the
    next getRainData(false) still answers from it, without a fetch. *)
Lemma setLatLon_keeps_rain_cache lat lon w w' data :
  setLatLon lat lon w = inl w' →
  rainData (self w) = Some data →
  truthy (requestCacheTimeout (self w)) = true →
  (getRainData false w').2 = ServedFromCache data
  ∧ rain_requests (getRainData false w').1 = rain_requests w.
Proof.
  intros Hset Hdata Httl.
  destruct (setLatLon_inv _ _ _ _ Hset) as (la & lo & ->).
  unfold getRainData.
  rewrite checkLocationChange_rainData, checkLocationChange_timeout. cbn.
  rewrite Hdata, Httl. cbn. split; [done |].
  by rewrite checkLocationChange_requests.
Qed.

(** What setLatLon does clear: the memoized station id, so that the
    next lookup without requireParams scans again; and the coordinates
    it stores are the rounded ones. *)
Lemma setLatLon_clears_station_memo lat lon w w' :
  setLatLon lat lon w = inl w' →
  nearestWeatherStationId w' = VNull
  ∧ rainDataCache w' = VNull
  ∧ path_of None (checkLocationChange w') = ScanAndMemoize.
Proof.
  intros Hset. destruct (setLatLon_inv _ _ _ _ Hset) as (la & lo & ->).
  repeat split. unfold checkLocationChange.
  by case (same_location _).
Qed.

Lemma setLatLon_rounds (la lo : number) w :
  num_isNaN la = false → num_isNaN lo = false → truthy (VNum lo) = true →
  ∃ w', setLatLon (VNum la) (VNum lo) w = inl w'
        ∧ lat (self w') = round2 la ∧ lon (self w') = round2 lo.
Proof.
  intros Hla Hlo Ht. unfold setLatLon. rewrite Ht. cbn.
  unfold isNaN. cbn. rewrite Hla, Hlo. cbn. eauto.
Qed.

End LocationFacts.

(** C2, on the code.  An object at (52.22, 6.89) fetches rain data and
    caches the three samples; setLatLon(51.5, 4.5) is accepted and
    stores the new coordinates; the next getRainData() makes no request
    and returns the samples cached for the old location. *)
Theorem setLatLon_then_getRainData_serves_old_cache :
  let w0 := initial example_object in
  let w1 := (getRainData false w0).1 in
  let '(w2, fetched) :=
    @getRainData_settle example_host 52320000 52320000 (Resolved example_text) w1 in
  ∃ samples w3,
    fetched = Resolved samples
    ∧ length samples = 3%nat
    ∧ @setLatLon example_host (VNum (dec 515 10)) (VNum (dec 45 10)) w2 = inl w3
    ∧ num_eq (lat (self w3)) (dec 515 10) = true
    ∧ num_eq (lon (self w3)) (dec 45 10) = true
    ∧ (getRainData false w3).2 = ServedFromCache samples
    ∧ rain_requests (getRainData false w3).1 = rain_requests w2.
Proof.
  vm_compute. eexists _, _. repeat split.
Qed.

(** ** The nearest station *)

Section StationFacts.
Context `{Host}.

Lemma member_readable ws key v :
  member ws key = inl v → nullish ws = false ∧ v = get ws key.
Proof. destruct ws; cbn; by intros [= <-]. Qed.

Lemma readable_member ws key : nullish ws = false → member ws key = inl (get ws key).
Proof. by destruct ws. Qed.

Lemma missing_readable ws param m : missing ws param = inl m → nullish ws = false.
Proof.
  unfold missing. destruct (member ws param) as [v |] eqn:E; [| done].
  intros _. by apply member_readable in E as [? _].
Qed.

Lemma skip_fold_set ws params :
  fold_left (λ skip param,
               match skip with inl false => missing ws param | _ => skip end)
    params (inl true) = inl true.
Proof. induction params as [| p params IH]; cbn; done. Qed.

Lemma skip_fold_thrown ws params e :
  fold_left (λ skip param,
               match skip with inl false => missing ws param | _ => skip end)
    params (inr e) = inr e.
Proof. induction params as [| p params IH]; cbn; done. Qed.

(** A station is skipped exactly when one of the required fields is
    missing from it, whichever field that is. *)
Lemma skip_spec ws params :
  skip (Some params) ws = inl true
  ↔ ∃ param, param ∈ params ∧ missing ws param = inl true.
Proof.
  unfold skip. induction params as [| p params IH]; cbn.
  - split; [done |]. intros (param & Hin & _). by apply elem_of_nil in Hin.
  - destruct (missing ws p) as [[|] | e] eqn:Hp.
    + rewrite skip_fold_set. split; [| done].
      intros _. exists p. split; [apply list_elem_of_here | done].
    + rewrite IH. split.
      * intros (param & Hin & Hm). exists param.
        split; [by apply list_elem_of_further | done].
      * intros (param & Hin & Hm). apply elem_of_cons in Hin as [-> | Hin];
          [congruence | eauto].
    + rewrite skip_fold_thrown. split; [done |].
      intros (param & _ & Hm). apply missing_readable in Hm.
      unfold missing in Hp. by rewrite readable_member in Hp.
Qed.

(** A station that does not make the callback throw can be read. *)
Lemma skip_false_params ws params param :
  skip (Some params) ws = inl false → param ∈ params →
  missing ws param = inl false.
Proof.
  unfold skip. induction params as [| p params IH]; cbn; intros Hs Hin.
  - by apply elem_of_nil in Hin.
  - destruct (missing ws p) as [[|] | e] eqn:Hp.
    + by rewrite skip_fold_set in Hs.
    + apply elem_of_cons in Hin as [-> | Hin]; [done | by apply IH].
    + by rewrite skip_fold_thrown in Hs.
Qed.

(** One turn of the loop that does not throw: the station is skipped,
    or it is measured and taken when it is nearer. *)
Lemma scan_cons location requireParams i st rest result nd r :
  scan location requireParams i (st :: rest) result nd = inl r →
  (skip requireParams st = inl true
   ∧ scan location requireParams (S i) rest result nd = inl r)
  ∨ (skip requireParams st = inl false
     ∧ nullish st = false
     ∧ let dist :=
         geodist location (position (get st "lat") (get st "lon")) in
       (if nearer nd dist
        then scan location requireParams (S i) rest (Some (i, st)) (Some dist)
        else scan location requireParams (S i) rest result nd) = inl r).
Proof.
  cbn [scan]. destruct (skip requireParams st) as [[|] | e]; [by left | | done].
  destruct (member st "lat") as [la |] eqn:Hla; [| done].
  destruct (member st "lon") as [lo |] eqn:Hlo; [| done].
  apply member_readable in Hla as [Hst ->]. apply member_readable in Hlo as [_ ->].
  by right.
Qed.

Lemma scan_cons_skip location requireParams i st rest result nd :
  skip requireParams st = inl true →
  scan location requireParams i (st :: rest) result nd
  = scan location requireParams (S i) rest result nd.
Proof. intros Hs. cbn [scan]. by rewrite Hs. Qed.

Lemma scan_cons_keep location requireParams i st rest result nd :
  skip requireParams st = inl false → nullish st = false →
  scan location requireParams i (st :: rest) result nd
  = let dist := geodist location (position (get st "lat") (get st "lon")) in
    if nearer nd dist
    then scan location requireParams (S i) rest (Some (i, st)) (Some dist)
    else scan location requireParams (S i) rest result nd.
Proof. intros Hs Hr. cbn [scan]. by rewrite Hs, !readable_member. Qed.

(** A station that is undefined or null makes the callback throw,
    with or without requireParams. *)
Lemma scan_cons_unreadable location requireParams st :
  nullish st = true →
  ∃ what, ∀ i rest result nd,
    scan location requireParams i (st :: rest) result nd = inr (TypeError what).
Proof.
  intros Hst.
  assert (Hskip : skip requireParams st = inl false
                  ∨ ∃ what, skip requireParams st = inr (TypeError what)).
  { destruct requireParams as [[| p params] |]; [by left | | by left].
    right. exists p.
    assert (Hm : missing st p = inr (TypeError p))
      by (unfold missing; by destruct st).
    unfold skip. cbn [fold_left]. rewrite Hm. apply skip_fold_thrown. }
  destruct Hskip as [Hskip | [what Hskip]].
  - exists "lat"%string. intros i rest result nd. cbn [scan]. rewrite Hskip.
    by destruct st.
  - exists what. intros i rest result nd. cbn [scan]. by rewrite Hskip.
Qed.

Lemma scan_result location requireParams stations :
  ∀ i result nearestDistance j ws,
    scan location requireParams i stations result nearestDistance
      = inl (Some (j, ws)) →
    result = Some (j, ws)
    ∨ (ws ∈ stations ∧ skip requireParams ws = inl false).
Proof.
  induction stations as [| st rest IH]; intros i result nd j ws Hs.
  - cbn in Hs. left. congruence.
  - apply scan_cons in Hs as [[Hskip Hs] | (Hskip & _ & Hs)].
    + destruct (IH _ _ _ _ _ Hs) as [-> | [Hin Hok]]; [by left |].
      right. split; [by apply list_elem_of_further | done].
    + cbn zeta in Hs. destruct (nearer nd _);
        (destruct (IH _ _ _ _ _ Hs) as [Heq | [Hin Hok]];
         [| right; split; [by apply list_elem_of_further | done]]).
      * injection Heq as -> ->. right. split; [apply list_elem_of_here | done].
      * by left.
Qed.

Lemma findNearestWeatherStation_scan b requireParams stations i ws :
  findNearestWeatherStation b requireParams stations = inl (Some (i, ws)) →
  scan (position (VNum (lat b)) (VNum (lon b))) requireParams 0 stations
    None None = inl (Some (i, ws))
  ∧ truthy ws = true.
Proof.
  unfold findNearestWeatherStation.
  destruct (scan _ _ _ _ _ _) as [[[j st] |] | e]; [| done | done].
  destruct (truthy st) eqn:Ht; [| done]. by intros [= <- <-].
Qed.

(** The part of C3 that the code keeps: a station that
    findNearestWeatherStation returns has every required field present
    and different from '-'. *)
Lemma findNearestWeatherStation_has_required b params stations i ws param :
  findNearestWeatherStation b (Some params) stations = inl (Some (i, ws)) →
  param ∈ params →
  ws ∈ stations
  ∧ truthy (get ws param) = true ∧ strict_eq (get ws param) (VStr "-") = false.
Proof.
  intros Hfind Hin. apply findNearestWeatherStation_scan in Hfind as [Hscan _].
  destruct (scan_result _ _ _ _ _ _ _ _ Hscan) as [? | [Hmem Hskip]]; [done |].
  split; [done |].
  pose proof (skip_false_params _ _ _ Hskip Hin) as Hm.
  pose proof (missing_readable _ _ _ Hm) as Hr.
  unfold missing in Hm. rewrite (readable_member _ _ Hr) in Hm.
  injection Hm as Hm.
  apply negb_false_iff, andb_true_iff in Hm as [Ht Hne].
  split; [done |]. by apply negb_true_iff in Hne.
Qed.

End StationFacts.

(** C3, on the code.  The feed has two stations; the first has air
    pressure and regenMMPU '-', the second has both.  Asked with
    requireParams ['regenMMPU'], the scan skips the first station and the
    lookup resolves with the second, whatever the distances are: the
    first station never reaches the comparison of distances.  Asked with
    ['luchtdruk'] or with nothing the first station is not skipped.  So
    regenMMPU is filtered like any other required field. *)
Theorem regenMMPU_is_not_exempt (H : Host) (w : world) :
  skip (Some ["regenMMPU"%string]) rainless_station = inl true
  ∧ skip (Some ["luchtdruk"%string]) rainless_station = inl false
  ∧ skip None rainless_station = inl false
  ∧ ∃ station,
      (getNearestWeatherStationData_then (Some ["regenMMPU"%string])
         two_station_feed w).2 = Resolved station
      ∧ get station "stationcode" = VStr "6380".
Proof.
  split; [reflexivity | split; [reflexivity | split; [reflexivity |]]].
  eexists. split; reflexivity.
Qed.

(** ** The forecast *)

Lemma day_key_not_dagen i : day_key i ≠ "dagen"%string.
Proof. unfold day_key. cbn. discriminate. Qed.

Lemma day_key_not_tekst_middellang i : day_key i ≠ "tekst_middellang"%string.
Proof. unfold day_key. cbn. discriminate. Qed.

Lemma day_key_not_tekst_lang i : day_key i ≠ "tekst_lang"%string.
Proof. unfold day_key. cbn. discriminate. Qed.

Lemma day_key_inj i j : day_key i = day_key j → i = j.
Proof.
  unfold day_key. intros Heq. apply (inj (String.app _)) in Heq.
  by apply (inj pretty) in Heq.
Qed.

Lemma push_day_lookup_ne v vm k :
  k ≠ "dagen"%string → push_day v vm !! k = vm !! k.
Proof. intros Hk. unfold push_day. by rewrite lookup_alter_ne. Qed.

Lemma push_day_size v (vm : gmap string jsval) : size (push_day v vm) = size vm.
Proof.
  unfold push_day. by rewrite <- !size_dom, dom_alter_L.
Qed.

(** One turn of the loop, when the day is there. *)
Lemma collect_days_turn fuel i vm :
  truthy (default VUndefined (vm !! day_key i)) = true →
  collect_days (S fuel) i vm =
    collect_days fuel (S i)
      (delete (day_key i) (push_day (default VUndefined (vm !! day_key i)) vm)).
Proof. intros Ht. cbn. by rewrite Ht. Qed.

Lemma collect_days_stop fuel i vm :
  truthy (default VUndefined (vm !! day_key i)) = false →
  collect_days fuel i vm = vm.
Proof. intros Ht. destruct fuel; cbn; [done |]. by rewrite Ht. Qed.

Lemma truthy_present (vm : gmap string jsval) k :
  truthy (default VUndefined (vm !! k)) = true → is_Some (vm !! k).
Proof. destruct (vm !! k); [eauto | done]. Qed.

(** A key that is absent stays absent through the loop. *)
Lemma collect_days_absent fuel : ∀ i vm k,
  k ≠ "dagen"%string → vm !! k = None → collect_days fuel i vm !! k = None.
Proof.
  induction fuel as [| fuel IH]; intros i vm k Hk Hnone; [done |].
  destruct (truthy (default VUndefined (vm !! day_key i))) eqn:Ht.
  - rewrite (collect_days_turn _ _ _ Ht). apply IH; [done |].
    destruct (decide (day_key i = k)) as [<- | Hne].
    + apply lookup_delete_eq.
    + by rewrite lookup_delete_ne, push_day_lookup_ne.
  - by rewrite (collect_days_stop _ _ _ Ht).
Qed.

(** The fuel of getWeatherForecast is enough: the loop ends because its
    condition fails, and more fuel would change nothing. *)
Lemma collect_days_enough_fuel fuel : ∀ i vm extra,
  (size vm < fuel)%nat →
  collect_days (fuel + extra) i vm = collect_days fuel i vm.
Proof.
  induction fuel as [| fuel IH]; intros i vm extra Hsize; [lia |].
  destruct (truthy (default VUndefined (vm !! day_key i))) eqn:Ht.
  - change (S fuel + extra)%nat with (S (fuel + extra)).
    rewrite !(collect_days_turn _ _ _ Ht). apply IH.
    rewrite map_size_delete_Some.
    + rewrite push_day_size.
      assert (size vm ≠ 0%nat); [| lia].
      intros Hz. apply map_size_empty_inv in Hz. subst vm.
      by rewrite lookup_empty in Ht.
    + rewrite push_day_lookup_ne by apply day_key_not_dagen.
      by apply truthy_present.
  - by rewrite !(collect_days_stop _ _ _ Ht).
Qed.

(** What the loop leaves: the days it met, appended to dagen in order,
    and none of their keys. *)
Lemma collect_days_spec fuel : ∀ i vm items,
  vm !! "dagen"%string = Some (VArr items) →
  ∃ days,
    collect_days fuel i vm !! "dagen"%string = Some (VArr (items ++ days))
    ∧ (∀ j, (j < length days)%nat →
         days !! j = vm !! day_key (i + j)
         ∧ collect_days fuel i vm !! day_key (i + j) = None).
Proof.
  induction fuel as [| fuel IH]; intros i vm items Hd.
  - exists []. cbn. rewrite app_nil_r. split; [done |]. intros j Hj; cbn in Hj; lia.
  - destruct (truthy (default VUndefined (vm !! day_key i))) eqn:Ht.
    + rewrite (collect_days_turn _ _ _ Ht).
      destruct (truthy_present _ _ Ht) as [day Hday].
      rewrite Hday. cbn.
      set (vm' := delete (day_key i) (push_day day vm)).
      assert (Hd' : vm' !! "dagen"%string = Some (VArr (items ++ [day]))).
      { unfold vm'. rewrite lookup_delete_ne by apply day_key_not_dagen.
        unfold push_day. rewrite lookup_alter_eq. by rewrite Hd. }
      destruct (IH (S i) vm' _ Hd') as (days & Hdagen & Hdays).
      exists (day :: days). split.
      * rewrite Hdagen. by rewrite <- app_assoc.
      * intros [| j] Hj; cbn in Hj.
        -- rewrite Nat.add_0_r. cbn. split; [done |].
           apply collect_days_absent; [apply day_key_not_dagen |].
           unfold vm'. apply lookup_delete_eq.
        -- destruct (Hdays j ltac:(lia)) as [Hv Hgone].
           replace (i + S j)%nat with (S i + j)%nat by lia.
           split; [| done].
           change ((day :: days) !! S j) with (days !! j). rewrite Hv. unfold vm'.
           rewrite lookup_delete_ne by (intros E; apply day_key_inj in E; lia).
           by rewrite push_day_lookup_ne by apply day_key_not_dagen.
    + rewrite (collect_days_stop _ _ _ Ht). exists []. rewrite app_nil_r.
      split; [done |]. intros j Hj; cbn in Hj; lia.
Qed.

(** After the loop has run from day 1, day 1 is not there. *)
Lemma collect_days_first_gone fuel vm :
  truthy (default VUndefined (collect_days (S fuel) 1 vm !! day_key 1)) = false.
Proof.
  destruct (truthy (default VUndefined (vm !! day_key 1))) eqn:Ht.
  - rewrite (collect_days_turn _ _ _ Ht).
    rewrite collect_days_absent; [done | apply day_key_not_dagen |].
    apply lookup_delete_eq.
  - by rewrite (collect_days_stop _ _ _ Ht).
Qed.

Lemma get_object (fields : gmap string jsval) key :
  get (VObj fields) key = default VUndefined (fields !! key).
Proof. reflexivity. Qed.

Lemma unwrap_inv key vm vm' :
  unwrap key vm = inl vm' → ∃ text, vm' = <[key := text]> vm.
Proof.
  unfold unwrap. destruct (member _ _) as [text | e]; [| done].
  intros [= <-]. eauto.
Qed.

Lemma getWeatherForecast_then_object fields vm :
  fields !! "verwachting_meerdaags"%string = Some (VObj vm) →
  getWeatherForecast_then (VObj fields) =
    match unwrap "tekst_middellang"
            (collect_days (S (size (<["dagen"%string := VArr []]> vm))) 1
               (<["dagen"%string := VArr []]> vm)) with
    | inr e =>
        (VObj (<["verwachting_meerdaags"%string :=
                 VObj (collect_days (S (size (<["dagen"%string := VArr []]> vm))) 1
                         (<["dagen"%string := VArr []]> vm))]> fields),
         Rejected e)
    | inl vm1 =>
        match unwrap "tekst_lang" vm1 with
        | inr e =>
            (VObj (<["verwachting_meerdaags"%string := VObj vm1]> fields),
             Rejected e)
        | inl vm2 =>
            (VObj (<["verwachting_meerdaags"%string := VObj vm2]> fields),
             Resolved (VObj vm2))
        end
    end.
Proof.
  intros Hvm. unfold getWeatherForecast_then, get. rewrite Hvm. reflexivity.
Qed.

(** A forecast that resolves: the object it resolves with, and the
    feed it leaves behind. *)
Lemma getWeatherForecast_then_resolved data data1 r1 :
  getWeatherForecast_then data = (data1, Resolved r1) →
  ∃ fields vm tm tl,
    data = VObj fields
    ∧ fields !! "verwachting_meerdaags"%string = Some (VObj vm)
    ∧ r1 = VObj (<["tekst_lang"%string := tl]> (<["tekst_middellang"%string := tm]>
             (collect_days (S (size (<["dagen"%string := VArr []]> vm))) 1
                (<["dagen"%string := VArr []]> vm))))
    ∧ data1 = VObj (<["verwachting_meerdaags"%string := r1]> fields).
Proof.
  unfold getWeatherForecast_then.
  destruct data as [| | | | | | | fields]; try done.
  unfold get. destruct (fields !! "verwachting_meerdaags"%string) as [v |] eqn:Hvm;
    [| done].
  destruct v as [| | | | | | | vm]; try done. cbn.
  destruct (unwrap "tekst_middellang" _) as [vm1 | e] eqn:H1; [| done].
  destruct (unwrap "tekst_lang" vm1) as [vm2 | e] eqn:H2; [| done].
  intros [= <- <-].
  apply unwrap_inv in H1 as [tm ->]. apply unwrap_inv in H2 as [tl ->].
  by exists fields, vm, tm, tl.
Qed.

(** The second call: on a feed whose first day is gone, dagen is left
    empty, whether the call resolves or not. *)
Lemma getWeatherForecast_then_no_days fields vm :
  fields !! "verwachting_meerdaags"%string = Some (VObj vm) →
  truthy (default VUndefined (vm !! day_key 1)) = false →
  get (get (getWeatherForecast_then (VObj fields)).1 "verwachting_meerdaags") "dagen"
    = VArr []
  ∧ ∀ r, (getWeatherForecast_then (VObj fields)).2 = Resolved r →
         get r "dagen" = VArr [].
Proof.
  intros Hvm Hday. rewrite (getWeatherForecast_then_object _ _ Hvm).
  assert (Hstop : collect_days (S (size (<["dagen"%string := VArr []]> vm))) 1
                    (<["dagen"%string := VArr []]> vm)
                  = <["dagen"%string := VArr []]> vm).
  { apply collect_days_stop.
    by rewrite lookup_insert_ne by (intros E; by apply (day_key_not_dagen 1)). }
  rewrite Hstop.
  destruct (unwrap "tekst_middellang" _) as [vm1 | e] eqn:H1.
  - apply unwrap_inv in H1 as [tm ->].
    destruct (unwrap "tekst_lang" _) as [vm2 | e] eqn:H2.
    + apply unwrap_inv in H2 as [tl ->]. cbn.
      rewrite lookup_insert_eq. cbn.
      rewrite !lookup_insert_ne by done. rewrite lookup_insert_eq.
      split; [done |]. intros r [= <-]. cbn.
      rewrite !lookup_insert_ne by done. by rewrite lookup_insert_eq.
    + cbn. rewrite lookup_insert_eq. cbn.
      rewrite lookup_insert_ne by done. rewrite lookup_insert_eq.
      split; done.
  - cbn. rewrite lookup_insert_eq. cbn. rewrite lookup_insert_eq.
    split; done.
Qed.

Lemma collect_days_exact fuel : ∀ i vm items,
  (size vm < fuel)%nat →
  vm !! "dagen"%string = Some (VArr items) →
  ∃ days,
    collect_days fuel i vm !! "dagen"%string = Some (VArr (items ++ days))
    ∧ (∀ j day, days !! j = Some day →
         vm !! day_key (i + j) = Some day ∧ truthy day = true)
    ∧ truthy (default VUndefined (vm !! day_key (i + length days))) = false
    ∧ (∀ key, key ≠ "dagen"%string →
         (∀ j, (j < length days)%nat → key ≠ day_key (i + j)) →
         collect_days fuel i vm !! key = vm !! key).
Proof.
  induction fuel as [| fuel IH]; intros i vm items Hsize Hd; [lia |].
  destruct (truthy (default VUndefined (vm !! day_key i))) eqn:Ht.
  - rewrite (collect_days_turn _ _ _ Ht).
    destruct (truthy_present _ _ Ht) as [day Hday].
    rewrite Hday in Ht |- *. cbn [default from_option id] in Ht |- *.
    set (vm' := delete (day_key i) (push_day day vm)).
    assert (Hd' : vm' !! "dagen"%string = Some (VArr (items ++ [day]))).
    { unfold vm'. rewrite lookup_delete_ne by apply day_key_not_dagen.
      unfold push_day. rewrite lookup_alter_eq. by rewrite Hd. }
    assert (Hsize' : (size vm' < fuel)%nat).
    { unfold vm'. rewrite map_size_delete_Some.
      - rewrite push_day_size.
        assert (size vm ≠ 0%nat); [| lia].
        intros Hz. apply map_size_empty_inv in Hz. subst vm.
        by rewrite lookup_empty in Hday.
      - rewrite push_day_lookup_ne by apply day_key_not_dagen. by rewrite Hday. }
    assert (Hother : ∀ key, key ≠ "dagen"%string → key ≠ day_key i →
                            vm' !! key = vm !! key).
    { intros key Hk1 Hk2. unfold vm'.
      by rewrite lookup_delete_ne, push_day_lookup_ne. }
    destruct (IH (S i) vm' _ Hsize' Hd') as (days & Hdagen & Hdays & Hstop & Hrest).
    exists (day :: days). split; [| split; [| split]].
    + rewrite Hdagen. by rewrite <- app_assoc.
    + intros [| j] d Hj.
      * injection Hj as <-. by rewrite Nat.add_0_r.
      * destruct (Hdays j d Hj) as [Hv Htd]. split; [| done].
        replace (i + S j)%nat with (S i + j)%nat by lia.
        rewrite <- Hv. symmetry. apply Hother; [apply day_key_not_dagen |].
        intros E. apply day_key_inj in E. lia.
    + cbn [length]. replace (i + S (length days))%nat with (S i + length days)%nat by lia.
      rewrite <- Hother; [done | apply day_key_not_dagen |].
      intros E. apply day_key_inj in E. lia.
    + intros key Hk Hnot. rewrite Hrest; [| done |].
      * apply Hother; [done |]. specialize (Hnot 0%nat). rewrite Nat.add_0_r in Hnot.
        apply Hnot. cbn. lia.
      * intros j Hj. replace (S i + j)%nat with (i + S j)%nat by lia.
        apply Hnot. cbn. lia.
  - rewrite (collect_days_stop _ _ _ Ht). exists []. rewrite app_nil_r.
    split; [done |]. split; [by intros j d Hj |]. split; [| done].
    cbn. by rewrite Nat.add_0_r.
Qed.

Lemma member_nullish v key :
  member v key = if nullish v then inr (TypeError key) else inl (get v key).
Proof. by destruct v. Qed.

Lemma collect_days_keeps fuel vm key :
  (size vm < fuel)%nat → (∃ items, vm !! "dagen"%string = Some (VArr items)) →
  key ≠ "dagen"%string → (∀ j, key ≠ day_key j) →
  collect_days fuel 1 vm !! key = vm !! key.
Proof.
  intros Hsize [items Hd] Hk Hnot.
  destruct (collect_days_exact fuel 1 vm items Hsize Hd) as (days & _ & _ & _ & Hrest).
  apply Hrest; [done |]. intros j _. apply Hnot.
Qed.

(** The settlement of a forecast, by the two texts of the feed. *)
Lemma forecast_by_texts fields vm :
  fields !! "verwachting_meerdaags"%string = Some (VObj vm) →
  let tm := default VUndefined (vm !! "tekst_middellang"%string) in
  let tl := default VUndefined (vm !! "tekst_lang"%string) in
  match (getWeatherForecast_then (VObj fields)).2 with
  | Resolved r =>
      nullish tm = false ∧ nullish tl = false
      ∧ get r "tekst_middellang" = get tm "$" ∧ get r "tekst_lang" = get tl "$"
  | Rejected e =>
      e = TypeError "$" ∧ (nullish tm = true ∨ nullish tl = true)
  end.
Proof.
  intros Hvm tm tl. rewrite (getWeatherForecast_then_object _ _ Hvm).
  set (vm0 := <["dagen"%string := VArr []]> vm).
  set (vmB := collect_days (S (size vm0)) 1 vm0).
  assert (Hkeep : ∀ key, key ≠ "dagen"%string → (∀ j, key ≠ day_key j) →
                         vmB !! key = vm !! key).
  { intros key Hk Hnot. unfold vmB. rewrite collect_days_keeps; try done; [| lia |].
    - unfold vm0. by rewrite lookup_insert_ne.
    - exists []. unfold vm0. by rewrite lookup_insert_eq. }
  assert (Htm : vmB !! "tekst_middellang"%string = vm !! "tekst_middellang"%string).
  { apply Hkeep; [done |]. intros j E. by apply (day_key_not_tekst_middellang j). }
  assert (Htl : vmB !! "tekst_lang"%string = vm !! "tekst_lang"%string).
  { apply Hkeep; [done |]. intros j E. by apply (day_key_not_tekst_lang j). }
  unfold unwrap at 1. rewrite Htm, member_nullish. fold tm.
  destruct (nullish tm) eqn:Hntm; [cbn; by eauto |].
  unfold unwrap. rewrite lookup_insert_ne by done. rewrite Htl, member_nullish.
  fold tl. destruct (nullish tl) eqn:Hntl; [cbn; by eauto |].
  cbn [snd]. rewrite !get_object.
  rewrite lookup_insert_ne by done. rewrite !lookup_insert_eq. done.
Qed.

(** C10.  A getWeatherForecast handler that resolves on the feed held
    by promise p writes to that feed, and the object resolved is the one
    in the feed.  Its dagen holds the days dag-plus1, dag-plus2, ... of
    the feed, in order, up to the first that is missing or falsy: every
    day of an unbroken run from dag-plus1 on is copied, each is truthy,
    and the key of each is deleted.  A second handler on the same promise
    therefore leaves dagen empty; a forecast it resolves with has an
    empty dagen, and it does resolve with one when the two texts the
    first call left are neither undefined nor null. *)
Theorem getWeatherForecast_consumes_cached_days
    (w : world) (p : nat) (data data1 r1 : jsval) :
  feed_value w p = Some data →
  getWeatherForecast_then data = (data1, Resolved r1) →
  let w1 := store_feed p data1 w in
  let feed_day j := get (get data "verwachting_meerdaags") (day_key (1 + j)) in
  feed_value w1 p = Some data1
  ∧ get data1 "verwachting_meerdaags" = r1
  ∧ (∃ days,
       get r1 "dagen" = VArr days
       ∧ (∀ j day, days !! j = Some day →
            feed_day j = day
            ∧ truthy day = true
            ∧ get r1 (day_key (1 + j)) = VUndefined)
       ∧ truthy (feed_day (length days)) = false
       ∧ ∀ n, (∀ j, (j < n)%nat → truthy (feed_day j) = true) →
              (n ≤ length days)%nat)
  ∧ get (get (getWeatherForecast_then data1).1 "verwachting_meerdaags") "dagen"
      = VArr []
  ∧ (∀ r2, (getWeatherForecast_then data1).2 = Resolved r2 →
           get r2 "dagen" = VArr [])
  ∧ (nullish (get r1 "tekst_middellang") = false →
     nullish (get r1 "tekst_lang") = false →
     ∃ r2, (getWeatherForecast_then data1).2 = Resolved r2
           ∧ get r2 "dagen" = VArr []).
Proof.
  intros Hfeed Hfirst w1 feed_day.
  destruct (getWeatherForecast_then_resolved _ _ _ Hfirst)
    as (fields & vm & tm & tl & -> & Hvm & Hr1 & Hdata1).
  set (vm0 := <["dagen"%string := VArr []]> vm) in *.
  set (vmB := collect_days (S (size vm0)) 1 vm0) in *.
  assert (Hvm0 : ∀ k, vm0 !! day_key k = vm !! day_key k).
  { intros k. unfold vm0. apply lookup_insert_ne.
    intros E. by apply (day_key_not_dagen k). }
  assert (Hday : ∀ j, feed_day j = default VUndefined (vm0 !! day_key (1 + j))).
  { intros j. unfold feed_day. by rewrite get_object, Hvm, Hvm0. }
  assert (Hsecond :
    get (get (getWeatherForecast_then data1).1 "verwachting_meerdaags") "dagen"
      = VArr []
    ∧ ∀ r2, (getWeatherForecast_then data1).2 = Resolved r2 →
            get r2 "dagen" = VArr []).
  { rewrite Hdata1. rewrite Hr1.
    eapply getWeatherForecast_then_no_days; [by rewrite lookup_insert_eq |].
    rewrite lookup_insert_ne
      by (intros E; by apply (day_key_not_tekst_lang 1)).
    rewrite lookup_insert_ne
      by (intros E; by apply (day_key_not_tekst_middellang 1)).
    apply collect_days_first_gone. }
  split; [| split; [| split; [| split; [| split]]]].
  - unfold w1, store_feed, feed_value. cbn.
    unfold feed_value in Hfeed.
    destruct (feed_promises w !! p) as [ps |] eqn:Hp; [| done].
    rewrite list_lookup_insert_eq; [done |]. by eapply lookup_lt_Some.
  - rewrite Hdata1, get_object. by rewrite lookup_insert_eq.
  - destruct (collect_days_exact (S (size vm0)) 1 vm0 [])
      as (days & Hdagen & Hdays & Hstop & _); [lia | |].
    { unfold vm0. by rewrite lookup_insert_eq. }
    destruct (collect_days_spec (S (size vm0)) 1 vm0 [])
      as (days' & Hdagen' & Hgone).
    { unfold vm0. by rewrite lookup_insert_eq. }
    rewrite Hdagen in Hdagen'. injection Hdagen' as <-.
    fold vmB in Hdagen, Hgone.
    exists days. split; [| split; [| split]].
    + rewrite Hr1, get_object. rewrite !lookup_insert_ne by done.
      by rewrite Hdagen.
    + intros j day Hj. destruct (Hdays j day Hj) as [Hv Ht].
      split; [by rewrite Hday, Hv | split; [done |]].
      destruct (Hgone j) as [_ Hnone]; [by eapply lookup_lt_Some |].
      rewrite Hr1, get_object.
      rewrite lookup_insert_ne
        by (intros E; by apply (day_key_not_tekst_lang (1 + j))).
      rewrite lookup_insert_ne
        by (intros E; by apply (day_key_not_tekst_middellang (1 + j))).
      by rewrite Hnone.
    + by rewrite Hday.
    + intros n Hrun. destruct (le_lt_dec n (length days)) as [| Hlt]; [done |].
      specialize (Hrun (length days) Hlt). rewrite Hday in Hrun. congruence.
  - exact (proj1 Hsecond).
  - exact (proj2 Hsecond).
  - intros Htm Htl. destruct Hsecond as [_ Hempty].
    assert (Hres : ∃ r2, (getWeatherForecast_then data1).2 = Resolved r2).
    { rewrite Hdata1.
      pose proof (forecast_by_texts
                    (<["verwachting_meerdaags"%string := r1]> fields)
                    (<["tekst_lang"%string := tl]>
                       (<["tekst_middellang"%string := tm]> vmB))) as Htexts.
      rewrite <- Hr1 in Htexts.
      specialize (Htexts ltac:(by rewrite lookup_insert_eq)). cbn zeta in Htexts.
      destruct (getWeatherForecast_then
                  (VObj (<["verwachting_meerdaags"%string := r1]> fields))).2
        as [r2 | e]; [by eexists |].
      destruct Htexts as [_ Hnull]. rewrite Hr1 in Htm, Htl.
      rewrite get_object in Htm, Htl.
      destruct Hnull as [Hn | Hn]; congruence. }
    destruct Hres as [r2 Hr2]. exists r2. split; [done | by apply Hempty].
Qed.

(** The first call returns both days; the second, served by the same
    promise, resolves with no day at all; the third rejects, the texts
    having been unwrapped twice. *)
Example getWeatherForecast_thrice :
  let '(data1, first) := getWeatherForecast_then forecast_feed in
  let '(data2, second) := getWeatherForecast_then data1 in
  let '(_, third) := getWeatherForecast_then data2 in
  and_then first (λ r, Resolved (get r "dagen"))
    = Resolved (VArr [VObj {[ "dagweek"%string := VStr "vr" ]};
                      VObj {[ "dagweek"%string := VStr "za" ]}])
  ∧ and_then second (λ r, Resolved (get r "dagen")) = Resolved (VArr [])
  ∧ third = Rejected (TypeError "$").
Proof. by vm_compute. Qed.

Lemma getWeatherForecast_consumes_cached_days_witness :
  let data1 := (getWeatherForecast_then forecast_feed).1 in
  let r1 := get data1 "verwachting_meerdaags" in
  feed_value forecast_world 0 = Some forecast_feed
  ∧ getWeatherForecast_then forecast_feed = (data1, Resolved r1)
  ∧ feed_value (store_feed 0 data1 forecast_world) 0 = Some data1
  ∧ get r1 "dagen" = VArr [VObj {[ "dagweek"%string := VStr "vr" ]};
                           VObj {[ "dagweek"%string := VStr "za" ]}]
  ∧ get r1 "dag-plus1" = VUndefined ∧ get r1 "dag-plus2" = VUndefined
  ∧ ∃ r2, (getWeatherForecast_then data1).2 = Resolved r2
          ∧ get r2 "dagen" = VArr [].
Proof.
  intros data1 r1.
  assert (Hfeed : feed_value forecast_world 0 = Some forecast_feed)
    by reflexivity.
  assert (Hfirst : getWeatherForecast_then forecast_feed = (data1, Resolved r1))
    by (by vm_compute).
  assert (Htm : nullish (get r1 "tekst_middellang") = false) by (by vm_compute).
  assert (Htl : nullish (get r1 "tekst_lang") = false) by (by vm_compute).
  destruct (getWeatherForecast_consumes_cached_days forecast_world 0
              forecast_feed data1 r1 Hfeed Hfirst)
    as (Hstored & _ & _ & _ & _ & Hsecond).
  refine (conj Hfeed (conj Hfirst (conj Hstored (conj _ (conj _ (conj _
            (Hsecond Htm Htl))))))); by vm_compute.
Defined.

(** ** Cache timers *)

Lemma timers_ok_same w w' : same_caches w w' → timers_ok w → timers_ok w'.
Proof.
  intros (Ht & Hh & Hts & Hn & Hc & Hp) [].
  split; rewrite ?Ht, ?Hh, ?Hts, ?Hn, ?Hc, ?Hp; done.
Qed.

Lemma same_caches_refl w : same_caches w w.
Proof. by repeat split. Qed.

Lemma same_caches_trans w1 w2 w3 :
  same_caches w1 w2 → same_caches w2 w3 → same_caches w1 w3.
Proof.
  intros (? & ? & ? & ? & ? & ?) (? & ? & ? & ? & ? & ?).
  repeat split; congruence.
Qed.

Lemma at_most_one {A : Type} (l : list A) :
  NoDup l → (∀ x y, x ∈ l → y ∈ l → x = y) → (length l ≤ 1)%nat.
Proof.
  intros Hnd Hall. destruct l as [| a [| b l]]; cbn; [lia | lia |].
  exfalso. apply NoDup_cons in Hnd as [Hnotin _]. apply Hnotin.
  rewrite (Hall a b); [apply list_elem_of_here | apply list_elem_of_here |].
  apply list_elem_of_further, list_elem_of_here.
Qed.

Lemma timer_eq (ts : list (nat * timer_action)) t t' :
  NoDup ts.*1 → t ∈ ts → t' ∈ ts → t.1 = t'.1 → t = t'.
Proof.
  intros Hnd Ht Ht' Heq.
  apply list_elem_of_lookup in Ht as [i Hi], Ht' as [j Hj].
  assert (Hij : i = j).
  { eapply NoDup_lookup; [exact Hnd | |].
    - rewrite list_lookup_fmap, Hi. reflexivity.
    - rewrite list_lookup_fmap, Hj. cbn. by rewrite Heq. }
  subst j. congruence.
Qed.

Lemma timers_ok_counts w :
  timers_ok w → (length (rain_timers w) ≤ 1)%nat ∧ (length (feed_timers w) ≤ 1)%nat.
Proof.
  intros []. pose proof (NoDup_fmap_1 _ _ ok_distinct0) as Hnd.
  unfold rain_timers, feed_timers.
  split; (apply at_most_one; [by apply NoDup_filter |]);
    intros [id a] [id' a']; rewrite !list_elem_of_filter; cbn;
    intros [-> Hin] [-> Hin'];
    apply (timer_eq (timers w)); try done; cbn.
  - apply ok_rain0 in Hin, Hin'. congruence.
  - by apply ok_feed_one0.
Qed.

Lemma clearTimeout_elem h w t :
  t ∈ timers (clearTimeout h w) ↔ t ∈ timers w ∧ h ≠ Some t.1.
Proof.
  destruct h as [id |]; cbn.
  - rewrite list_elem_of_filter. split; intros [H1 H2]; split; try done; congruence.
  - split; [by intros ? | by intros []].
Qed.

Lemma clearTimeout_distinct h w :
  NoDup (timers w).*1 → NoDup (timers (clearTimeout h w)).*1.
Proof.
  destruct h as [id |]; cbn; [| done]. intros Hnd.
  apply NoDup_fmap_2_strong; [| apply NoDup_filter, (NoDup_fmap_1 _ _ Hnd)].
  intros t t'. rewrite !list_elem_of_filter. intros [_ Ht] [_ Ht'] Heq.
  by apply (timer_eq (timers w)).
Qed.

Lemma fresh_handle_distinct (ts : list (nat * timer_action)) n a :
  NoDup ts.*1 → (∀ id b, (id, b) ∈ ts → (id < n)%nat) → NoDup (ts ++ [(n, a)]).*1.
Proof.
  intros Hnd Hfresh. rewrite fmap_app. apply NoDup_app. split; [done |].
  split; [| apply NoDup_singleton].
  intros id Hin Hn. cbn in Hn. apply list_elem_of_singleton in Hn. subst id.
  apply list_elem_of_fmap in Hin as ([id b] & Heq & Hin). cbn in Heq. subst id.
  apply Hfresh in Hin. lia.
Qed.

Section TimerFacts.
Context `{Host}.

Lemma same_caches_setLatLon lat lon w w' :
  setLatLon lat lon w = inl w' → same_caches w w'.
Proof.
  intros Hset. destruct (setLatLon_inv _ _ _ _ Hset) as (la & lo & ->).
  by repeat split.
Qed.

Lemma same_caches_checkLocationChange w : same_caches w (checkLocationChange w).
Proof. unfold checkLocationChange. case (same_location (self w)); by repeat split. Qed.

Lemma same_caches_getRainData forceRefresh w :
  same_caches w (getRainData forceRefresh w).1.
Proof.
  unfold getRainData.
  eapply same_caches_trans; [apply same_caches_checkLocationChange |].
  destruct (rainData (self (checkLocationChange w)));
    [case (negb forceRefresh && _) |]; by repeat split.
Qed.

(** A handler of getRainData that caches: the handle kept by the
    object is cleared, and a fresh rain timer takes its place. *)
Lemma getRainData_then_caches nd dn data w :
  (1 <? length (parse nd dn data))%nat = true →
  truthy (requestCacheTimeout (self w)) = true →
  let w' := (getRainData_then nd dn data w).1 in
  timers w' = timers (clearTimeout (rainDataCacheTimeout (self w)) w)
                ++ [(next_timer w, ClearRainData)]
  ∧ next_timer w' = S (next_timer w)
  ∧ rainDataCacheTimeout (self w') = Some (next_timer w)
  ∧ requestCacheTimeout (self w') = requestCacheTimeout (self w)
  ∧ feedDataCache w' = feedDataCache w
  ∧ feed_promises w' = feed_promises w.
Proof.
  intros Hlen Httl. unfold getRainData_then. rewrite Hlen, Httl.
  destruct (rainDataCacheTimeout (self w)) eqn:Hh; cbn; rewrite Hh; by repeat split.
Qed.

Lemma timers_ok_getRainData_then nd dn data w :
  timers_ok w → timers_ok (getRainData_then nd dn data w).1.
Proof.
  intros Hok.
  destruct (1 <? length (parse nd dn data))%nat eqn:Hlen.
  - pose proof Hok as [].
    destruct (getRainData_then_caches nd dn data w Hlen ok_timeout0)
      as (Hts & Hn & Hh & Ht & Hc & Hp).
    split; rewrite ?Hts, ?Hn, ?Hh, ?Ht, ?Hc, ?Hp; try done.
    + intros id a Hin. apply elem_of_app in Hin as [Hin | Hin].
      * apply clearTimeout_elem in Hin as [Hin _]. apply ok_fresh0 in Hin. lia.
      * apply list_elem_of_singleton in Hin. injection Hin as -> _. lia.
    + apply fresh_handle_distinct; [by apply clearTimeout_distinct |].
      intros id b Hin. apply clearTimeout_elem in Hin as [Hin _]. eauto.
    + intros h [= <-]. lia.
    + intros id Hin. apply elem_of_app in Hin as [Hin | Hin].
      * apply clearTimeout_elem in Hin as [Hin Hne].
        apply ok_rain0 in Hin. cbn in Hne. congruence.
      * apply list_elem_of_singleton in Hin. by injection Hin as ->.
    + intros id Hin. apply elem_of_app in Hin as [Hin | Hin].
      * apply clearTimeout_elem in Hin as [Hin _]. eauto.
      * apply list_elem_of_singleton in Hin. done.
    + intros id id' Hin Hin'.
      apply elem_of_app in Hin as [Hin | Hin];
        [| apply list_elem_of_singleton in Hin; done].
      apply elem_of_app in Hin' as [Hin' | Hin'];
        [| apply list_elem_of_singleton in Hin'; done].
      apply clearTimeout_elem in Hin as [Hin _], Hin' as [Hin' _]. eauto.
  - eapply timers_ok_same; [| exact Hok].
    unfold getRainData_then. rewrite Hlen. by repeat split.
Qed.

Lemma timers_ok_getRainData_settle nd dn raw w :
  timers_ok w → timers_ok (getRainData_settle nd dn raw w).1.
Proof.
  intros Hok. unfold getRainData_settle.
  assert (Hok' : timers_ok (set_rain_requests (pred (rain_requests w)) w))
    by (eapply timers_ok_same; [| exact Hok]; by repeat split).
  destruct raw as [data | e]; [by apply timers_ok_getRainData_then | done].
Qed.

End TimerFacts.

Section FeedTimerFacts.
Context `{Host}.

(** With a pending fetch no feed timer is pending, and conversely. *)
Lemma pending_excludes_feed_timer w p id :
  timers_ok w → feed_promises w !! p = Some Pending →
  (id, ClearFeedDataCache) ∈ timers w → False.
Proof.
  intros [] Hp Hin. pose proof (ok_pending0 _ Hp) as Hcp.
  destruct (ok_feed0 _ Hin) as (p' & data & Hc & Hres). congruence.
Qed.

Lemma timers_ok_getFeedData w : timers_ok w → timers_ok (getFeedData w).1.
Proof.
  intros Hok. pose proof Hok as []. unfold getFeedData.
  rewrite ok_timeout0.
  destruct (feedDataCache w) as [p |] eqn:Hc; [done |].
  split; cbn; try done.
  - intros p Hp. apply lookup_app_Some in Hp as [Hp | [Hge Hp]].
    + apply ok_pending0 in Hp. congruence.
    + f_equal. apply list_lookup_singleton_Some in Hp as [Hz _]. lia.
  - intros id Hin. destruct (ok_feed0 _ Hin) as (p & data & Hc' & _). congruence.
Qed.

Lemma settle_others p r w q :
  q ≠ p → feed_promises (settle p r w) !! q = feed_promises w !! q.
Proof. intros Hne. cbn. by rewrite list_lookup_insert_ne. Qed.

Lemma settle_pending p r w q :
  timers_ok w → feed_promises w !! p = Some Pending →
  feed_promises (settle p r w) !! q = Some Pending → False.
Proof.
  intros [] Hp Hq. destruct (decide (q = p)) as [-> | Hne].
  - cbn in Hq. rewrite list_lookup_insert_eq in Hq by (by eapply lookup_lt_Some).
    done.
  - rewrite settle_others in Hq by done.
    apply ok_pending0 in Hp, Hq. congruence.
Qed.

(** The fetch of the cached promise fails: nothing stays pending and no
    timer is installed, whether the cache is cleared or not. *)
Lemma timers_ok_settle_rejected p e w fc :
  timers_ok w → feed_promises w !! p = Some Pending →
  timers_ok (set_feedDataCache fc (settle p (Rejected e) w)).
Proof.
  intros Hok Hp. pose proof Hok as []. split; cbn; try done.
  - intros q Hq. exfalso. by apply (settle_pending p (Rejected e) w q).
  - intros id Hin. exfalso. by apply (pending_excludes_feed_timer w p id).
Qed.

(** The fetch of the cached promise succeeds: its timer is the only
    feed timer. *)
Lemma getFeedData_settle_resolved p data w :
  timers_ok w → feed_promises w !! p = Some Pending →
  let w' := (setTimeout ClearFeedDataCache (settle p (Resolved data) w)).1 in
  timers_ok w' ∧ feed_timers w' = [(next_timer w, ClearFeedDataCache)].
Proof.
  intros Hok Hp w'. pose proof Hok as [].
  assert (Hnone : ∀ id, (id, ClearFeedDataCache) ∈ timers w → False)
    by (intros id; by apply (pending_excludes_feed_timer w p)).
  split.
  - split; cbn; try done.
    + intros id a Hin. apply elem_of_app in Hin as [Hin | Hin].
      * apply ok_fresh0 in Hin. lia.
      * apply list_elem_of_singleton in Hin. injection Hin as -> _. lia.
    + by apply fresh_handle_distinct.
    + intros h Hh. apply ok_handle0 in Hh. lia.
    + intros id Hin. apply elem_of_app in Hin as [Hin | Hin]; [eauto |].
      apply list_elem_of_singleton in Hin. done.
    + intros q Hq. exfalso. by apply (settle_pending p (Resolved data) w q).
    + intros id Hin. apply elem_of_app in Hin as [Hin | Hin];
        [exfalso; eauto |].
      exists p, data. split; [by apply ok_pending0 |].
      apply list_lookup_insert_eq. by eapply lookup_lt_Some.
    + intros id id' Hin Hin'.
      apply elem_of_app in Hin as [Hin | Hin]; [exfalso; eauto |].
      apply elem_of_app in Hin' as [Hin' | Hin']; [exfalso; eauto |].
      apply list_elem_of_singleton in Hin, Hin'. congruence.
  - unfold feed_timers. cbn. rewrite filter_app.
    assert (Hnil : filter (λ t, t.2 = ClearFeedDataCache) (timers w) = []).
    { apply elem_of_nil_inv. intros [id a] Hin.
      apply list_elem_of_filter in Hin as [Ha Hin]. cbn in Ha. subst a. eauto. }
    rewrite Hnil. reflexivity.
Qed.

End FeedTimerFacts.

Section Reachability.
Context `{Host}.

Lemma timers_ok_getFeedData_settle p raw w :
  timers_ok w → feed_promises w !! p = Some Pending →
  timers_ok (getFeedData_settle p raw w).
Proof.
  intros Hok Hp. unfold getFeedData_settle.
  destruct raw as [data | e].
  - destruct (parseString data) as [err result].
    destruct (truthy err); [by apply timers_ok_settle_rejected |].
    destruct (negb _); [by apply timers_ok_settle_rejected |].
    assert (Httl : truthy (requestCacheTimeout (self (settle p
              (Resolved (get (get result "buienradarnl") "weergegevens")) w))) = true)
      by (by destruct Hok).
    rewrite Httl. by apply getFeedData_settle_resolved.
  - by apply (timers_ok_settle_rejected p e w (feedDataCache w)).
Qed.

Lemma timers_ok_store_feed p data data' w :
  timers_ok w → feed_value w p = Some data → timers_ok (store_feed p data' w).
Proof.
  intros [] Hv. unfold feed_value in Hv.
  destruct (feed_promises w !! p) as [[| [d | e]] |] eqn:Hp; try done.
  split; cbn; try done.
  - intros q Hq. destruct (decide (p = q)) as [<- | Hne].
    + rewrite list_lookup_insert_eq in Hq by (by eapply lookup_lt_Some). done.
    + rewrite list_lookup_insert_ne in Hq by done. eauto.
  - intros id Hin. destruct (ok_feed0 _ Hin) as (p0 & d0 & Hc & Hres).
    destruct (decide (p = p0)) as [<- | Hne].
    + exists p, data'. split; [done |].
      apply list_lookup_insert_eq. by eapply lookup_lt_Some.
    + exists p0, d0. split; [done |]. by rewrite list_lookup_insert_ne.
Qed.

Lemma same_caches_nearest_then requireParams data w :
  same_caches w (getNearestWeatherStationData_then requireParams data w).1.1.
Proof.
  unfold getNearestWeatherStationData_then.
  destruct (weatherStationList data) as [l | e]; [| apply same_caches_refl].
  destruct (path_of requireParams w); cbn.
  all: destruct l; try apply same_caches_refl.
  all: destruct (findNearestWeatherStation _ _ _) as [[[i st] |] | e];
    [| apply same_caches_refl | apply same_caches_refl].
  all: destruct (normalise st); by repeat split.
Qed.

Lemma timers_ok_fire id a w :
  timers_ok w → (id, a) ∈ timers w → timers_ok (fire id a w).
Proof.
  intros Hok Hin. pose proof Hok as [].
  assert (Hsub : ∀ t, t ∈ timers (clearTimeout (Some id) w) → t ∈ timers w)
    by (intros t Ht; by apply clearTimeout_elem in Ht as [Ht _]).
  pose proof (clearTimeout_distinct (Some id) w ok_distinct0) as Hnd.
  destruct a; split; cbn; try done; cbn in Hsub.
  - intros id' a Hin'. apply Hsub in Hin'. eauto.
  - intros id' Hin'. apply Hsub in Hin'. eauto.
  - intros id' Hin'. apply Hsub in Hin'. eauto.
  - intros id1 id2 H1 H2. apply Hsub in H1, H2. eauto.
  - intros id' a Hin'. apply Hsub in Hin'. eauto.
  - intros id' Hin'. apply Hsub in Hin'. eauto.
  - intros q Hq. exfalso. by apply (pending_excludes_feed_timer w q id).
  - intros id' Hin'. exfalso.
    apply list_elem_of_filter in Hin' as [Hne Hin']. cbn in Hne.
    apply Hne. eauto.
  - intros id1 id2 H1 H2. apply Hsub in H1, H2. eauto.
Qed.

Lemma timers_ok_initial config b :
  Buienradar_new config = inl b → timers_ok (initial b).
Proof.
  unfold Buienradar_new. case (negb _ || _ || _); [done |].
  intros [= <-]. split; cbn; try done.
  - by destruct (truthy (get config "requestCacheTimeout")) eqn:E.
  - intros id a Hin. by apply elem_of_nil in Hin.
  - apply NoDup_nil_2.
  - intros id Hin. by apply elem_of_nil in Hin.
  - intros id Hin. by apply elem_of_nil in Hin.
  - intros id id' Hin. by apply elem_of_nil in Hin.
Qed.

Lemma timers_ok_step w w' : timers_ok w → step w w' → timers_ok w'.
Proof.
  intros Hok Hstep. destruct Hstep.
  - eapply timers_ok_same; [by eapply same_caches_setLatLon | done].
  - eapply timers_ok_same; [apply same_caches_getRainData | done].
  - by apply timers_ok_getRainData_settle.
  - by apply timers_ok_getFeedData.
  - by apply timers_ok_getFeedData_settle.
  - apply timers_ok_getFeedData.
    eapply timers_ok_same; [apply same_caches_checkLocationChange | done].
  - pose proof (same_caches_nearest_then requireParams data w) as Hsame.
    destruct (getNearestWeatherStationData_then requireParams data w)
      as [[w' data'] r]. cbn in Hsame.
    apply (timers_ok_store_feed p data).
    + by eapply timers_ok_same.
    + destruct Hsame as (_ & _ & _ & _ & _ & Hp).
      unfold feed_value in *. by rewrite Hp.
  - by apply (timers_ok_store_feed p data).
  - by apply timers_ok_fire.
Qed.

Lemma reachable_timers_ok w : reachable w → timers_ok w.
Proof.
  induction 1 as [config b Hnew | w w' _ IH Hstep].
  - by eapply timers_ok_initial.
  - by eapply timers_ok_step.
Qed.

(** C6.  In every world the program can reach, each cache slot has at
    most one pending timer: the rain timer, if any, is the one whose
    handle this.rainDataCacheTimeout holds, and the feed timer, if any,
    belongs to the resolved promise in feedDataCache, no fetch being in
    flight.  A successful fetch leaves its own timer as the only one of
    its slot: the rain handler clears the handle it holds before it
    installs the new timer, and the feed handler never finds a timer
    pending. *)
Theorem one_pending_timer_per_cache_slot (w : world) :
  reachable w →
  (length (rain_timers w) ≤ 1)%nat
  ∧ (length (feed_timers w) ≤ 1)%nat
  ∧ (∀ id, (id, ClearRainData) ∈ timers w →
       rainDataCacheTimeout (self w) = Some id)
  ∧ (∀ id, (id, ClearFeedDataCache) ∈ timers w →
       (∃ p data, feedDataCache w = Some p
                  ∧ feed_promises w !! p = Some (Settled (Resolved data)))
       ∧ ∀ q, feed_promises w !! q ≠ Some Pending)
  ∧ (∀ new_Date Date_now data samples,
       (getRainData_then new_Date Date_now data w).2 = Resolved samples →
       rain_timers (getRainData_then new_Date Date_now data w).1
         = [(next_timer w, ClearRainData)])
  ∧ (∀ p raw data,
       feed_promises w !! p = Some Pending →
       feed_result (getFeedData_settle p raw w) p = Some (Resolved data) →
       feed_timers (getFeedData_settle p raw w)
         = [(next_timer w, ClearFeedDataCache)]).
Proof.
  intros Hreach. pose proof (reachable_timers_ok w Hreach) as Hok.
  destruct (timers_ok_counts w Hok) as [Hrain Hfeed].
  pose proof Hok as [].
  split; [done | split; [done | split; [done | split; [| split]]]].
  - intros id Hin. split; [eauto |].
    intros q Hq. by apply (pending_excludes_feed_timer w q id).
  - intros nd dn data samples Hres.
    assert (Hlen : (1 <? length (parse nd dn data))%nat = true).
    { unfold getRainData_then in Hres.
      by destruct (1 <? length (parse nd dn data))%nat. }
    destruct (getRainData_then_caches nd dn data w Hlen ok_timeout0)
      as (Hts & _).
    unfold rain_timers. rewrite Hts, filter_app.
    assert (Hnil : filter (λ t, t.2 = ClearRainData)
                     (timers (clearTimeout (rainDataCacheTimeout (self w)) w)) = []).
    { apply elem_of_nil_inv. intros [id a] Hin.
      apply list_elem_of_filter in Hin as [Ha Hin]. cbn in Ha. subst a.
      apply clearTimeout_elem in Hin as [Hin Hne].
      apply ok_rain0 in Hin. cbn in Hne. congruence. }
    rewrite Hnil. reflexivity.
  - intros p raw data Hp Hres.
    unfold getFeedData_settle in *.
    destruct raw as [body | e].
    + destruct (parseString body) as [err result].
      destruct (truthy err).
      { unfold feed_result in Hres. cbn in Hres.
        rewrite list_lookup_insert_eq in Hres by (by eapply lookup_lt_Some). done. }
      destruct (negb _).
      { unfold feed_result in Hres. cbn in Hres.
        rewrite list_lookup_insert_eq in Hres by (by eapply lookup_lt_Some). done. }
      assert (Httl : truthy (requestCacheTimeout (self (settle p
                (Resolved (get (get result "buienradarnl") "weergegevens")) w))) = true)
        by done.
      rewrite Httl. by apply getFeedData_settle_resolved.
    + unfold feed_result in Hres. cbn in Hres.
      rewrite list_lookup_insert_eq in Hres by (by eapply lookup_lt_Some). done.
Qed.

End Reachability.

Example constructor_rounds :
  @Buienradar_new example_host example_config = inl constructed_object
  ∧ num_eq (lat constructed_object) (double 5222 100) = true
  ∧ num_eq (lon constructed_object) (double 689 100) = true.
Proof. by vm_compute. Qed.

Lemma one_pending_timer_per_cache_slot_witness :
  @reachable example_host cached_world
  ∧ (length (rain_timers cached_world) ≤ 1)%nat
  ∧ (length (feed_timers cached_world) ≤ 1)%nat
  ∧ rain_timers cached_world = [(0%nat, ClearRainData)].
Proof.
  assert (Hreach : @reachable example_host cached_world).
  { unfold cached_world.
    eapply reach_step; [eapply reach_step |].
    - by apply (reach_new example_config constructed_object).
    - apply step_getRainData.
    - apply step_getRainData_settle. vm_compute. lia. }
  destruct (@one_pending_timer_per_cache_slot example_host cached_world Hreach)
    as (Hrain & Hfeed & _).
  exact (conj Hreach (conj Hrain (conj Hfeed eq_refl))).
Defined.


(* ===================================================================== *)
(** * Further properties *)
(* ===================================================================== *)

(** ** Tokens and pipes *)

Lemma digit_is_no_pipe c : RainText.is_digit c = true → RainText.is_pipe c = false.
Proof.
  intros Hd. destruct (RainText.is_pipe c) eqn:Hp; [| done].
  apply Ascii.eqb_eq in Hp. subst c. by vm_compute in Hd.
Qed.

Lemma time_char_is_no_pipe c :
  RainText.is_time_char c = true → RainText.is_pipe c = false.
Proof.
  intros Hd. destruct (RainText.is_pipe c) eqn:Hp; [| done].
  apply Ascii.eqb_eq in Hp. subst c. by vm_compute in Hd.
Qed.

Lemma no_pipes_in p s :
  (∀ c, p c = true → RainText.is_pipe c = false) →
  forallb p s = true → List.filter RainText.is_pipe s = [].
Proof.
  intros Hp. induction s as [| c s IH]; cbn; [done |].
  intros Hall. apply andb_true_iff in Hall as [Hc Hs].
  rewrite (Hp _ Hc). by apply IH.
Qed.

Lemma match_here_none_head c s :
  RainText.match_here (c :: s) = None → RainText.is_pipe c = false.
Proof.
  unfold RainText.match_here. cbn [RainText.span].
  destruct (RainText.is_digit c) eqn:Hd; [intros _; by apply digit_is_no_pipe |].
  destruct (RainText.is_pipe c); [| done].
  by destruct (RainText.span RainText.is_time_char s).
Qed.

Lemma exec_all_count fuel : ∀ s,
  (length s < fuel)%nat →
  length (RainText.exec_all fuel s) = length (List.filter RainText.is_pipe s).
Proof.
  induction fuel as [| fuel IH]; intros s Hlen; [lia |]. cbn.
  destruct (RainText.match_here s) as [[[v t] rest] |] eqn:Hm.
  - pose proof (match_here_shorter _ _ _ _ Hm) as Hshort.
    apply match_here_shape in Hm as (-> & Hv & Ht & _).
    cbn. rewrite IH by lia.
    rewrite List.filter_app. cbn. rewrite List.filter_app.
    rewrite (no_pipes_in _ _ digit_is_no_pipe Hv).
    rewrite (no_pipes_in _ _ time_char_is_no_pipe Ht). reflexivity.
  - destruct s as [| c s]; [done |].
    cbn. rewrite (match_here_none_head _ _ Hm). apply IH. cbn in Hlen. lia.
Qed.

Lemma tokens_count (data : string) :
  length (RainText.tokens data) = count_pipes data.
Proof. apply exec_all_count. lia. Qed.

Lemma matches_count (data : string) :
  RainText.matches data = negb (count_pipes data =? 0)%nat.
Proof.
  unfold RainText.matches. rewrite <- tokens_count.
  by destruct (RainText.tokens data).
Qed.

(** X1.  The pattern finds exactly one match per pipe of the text, and
    every match captures digits only as its value and digits and colons
    only as its time; so a body passes the test of the fetcher exactly
    when it holds a pipe. *)
Theorem tokens_one_per_pipe (data : string) :
  length (RainText.tokens data) = count_pipes data
  ∧ Forall token_ok (RainText.tokens data)
  ∧ RainText.matches data = negb (count_pipes data =? 0)%nat.
Proof.
  split; [apply tokens_count | split; [apply exec_all_tokens_ok |]].
  apply matches_count.
Qed.

(** ** The rain handler *)

Section RainHandlerFacts.
Context `{Host}.

Lemma following_ok p toks : Forall sample_ok (following p toks).
Proof.
  revert p. induction toks as [| [v t] rest IH]; intros p; cbn; [constructor |].
  constructor; [by split | apply IH].
Qed.

Lemma parse_length nd dn data :
  length (parse nd dn data) = length (RainText.tokens data).
Proof.
  destruct (RainText.tokens data) as [| [v t] rest] eqn:Htok.
  - unfold parse. rewrite Htok. by case (truthy (VStr data)).
  - rewrite (parse_tokens _ _ _ _ _ _ Htok). cbn. by rewrite following_length.
Qed.

Lemma parse_ok nd dn data : Forall sample_ok (parse nd dn data).
Proof.
  destruct (RainText.tokens data) as [| [v t] rest] eqn:Htok.
  - unfold parse. rewrite Htok. case (truthy (VStr data)); constructor.
  - rewrite (parse_tokens _ _ _ _ _ _ Htok).
    constructor; [by split | apply following_ok].
Qed.

(** X2.  A text with fewer than two pipes (an empty text, a text without
    data, a single sample) makes the handler of getRainData reject with
    'Could not get data from buienradar service'; it sets this.rainData to
    null, dropping whatever was cached, and leaves the timers and the
    handle of the object as they were. *)
Theorem getRainData_then_needs_two_samples
    (new_Date Date_now : Z) (data : string) (w : world) :
  (count_pipes data < 2)%nat →
  let '(w', r) := getRainData_then new_Date Date_now data w in
  r = Rejected CouldNotGetData
  ∧ rainData (self w') = None
  ∧ timers w' = timers w
  ∧ rainDataCacheTimeout (self w') = rainDataCacheTimeout (self w).
Proof.
  intros Hn. unfold getRainData_then.
  assert (Hlt : (1 <? length (parse new_Date Date_now data))%nat = false).
  { apply Nat.ltb_ge. rewrite parse_length.
    rewrite tokens_count. lia. }
  rewrite Hlt. by repeat split.
Qed.

End RainHandlerFacts.

Lemma getRainData_then_needs_two_samples_witness :
  (count_pipes "077|14:30" < 2)%nat
  ∧ rainData (self cached_world) ≠ None
  ∧ (@getRainData_then example_host 52320000 52320000 "077|14:30" cached_world).2
      = Rejected CouldNotGetData
  ∧ rainData
      (self (@getRainData_then example_host 52320000 52320000 "077|14:30"
               cached_world).1) = None.
Proof.
  assert (Hn : (count_pipes "077|14:30" < 2)%nat) by (vm_compute; lia).
  assert (Hc : rainData (self cached_world) ≠ None) by (by vm_compute).
  pose proof (@getRainData_then_needs_two_samples example_host
                52320000 52320000 "077|14:30" cached_world Hn) as Hthm.
  destruct (@getRainData_then example_host 52320000 52320000 "077|14:30"
              cached_world) as [w' r].
  destruct Hthm as (Hr & Hd & _).
  exact (conj Hn (conj Hc (conj Hr Hd))).
Defined.

(** ** The rain cache *)

Section RainCacheFacts.
Context `{Host}.

Lemma getRainData_then_resolved nd dn data w samples :
  (getRainData_then nd dn data w).2 = Resolved samples →
  samples = parse nd dn data ∧ (1 <? length (parse nd dn data))%nat = true.
Proof.
  unfold getRainData_then.
  destruct (1 <? length (parse nd dn data))%nat; [| done].
  destruct (truthy (requestCacheTimeout (self w))); by intros [= <-].
Qed.

Lemma getRainData_then_stores nd dn data w :
  (1 <? length (parse nd dn data))%nat = true →
  truthy (requestCacheTimeout (self w)) = true →
  rainData (self (getRainData_then nd dn data w).1) = Some (parse nd dn data).
Proof.
  intros Hlen Httl. unfold getRainData_then. rewrite Hlen, Httl.
  destruct (rainDataCacheTimeout (self w)) eqn:Hh; cbn; rewrite Hh; reflexivity.
Qed.

(** X3.  The rain cache round trip.  After a handler of getRainData has
    resolved with samples, the next getRainData() resolves with the same
    samples and starts no request; getRainData(true) fetches all the
    same; and once the timer the handler installed has fired, the next
    getRainData() fetches again. *)
Theorem rain_cache_round_trip
    (new_Date Date_now : Z) (data : string) (w : world)
    (samples : list RainSample) :
  truthy (requestCacheTimeout (self w)) = true →
  (getRainData_then new_Date Date_now data w).2 = Resolved samples →
  let w1 := (getRainData_then new_Date Date_now data w).1 in
  getRainData false w1 = (checkLocationChange w1, ServedFromCache samples)
  ∧ (getRainData true w1).2 = Fetches
  ∧ (next_timer w, ClearRainData) ∈ timers w1
  ∧ (getRainData false (fire (next_timer w) ClearRainData w1)).2 = Fetches.
Proof.
  intros Httl Hres w1.
  destruct (getRainData_then_resolved _ _ _ _ _ Hres) as [-> Hlen].
  pose proof (getRainData_then_stores _ _ _ _ Hlen Httl) as Hstored.
  destruct (getRainData_then_caches _ _ _ _ Hlen Httl)
    as (Hts & _ & _ & Ht & _).
  fold w1 in Hstored, Hts, Ht.
  split; [| split; [| split]].
  - unfold getRainData.
    rewrite checkLocationChange_rainData, checkLocationChange_timeout.
    rewrite Hstored, Ht, Httl. reflexivity.
  - unfold getRainData. rewrite checkLocationChange_rainData.
    by rewrite Hstored.
  - rewrite Hts. apply elem_of_app. right. apply list_elem_of_here.
  - unfold getRainData. by rewrite checkLocationChange_rainData.
Qed.

End RainCacheFacts.

Lemma rain_cache_round_trip_witness :
  let w := (getRainData false (initial constructed_object)).1 in
  let w1 := (@getRainData_then example_host 52320000 52320000 example_text w).1 in
  truthy (requestCacheTimeout (self w)) = true
  ∧ (∃ samples,
       (@getRainData_then example_host 52320000 52320000 example_text w).2
         = Resolved samples
       ∧ (getRainData false w1).2 = ServedFromCache samples)
  ∧ (getRainData false (fire (next_timer w) ClearRainData w1)).2 = Fetches.
Proof.
  intros w w1.
  assert (Httl : truthy (requestCacheTimeout (self w)) = true) by reflexivity.
  assert (Hex : ∃ samples,
            (@getRainData_then example_host 52320000 52320000 example_text w).2
              = Resolved samples)
    by (destruct (@getRainData_then example_host 52320000 52320000 example_text w).2
          as [samples | e] eqn:Hres; [by exists samples | by vm_compute in Hres]).
  destruct Hex as (samples & Hres).
  destruct (@rain_cache_round_trip example_host 52320000 52320000 example_text
              w samples Httl Hres) as (Hhit & _ & _ & Hmiss).
  fold w1 in Hhit, Hmiss.
  refine (conj Httl (conj (ex_intro _ samples (conj Hres _)) Hmiss)).
  by rewrite Hhit.
Defined.


(** ** What the caches hold *)

Section CachesOkFacts.
Context `{Host}.

Lemma nearest_then_world requireParams data w :
  (getNearestWeatherStationData_then requireParams data w).1.1 = w
  ∨ ∃ id, (getNearestWeatherStationData_then requireParams data w).1.1
          = set_nearestWeatherStationId id w.
Proof.
  unfold getNearestWeatherStationData_then.
  destruct (weatherStationList data) as [l | e]; [| by left].
  destruct (path_of requireParams w); cbn.
  all: destruct l; try by left.
  all: destruct (findNearestWeatherStation _ _ _) as [[[i st] |] | e];
    [| by left | by left].
  all: destruct (normalise st); try by left.
  all: right; eauto.
Qed.

Lemma caches_ok_checkLocationChange w :
  caches_ok w → caches_ok (checkLocationChange w).
Proof.
  intros []. unfold checkLocationChange.
  destruct (same_location (self w)); [done |].
  split; cbn; try done; by right.
Qed.

Lemma caches_ok_getFeedData w : caches_ok w → caches_ok (getFeedData w).1.
Proof.
  intros Hok. pose proof Hok as []. unfold getFeedData.
  assert (Hnew : caches_ok
            (set_feedDataCache (Some (length (feed_promises w)))
               (set_feed_promises (feed_promises w ++ [Pending]) w))).
  { split; cbn; try done. intros p [= <-]. rewrite length_app. cbn. lia. }
  destruct (feedDataCache w); [| done].
  by destruct (truthy (requestCacheTimeout (self w))).
Qed.

Lemma caches_ok_store p r fc w :
  caches_ok w → (∀ q, fc = Some q → feedDataCache w = Some q) →
  caches_ok (set_feedDataCache fc (settle p r w)).
Proof.
  intros [] Hfc. split; cbn; try done.
  intros q Hq. rewrite length_insert. eauto.
Qed.

Lemma caches_ok_getFeedData_settle p raw w :
  caches_ok w → caches_ok (getFeedData_settle p raw w).
Proof.
  intros Hok. unfold getFeedData_settle.
  destruct raw as [data | e].
  - destruct (parseString data) as [err result].
    destruct (truthy err); [by apply caches_ok_store |].
    destruct (negb _); [by apply caches_ok_store |].
    pose proof (caches_ok_store p
      (Resolved (get (get result "buienradarnl") "weergegevens"))
      (feedDataCache w) w Hok ltac:(done)) as [].
    destruct (truthy _); [| done]. split; cbn in *; done.
  - by apply (caches_ok_store p (Rejected e) (feedDataCache w)).
Qed.

Lemma caches_ok_store_feed p data w : caches_ok w → caches_ok (store_feed p data w).
Proof.
  intros []. split; cbn; try done.
  intros q Hq. rewrite length_insert. eauto.
Qed.

Lemma caches_ok_getRainData_then nd dn data w :
  caches_ok w → caches_ok (getRainData_then nd dn data w).1.
Proof.
  intros Hok. pose proof Hok as []. unfold getRainData_then.
  destruct (1 <? length (parse nd dn data))%nat eqn:Hlen.
  - destruct (truthy (requestCacheTimeout (self w))); [| done].
    destruct (rainDataCacheTimeout (self w)) eqn:Hh; cbn; rewrite Hh;
      (split; cbn; try done; intros d [= <-];
       split; [apply Nat.ltb_lt in Hlen; lia | apply parse_ok]).
  - split; cbn; done.
Qed.

Lemma caches_ok_step w w' : caches_ok w → step w w' → caches_ok w'.
Proof.
  intros Hok Hstep. destruct Hstep.
  - destruct (setLatLon_inv _ _ _ _ H0) as (la & lo & ->).
    destruct Hok. split; cbn; try done. by right.
  - unfold getRainData.
    pose proof (caches_ok_checkLocationChange w Hok) as Hc.
    destruct (rainData (self (checkLocationChange w)));
      [destruct (negb forceRefresh && _); [done |] |];
      destruct Hc; split; cbn; done.
  - unfold getRainData_settle.
    assert (Hok' : caches_ok (set_rain_requests (pred (rain_requests w)) w))
      by (destruct Hok; split; cbn; done).
    destruct raw; [by apply caches_ok_getRainData_then | done].
  - by apply caches_ok_getFeedData.
  - by apply caches_ok_getFeedData_settle.
  - by apply caches_ok_getFeedData, caches_ok_checkLocationChange.
  - destruct (nearest_then_world requireParams data w) as [Hw | [id Hw]];
      destruct (getNearestWeatherStationData_then requireParams data w)
        as [[w' data'] r]; cbn in Hw; subst w';
      apply caches_ok_store_feed; [done |].
    destruct Hok. split; cbn; done.
  - by apply caches_ok_store_feed.
  - destruct Hok. unfold fire. destruct a; split; cbn; done.
Qed.

(** X4.  In every world the program can reach: the rain cache, when it
    holds something, holds at least two samples, each with the amount and
    the indication that belong to its value; the cache timeout of the
    object is truthy, so the guards on it never switch caching off;
    feedDataCache names a promise that getFeedData has made; and the
    variable rainDataCache never holds anything but undefined or null. *)
Theorem reachable_caches_ok (w : world) :
  reachable w →
  (∀ d, rainData (self w) = Some d → (2 ≤ length d)%nat ∧ Forall sample_ok d)
  ∧ truthy (requestCacheTimeout (self w)) = true
  ∧ (∀ p, feedDataCache w = Some p → is_Some (feed_promises w !! p))
  ∧ (rainDataCache w = VUndefined ∨ rainDataCache w = VNull).
Proof.
  intros Hreach.
  assert (Hok : caches_ok w).
  { induction Hreach as [config b Hnew | w w' _ IH Hstep].
    - unfold Buienradar_new in Hnew. destruct (negb _ || _ || _); [done |].
      injection Hnew as <-. split; cbn; try done; by left.
    - by eapply caches_ok_step. }
  destruct Hok. pose proof (reachable_timers_ok w Hreach) as [].
  split; [done | split; [done | split; [| done]]].
  intros p Hp. apply lookup_lt_is_Some. eauto.
Qed.

End CachesOkFacts.

Lemma cached_world_reachable : @reachable example_host cached_world.
Proof.
  unfold cached_world.
  eapply reach_step; [eapply reach_step |].
  - by apply (reach_new example_config constructed_object).
  - apply step_getRainData.
  - apply step_getRainData_settle. vm_compute. lia.
Qed.

Lemma reachable_caches_ok_witness :
  @reachable example_host cached_world
  ∧ (∃ d, rainData (self cached_world) = Some d ∧ (2 ≤ length d)%nat)
  ∧ truthy (requestCacheTimeout (self cached_world)) = true.
Proof.
  pose proof cached_world_reachable as Hreach.
  destruct (@reachable_caches_ok example_host cached_world Hreach)
    as (Hd & Httl & _).
  destruct (rainData (self cached_world)) as [d |] eqn:E; [| by vm_compute in E].
  exact (conj Hreach (conj (ex_intro _ d (conj eq_refl (proj1 (Hd d eq_refl)))) Httl)).
Defined.

(** ** The race, event by event *)

Lemma matches_truthy body : RainText.matches body = true → truthy (VStr body) = true.
Proof. destruct body; [by vm_compute | done]. Qed.

Lemma on_reply_silent i e body :
  silent (Race.Reply i e body) = true →
  ∀ b, Race.on_reply 0 (Race.apiUrls b) body = None.
Proof.
  intros Hs b. destruct body as [body |]; [| done].
  cbn [silent] in Hs. apply negb_true_iff in Hs.
  unfold Race.on_reply. rewrite Hs. by rewrite andb_false_r.
Qed.

Lemma on_reply_match body b :
  RainText.matches body = true →
  Race.on_reply 0 (Race.apiUrls b) (Some body) = Some (Resolved body).
Proof.
  intros Hm. unfold Race.on_reply. by rewrite Hm, (matches_truthy _ Hm).
Qed.

Lemma getRawRainData_located b trace :
  located b = true →
  Race.getRawRainData b trace = Race.race 0 (Race.apiUrls b) trace.
Proof.
  unfold located, Race.getRawRainData. intros Hl.
  apply andb_true_iff in Hl as [-> ->]. reflexivity.
Qed.

Lemma race_silent_prefix b pre rest :
  forallb silent pre = true →
  Race.race 0 (Race.apiUrls b) (pre ++ rest) = Race.race 0 (Race.apiUrls b) rest.
Proof.
  induction pre as [| ev pre IH]; [done |]. cbn [forallb app].
  intros Hs. apply andb_true_iff in Hs as [Hev Hpre].
  destruct ev as [i e body |]; [| done].
  cbn [Race.race]. rewrite (on_reply_silent _ _ _ Hev). by apply IH.
Qed.

(** X5.  With a location set, the first event that settles decides the
    race, whatever comes after it: replies without a body or with a body
    the pattern does not match settle nothing, whichever endpoint sent
    them and whether or not they carry a transport error; after such
    replies the promise is pending, a reply with a matching body resolves
    it with that body, and the timer rejects it with 'timeout'. *)
Theorem race_first_settling_event_decides
    (b : Buienradar) (pre post : list Race.event)
    (index : nat) (error : jsval) (body : string) :
  located b = true →
  forallb silent pre = true →
  RainText.matches body = true →
  Race.getRawRainData b pre = None
  ∧ Race.getRawRainData b (pre ++ Race.Reply index error (Some body) :: post)
      = Some (Resolved body)
  ∧ Race.getRawRainData b (pre ++ Race.TimerFires :: post)
      = Some (Rejected Timeout).
Proof.
  intros Hl Hpre Hm. rewrite !(getRawRainData_located _ _ Hl).
  split; [| split].
  - rewrite <- (app_nil_r pre). by rewrite race_silent_prefix.
  - rewrite race_silent_prefix by done. cbn [Race.race].
    by rewrite on_reply_match.
  - by rewrite race_silent_prefix.
Qed.

Lemma race_first_settling_event_decides_witness :
  let pre := [Race.Reply 1 (VStr "ETIMEDOUT") None;
              Race.Reply 0 VNull (Some "no data"%string)] in
  located example_object = true
  ∧ forallb silent pre = true
  ∧ RainText.matches example_text = true
  ∧ Race.getRawRainData example_object
      (pre ++ Race.Reply 0 VNull (Some example_text) :: [Race.TimerFires])
      = Some (Resolved example_text).
Proof.
  intros pre.
  assert (Hl : located example_object = true) by (by vm_compute).
  assert (Hs : forallb silent pre = true) by (by vm_compute).
  assert (Hm : RainText.matches example_text = true) by (by vm_compute).
  destruct (race_first_settling_event_decides example_object pre
              [Race.TimerFires] 0 VNull example_text Hl Hs Hm) as (_ & Hr & _).
  exact (conj Hl (conj Hs (conj Hm Hr))).
Defined.

(** X6.  However the race ends, it ends in one of three ways: rejected
    at once with the location error, when lat or lon is falsy; rejected
    with 'timeout', the timer having fired; or resolved with the body of
    a reply that is in the trace, and that body holds a pipe. *)
Theorem race_outcomes (b : Buienradar) (trace : list Race.event)
    (r : promise string) :
  Race.getRawRainData b trace = Some r →
  (r = Rejected LocationNotSet ∧ located b = false)
  ∨ (r = Rejected Timeout ∧ Race.TimerFires ∈ trace)
  ∨ (∃ index error body,
       r = Resolved body
       ∧ Race.Reply index error (Some body) ∈ trace
       ∧ (0 < count_pipes body)%nat).
Proof.
  unfold Race.getRawRainData.
  destruct (located b) eqn:Hl.
  - unfold located in Hl. apply andb_true_iff in Hl as [-> ->]. cbn [negb orb].
    intros Hrace. right.
    induction trace as [| [i e body |] trace IH]; [done | |].
    + cbn [Race.race] in Hrace.
      destruct (Race.on_reply 0 (Race.apiUrls b) body) as [r' |] eqn:Hon.
      * injection Hrace as ->. right.
        destruct body as [body |]; [| done]. unfold Race.on_reply in Hon.
        destruct (RainText.matches body) eqn:Hm.
        -- rewrite (matches_truthy _ Hm) in Hon. injection Hon as <-.
           exists i, e, body. split; [done |]. split; [apply list_elem_of_here |].
           pose proof (matches_count body) as Hc.
           rewrite Hm in Hc. destruct (count_pipes body); [done | lia].
        -- by rewrite andb_false_r in Hon.
      * destruct (IH Hrace) as [[-> Hin] | (i' & e' & body' & -> & Hin & Hc)].
        -- left. split; [done | by apply list_elem_of_further].
        -- right. exists i', e', body'.
           split; [done |]. split; [by apply list_elem_of_further | done].
    + injection Hrace as <-. left. split; [done | apply list_elem_of_here].
  - intros Hr. left.
    unfold located in Hl. apply andb_false_iff in Hl.
    assert (Hor : negb (truthy (VNum (lat b))) || negb (truthy (VNum (lon b))) = true)
      by (destruct Hl as [-> | ->]; cbn; by rewrite ?orb_true_r).
    rewrite Hor in Hr. by injection Hr as <-.
Qed.

Lemma race_outcomes_witness :
  Race.getRawRainData example_object
    [Race.Reply 0 VNull (Some "no data"%string); Race.TimerFires]
    = Some (Rejected Timeout)
  ∧ ((Rejected Timeout : promise string) = Rejected LocationNotSet
       ∧ located example_object = false
     ∨ (Rejected Timeout : promise string) = Rejected Timeout
       ∧ Race.TimerFires
           ∈ [Race.Reply 0 VNull (Some "no data"%string); Race.TimerFires]
     ∨ ∃ index error body,
         (Rejected Timeout : promise string) = Resolved body
         ∧ Race.Reply index error (Some body)
             ∈ [Race.Reply 0 VNull (Some "no data"%string); Race.TimerFires]
         ∧ (0 < count_pipes body)%nat).
Proof.
  assert (Hr : Race.getRawRainData example_object
                 [Race.Reply 0 VNull (Some "no data"%string); Race.TimerFires]
               = Some (Rejected Timeout)) by (by vm_compute).
  exact (conj Hr (race_outcomes _ _ _ Hr)).
Defined.

(** ** Rounding *)

(** The code in doubles: 52.205 is stored as 52.21, its double being
    just below 52.205 and its product with 100 the double 5220.5; and the
    product of 1e307 with 100 is Infinity. *)
Example round2_in_doubles :
  num_eq (round2 (double 52205 1000)) (double 5221 100) = true
  ∧ round2 (double (10 ^ 307) 1) = PosInf
  ∧ num_eq (round2 (double 52221537 1000000)) (double 5222 100) = true.
Proof. by vm_compute. Qed.

(** Math.round(x * 100) / 100 on a coordinate: the double written c/100
    nearest to it, within 0.005 and the rounding of the arithmetic; and
    that double is rounded to itself. *)
Lemma round2_coordinate (a : Qc) :
  (Qabs (this a) <= 1000000)%Q →
  ∃ (c : Z) (r : Qc),
    round2 (Finite a) = Finite r
    ∧ double c 100 = Finite r
    ∧ (Qabs (this r - this a) <= (1 # 200) + pow2 (-30))%Q
    ∧ round2 (Finite r) = Finite r.
Proof.
  intros Ha.
  assert (E46 : (pow2 (-46) == 1 # 70368744177664)%Q) by reflexivity.
  assert (E53 : (pow2 (-53) == 1 # 9007199254740992)%Q) by reflexivity.
  assert (E30 : (pow2 (-30) == 1 # 1073741824)%Q) by reflexivity.
  assert (Htiny : (pow2 (-1075) <= 1 # 9007199254740992)%Q)
    by (rewrite <- E53; apply pow2_le; lia).
  pose proof (pow2_pos (-1075)) as Hpos.
  assert (Hbig : (1000002 <= pow2 1016)%Q).
  { apply Qle_trans with (pow2 20); [by vm_compute | apply pow2_le; lia]. }
  assert (Hbig' : (pow2 1016 <= pow2 1023)%Q) by (apply pow2_le; lia).
  destruct (round2_hundredths a) as (c & Hc & Hnear); [lra |].
  apply Qabs_Qle_condition in Ha as [Ha1 Ha2].
  assert (Habs : (Qabs (this a) <= 1000000)%Q) by (apply Qabs_Qle_condition; lra).
  rewrite E46 in Hnear.
  apply Qabs_Qle_condition in Hnear as [Hn1 Hn2].
  assert (Ec : (c # 100 == inject_Z c * (1 # 100))%Q).
  { unfold Qeq, Qmult, inject_Z. cbn. lia. }
  assert (Hcabs : (Qabs (c # 100) <= 1000001)%Q).
  { apply Qabs_Qle_condition. rewrite Ec.
    pose proof (Qabs_nonneg (this a)). split; lra. }
  destruct (binary64_near (c # 100)%Q) as (r & Hr & Hrn); [lra |].
  rewrite E53 in Hrn.
  exists c, r. rewrite Hc. unfold double at 1. rewrite Hr.
  split; [done | split; [done |]].
  apply Qabs_Qle_condition in Hrn as [Hr1 Hr2].
  pose proof (Qabs_nonneg (c # 100)) as Hcnn.
  pose proof (Qabs_nonneg (this a)) as Hann.
  assert (Hra : (Qabs (this r - this a) <= (1 # 200) + pow2 (-30))%Q).
  { rewrite E30. apply Qabs_Qle_condition.
    rewrite Ec in Hr1, Hr2, Hcabs, Hcnn. split; lra. }
  split; [done |].
  assert (Hrabs : (Qabs (this r) <= 1000002)%Q).
  { pose proof Hra as Hra'. rewrite E30 in Hra'.
    apply Qabs_Qle_condition in Hra' as [H1 H2].
    apply Qabs_Qle_condition. split; lra. }
  destruct (round2_hundredths r) as (c' & Hc' & Hnear'); [lra |].
  rewrite E46 in Hnear'.
  apply Qabs_Qle_condition in Hnear' as [Hn1' Hn2'].
  apply Qabs_Qle_condition in Hrabs as [Hrb1 Hrb2].
  assert (Hrabs' : (Qabs (this r) <= 1000002)%Q) by (apply Qabs_Qle_condition; lra).
  pose proof (Qabs_nonneg (this r)) as Hrnn.
  assert (Hsame : c' = c).
  { rewrite Ec in Hr1, Hr2, Hcabs, Hcnn.
    assert (H1 : (inject_Z c' < inject_Z (c + 1))%Q)
      by (rewrite inject_Z_plus; change (inject_Z 1) with 1%Q; lra).
    assert (H2 : (inject_Z c < inject_Z (c' + 1))%Q)
      by (rewrite inject_Z_plus; change (inject_Z 1) with 1%Q; lra).
    rewrite <- Zlt_Qlt in H1, H2. lia. }
  rewrite Hc', Hsame. unfold double. exact Hr.
Qed.

Section RoundingFacts.
Context `{Host}.

Lemma setLatLon_numbers (la lo : number) w :
  num_isNaN la = false → num_isNaN lo = false →
  setLatLon (VNum la) (VNum lo) w
    = inl (resetCache (with_self (set_location (round2 la) (round2 lo)) w)).
Proof.
  intros Hla Hlo. unfold setLatLon. cbn [get truthy]. rewrite !andb_false_r.
  unfold isNaN. cbn [ToNumber]. by rewrite Hla, Hlo.
Qed.

(** X7.  setLatLon with two finite numbers of magnitude up to a million
    is accepted and stores for each a double written with two decimals
    (c/100 for an integer c) that lies within 0.005 of the number passed,
    up to the rounding of the arithmetic (2^-30 at most); and setting the
    stored coordinates again stores them unchanged. *)
Theorem setLatLon_rounds_to_hundredths (a o : Qc) (w : world) :
  (Qabs (this a) <= 1000000)%Q → (Qabs (this o) <= 1000000)%Q →
  ∃ w' (ra ro : Qc) (ca co : Z),
    setLatLon (VNum (Finite a)) (VNum (Finite o)) w = inl w'
    ∧ lat (self w') = Finite ra ∧ lon (self w') = Finite ro
    ∧ double ca 100 = Finite ra ∧ double co 100 = Finite ro
    ∧ (Qabs (this ra - this a) <= (1 # 200) + pow2 (-30))%Q
    ∧ (Qabs (this ro - this o) <= (1 # 200) + pow2 (-30))%Q
    ∧ ∃ w'',
        setLatLon (VNum (Finite ra)) (VNum (Finite ro)) w' = inl w''
        ∧ lat (self w'') = Finite ra ∧ lon (self w'') = Finite ro.
Proof.
  intros Ha Ho.
  destruct (round2_coordinate a Ha) as (ca & ra & Hra & Hca & Hna & Hia).
  destruct (round2_coordinate o Ho) as (co & ro & Hro & Hco & Hno & Hio).
  eexists _, ra, ro, ca, co. rewrite setLatLon_numbers by done.
  split; [reflexivity |].
  cbn [self with_self resetCache set_closure lat lon set_location].
  repeat split; try done.
  eexists. rewrite setLatLon_numbers by done. split; [reflexivity |].
  cbn [self with_self resetCache set_closure lat lon set_location].
  by rewrite Hia, Hio.
Qed.

(** X8.  setLatLon called with one object reads its lat and lon as if
    they had been passed as two arguments, provided the lat is truthy;
    an object whose lat is falsy (latitude 0, or none) is taken for the
    latitude itself and refused as an incorrect location, where the host
    turns plain objects into NaN. *)
Theorem setLatLon_object_form (fields : gmap string jsval) (w : world) :
  truthy (get (get (VObj fields) "lat") "lat") = false →
  ObjectToNumber (VObj fields) = NaN →
  setLatLon (VObj fields) VUndefined w
    = if truthy (get (VObj fields) "lat")
      then setLatLon (get (VObj fields) "lat") (get (VObj fields) "lon") w
      else inr IncorrectLocation.
Proof.
  intros Hnested Hnan. unfold setLatLon. cbn [truthy negb andb].
  destruct (truthy (get (VObj fields) "lat")) eqn:Hlat.
  - by rewrite Hnested, andb_false_r.
  - unfold isNaN. cbn [ToNumber]. by rewrite Hnan.
Qed.

(** X9.  checkLocationChange, for coordinates that are not NaN, leaves
    the current location recorded as the last one, so that a second call
    changes nothing; it resets the memoized station exactly when the
    location recorded before differs, and it never touches this.rainData. *)
Theorem checkLocationChange_settles (w : world) :
  num_isNaN (lat (self w)) = false → num_isNaN (lon (self w)) = false →
  same_location (self (checkLocationChange w)) = true
  ∧ checkLocationChange (checkLocationChange w) = checkLocationChange w
  ∧ nearestWeatherStationId (checkLocationChange w)
      = (if same_location (self w) then nearestWeatherStationId w else VNull)
  ∧ rainData (self (checkLocationChange w)) = rainData (self w).
Proof.
  intros Hla Hlo.
  assert (Hrefl : ∀ x, num_isNaN x = false → num_eq x x = true).
  { intros [q | | |]; cbn; try done. intros _. by apply bool_decide_eq_true. }
  assert (Hsame : same_location (self (checkLocationChange w)) = true).
  { unfold checkLocationChange. destruct (same_location (self w)) eqn:E; [done |].
    unfold same_location. cbn. by rewrite !Hrefl. }
  split; [done | split; [| split]].
  - unfold checkLocationChange at 1. by rewrite Hsame.
  - unfold checkLocationChange. by destruct (same_location (self w)).
  - apply checkLocationChange_rainData.
Qed.

(** X10.  setLatLon leaves the feed cache alone: when a feed promise is
    cached, the getFeedData and the getNearestWeatherStationData that
    follow a change of location return that same promise, with the value
    it had, and make no new one. *)
Theorem setLatLon_keeps_feed_cache (lat lon : jsval) (w w' : world) (p : nat) :
  setLatLon lat lon w = inl w' →
  truthy (requestCacheTimeout (self w)) = true →
  feedDataCache w = Some p →
  getFeedData w' = (w', p)
  ∧ (getNearestWeatherStationData w').2 = p
  ∧ feed_promises (getNearestWeatherStationData w').1 = feed_promises w.
Proof.
  intros Hset Httl Hc.
  destruct (same_caches_setLatLon _ _ _ _ Hset) as (Ht & _ & _ & _ & Hc' & Hp).
  assert (Hget : ∀ v, same_caches w v → getFeedData v = (v, p)).
  { intros v (Hvt & _ & _ & _ & Hvc & _). unfold getFeedData.
    by rewrite Hvc, Hc, Hvt, Httl. }
  split; [apply Hget; by eapply same_caches_setLatLon |].
  unfold getNearestWeatherStationData.
  assert (Hsame : same_caches w (checkLocationChange w')).
  { eapply same_caches_trans; [by eapply same_caches_setLatLon |].
    apply same_caches_checkLocationChange. }
  rewrite (Hget _ Hsame). cbn. by destruct Hsame as (_ & _ & _ & _ & _ & ->).
Qed.

End RoundingFacts.

Lemma setLatLon_rounds_to_hundredths_witness :
  (Qabs (this (Q2Qc (52205 # 1000))) <= 1000000)%Q
  ∧ ∃ w' (ra ro : Qc),
      @setLatLon example_host (VNum (dec 52205 1000)) (VNum (dec 689 100))
        (initial example_object) = inl w'
      ∧ lat (self w') = Finite ra ∧ lon (self w') = Finite ro
      ∧ (Qabs (this ra - this (Q2Qc (52205 # 1000))) <= (1 # 200) + pow2 (-30))%Q
      ∧ ∃ w'',
          @setLatLon example_host (VNum (Finite ra)) (VNum (Finite ro)) w'
            = inl w''
          ∧ lat (self w'') = Finite ra ∧ lon (self w'') = Finite ro.
Proof.
  assert (H1 : (Qabs (this (Q2Qc (52205 # 1000))) <= 1000000)%Q) by (by vm_compute).
  assert (H2 : (Qabs (this (Q2Qc (689 # 100))) <= 1000000)%Q) by (by vm_compute).
  destruct (@setLatLon_rounds_to_hundredths example_host _ _
              (initial example_object) H1 H2)
    as (w' & ra & ro & ca & co & Hset & Hlat & Hlon & _ & _ & Hna & _ & Hagain).
  exact (conj H1 (ex_intro _ w' (ex_intro _ ra (ex_intro _ ro
           (conj Hset (conj Hlat (conj Hlon (conj Hna Hagain)))))))).
Defined.

Lemma setLatLon_object_form_witness :
  let fields : gmap string jsval :=
    <["lat" := VNum (dec 5222 100)]> (<["lon" := VNum (dec 689 100)]> ∅) in
  truthy (get (get (VObj fields) "lat") "lat") = false
  ∧ @ObjectToNumber example_host (VObj fields) = NaN
  ∧ @setLatLon example_host (VObj fields) VUndefined (initial example_object)
      = @setLatLon example_host (VNum (dec 5222 100)) (VNum (dec 689 100))
          (initial example_object).
Proof.
  intros fields.
  assert (H1 : truthy (get (get (VObj fields) "lat") "lat") = false)
    by reflexivity.
  assert (H2 : @ObjectToNumber example_host (VObj fields) = NaN) by reflexivity.
  exact (conj H1 (conj H2
    (@setLatLon_object_form example_host fields (initial example_object) H1 H2))).
Defined.

Lemma checkLocationChange_settles_witness :
  num_isNaN (lat (self (initial example_object))) = false
  ∧ num_isNaN (lon (self (initial example_object))) = false
  ∧ same_location (self (initial example_object)) = false
  ∧ checkLocationChange (checkLocationChange (initial example_object))
      = checkLocationChange (initial example_object).
Proof.
  assert (H1 : num_isNaN (lat (self (initial example_object))) = false)
    by reflexivity.
  assert (H2 : num_isNaN (lon (self (initial example_object))) = false)
    by reflexivity.
  destruct (checkLocationChange_settles (initial example_object) H1 H2)
    as (_ & Hidem & _).
  exact (conj H1 (conj H2 (conj eq_refl Hidem))).
Defined.

Lemma setLatLon_keeps_feed_cache_witness :
  let w' := resetCache (with_self
              (set_location (round2 (dec 515 10)) (round2 (dec 45 10)))
              forecast_world) in
  @setLatLon example_host (VNum (dec 515 10)) (VNum (dec 45 10)) forecast_world
    = inl w'
  ∧ truthy (requestCacheTimeout (self forecast_world)) = true
  ∧ feedDataCache forecast_world = Some 0%nat
  ∧ getFeedData w' = (w', 0%nat)
  ∧ feed_value w' 0 = Some forecast_feed.
Proof.
  intros w'.
  assert (H1 : @setLatLon example_host (VNum (dec 515 10)) (VNum (dec 45 10))
                 forecast_world = inl w')
    by (by apply setLatLon_numbers).
  assert (H2 : truthy (requestCacheTimeout (self forecast_world)) = true)
    by reflexivity.
  assert (H3 : feedDataCache forecast_world = Some 0%nat) by reflexivity.
  destruct (@setLatLon_keeps_feed_cache example_host _ _ _ _ _ H1 H2 H3)
    as (Hget & _).
  exact (conj H1 (conj H2 (conj H3 (conj Hget eq_refl)))).
Defined.

(** ** The feed cache *)

Section FeedCacheFacts.
Context `{Host}.

Lemma getFeedData_cached w p :
  truthy (requestCacheTimeout (self w)) = true → feedDataCache w = Some p →
  getFeedData w = (w, p).
Proof. intros Httl Hc. unfold getFeedData. by rewrite Hc, Httl. Qed.

Lemma getFeedData_settle_ok p body err result w :
  parseString body = (err, result) → envelope_ok err result = true →
  truthy (requestCacheTimeout (self w)) = true →
  getFeedData_settle p (Resolved body) w
    = (setTimeout ClearFeedDataCache
         (settle p (Resolved (get (get result "buienradarnl") "weergegevens")) w)).1.
Proof.
  intros Hparse Henv Httl. unfold getFeedData_settle. rewrite Hparse.
  unfold envelope_ok in Henv. apply andb_true_iff in Henv as [Herr Hres].
  apply negb_true_iff in Herr. rewrite Herr, Hres. cbn [negb].
  cbn [settle self set_feed_promises]. by rewrite Httl.
Qed.

Lemma getFeedData_settle_bad p body err result w :
  parseString body = (err, result) → envelope_ok err result = false →
  getFeedData_settle p (Resolved body) w
    = set_feedDataCache None
        (settle p (Rejected (if truthy err then Thrown err else InvalidResponse)) w).
Proof.
  intros Hparse Henv. unfold getFeedData_settle. rewrite Hparse.
  unfold envelope_ok in Henv.
  destruct (truthy err); [done |]. cbn [negb andb] in Henv. by rewrite Henv.
Qed.

(** X11.  The feed cache round trip.  When the fetch of the cached
    promise brings a body that parses to a document with the envelope, the
    promise resolves with buienradarnl.weergegevens; the next getFeedData
    returns that promise and makes no other; and once the timer installed
    has fired, getFeedData makes a new promise, the old one keeping its
    value. *)
Theorem feed_cache_round_trip
    (p : nat) (body : string) (err result : jsval) (w : world) :
  truthy (requestCacheTimeout (self w)) = true →
  feedDataCache w = Some p →
  feed_promises w !! p = Some Pending →
  parseString body = (err, result) →
  envelope_ok err result = true →
  let w1 := getFeedData_settle p (Resolved body) w in
  let w2 := fire (next_timer w) ClearFeedDataCache w1 in
  feed_value w1 p = Some (get (get result "buienradarnl") "weergegevens")
  ∧ getFeedData w1 = (w1, p)
  ∧ (next_timer w, ClearFeedDataCache) ∈ timers w1
  ∧ (getFeedData w2).2 = length (feed_promises w)
  ∧ (getFeedData w2).2 ≠ p
  ∧ feed_value (getFeedData w2).1 p
      = Some (get (get result "buienradarnl") "weergegevens").
Proof.
  intros Httl Hc Hp Hparse Henv w1 w2.
  pose proof (lookup_lt_Some _ _ _ Hp) as Hlt.
  assert (Hw1 : w1 = (setTimeout ClearFeedDataCache
            (settle p (Resolved (get (get result "buienradarnl") "weergegevens")) w)).1)
    by (by apply (getFeedData_settle_ok p body err result)).
  assert (Hval : feed_value w1 p
                 = Some (get (get result "buienradarnl") "weergegevens")).
  { rewrite Hw1. unfold feed_value. cbn. by rewrite list_lookup_insert_eq. }
  split; [done |]. split; [| split].
  - apply getFeedData_cached; rewrite Hw1; done.
  - rewrite Hw1. cbn. apply elem_of_app. right. apply list_elem_of_here.
  - assert (Hget : getFeedData w2 =
        (set_feedDataCache (Some (length (feed_promises w2)))
           (set_feed_promises (feed_promises w2 ++ [Pending]) w2),
         length (feed_promises w2))) by (by apply getFeedData_fresh).
    rewrite Hget. cbn [fst snd].
    assert (Hps : feed_promises w2
                  = <[p := Settled (Resolved
                       (get (get result "buienradarnl") "weergegevens"))]>
                      (feed_promises w))
      by (unfold w2; by rewrite Hw1).
    rewrite Hps, length_insert. split; [done |]. split; [lia |].
    unfold feed_value. cbn [feed_promises set_feedDataCache set_closure set_feed_promises].
    rewrite lookup_app_l by (rewrite length_insert; lia).
    by rewrite list_lookup_insert_eq.
Qed.

(** X12.  When the body does not parse, or parses to a document without
    the envelope, the promise rejects with the parser's error or with 'Got
    invalid response from server', feedDataCache is cleared, no timer is
    installed, and the next getFeedData makes a new promise. *)
Theorem feed_failure_refetches
    (p : nat) (body : string) (err result : jsval) (w : world) :
  feed_promises w !! p = Some Pending →
  parseString body = (err, result) →
  envelope_ok err result = false →
  let w1 := getFeedData_settle p (Resolved body) w in
  feed_result w1 p
    = Some (Rejected (if truthy err then Thrown err else InvalidResponse))
  ∧ feedDataCache w1 = None
  ∧ timers w1 = timers w
  ∧ (getFeedData w1).2 = length (feed_promises w)
  ∧ (getFeedData w1).2 ≠ p.
Proof.
  intros Hp Hparse Henv w1.
  pose proof (lookup_lt_Some _ _ _ Hp) as Hlt.
  assert (Hw1 : w1 = set_feedDataCache None
            (settle p (Rejected (if truthy err then Thrown err else InvalidResponse)) w))
    by (by apply (getFeedData_settle_bad p body err result)).
  rewrite Hw1. split; [| split; [done | split; [done |]]].
  - unfold feed_result. cbn. by rewrite list_lookup_insert_eq.
  - rewrite getFeedData_fresh by done. cbn. rewrite length_insert. lia.
Qed.

End FeedCacheFacts.

Lemma feed_cache_round_trip_witness :
  let w := fetching_world in
  truthy (requestCacheTimeout (self w)) = true
  ∧ feedDataCache w = Some 0%nat
  ∧ feed_promises w !! 0%nat = Some Pending
  ∧ @parseString (parsing_host VNull parsed_document) "<buienradarnl/>"
      = (VNull, parsed_document)
  ∧ envelope_ok VNull parsed_document = true
  ∧ feed_value
      (@getFeedData_settle (parsing_host VNull parsed_document) 0
         (Resolved "<buienradarnl/>"%string) w) 0 = Some forecast_feed.
Proof.
  intros w.
  assert (H1 : truthy (requestCacheTimeout (self w)) = true) by reflexivity.
  assert (H2 : feedDataCache w = Some 0%nat) by reflexivity.
  assert (H3 : feed_promises w !! 0%nat = Some Pending) by reflexivity.
  assert (H4 : @parseString (parsing_host VNull parsed_document) "<buienradarnl/>"
               = (VNull, parsed_document)) by reflexivity.
  assert (H5 : envelope_ok VNull parsed_document = true) by reflexivity.
  destruct (@feed_cache_round_trip (parsing_host VNull parsed_document)
              0%nat "<buienradarnl/>"%string VNull parsed_document w
              H1 H2 H3 H4 H5) as (Hval & _).
  exact (conj H1 (conj H2 (conj H3 (conj H4 (conj H5 Hval))))).
Defined.

Lemma feed_failure_refetches_witness :
  let w := fetching_world in
  feed_promises w !! 0%nat = Some Pending
  ∧ @parseString example_host "<html>503</html>" = (VUndefined, VUndefined)
  ∧ envelope_ok VUndefined VUndefined = false
  ∧ feed_result
      (@getFeedData_settle example_host 0 (Resolved "<html>503</html>"%string) w) 0
      = Some (Rejected InvalidResponse)
  ∧ feedDataCache
      (@getFeedData_settle example_host 0 (Resolved "<html>503</html>"%string) w)
      = None.
Proof.
  intros w.
  assert (H1 : feed_promises w !! 0%nat = Some Pending) by reflexivity.
  assert (H2 : @parseString example_host "<html>503</html>"
               = (VUndefined, VUndefined)) by reflexivity.
  assert (H3 : envelope_ok VUndefined VUndefined = false) by reflexivity.
  destruct (@feed_failure_refetches example_host 0%nat "<html>503</html>"%string
              VUndefined VUndefined w H1 H2 H3) as (Hr & Hc & _).
  exact (conj H1 (conj H2 (conj H3 (conj Hr Hc)))).
Defined.

(** ** A fetch that failed in transport *)

Section RejectedFeedFacts.
Context `{Host}.

Lemma getRainData_settle_feed nd dn raw w :
  feedDataCache (getRainData_settle nd dn raw w).1 = feedDataCache w
  ∧ feed_promises (getRainData_settle nd dn raw w).1 = feed_promises w.
Proof.
  unfold getRainData_settle. destruct raw as [data | e]; [| done].
  unfold getRainData_then.
  destruct (1 <? length (parse nd dn data))%nat; [| done].
  destruct (truthy (requestCacheTimeout _)); [| done].
  cbn. by destruct (rainDataCacheTimeout (self w)).
Qed.

Lemma rejected_feed_step w w' p e :
  timers_ok w →
  feedDataCache w = Some p → feed_result w p = Some (Rejected e) →
  step w w' →
  feedDataCache w' = Some p ∧ feed_result w' p = Some (Rejected e).
Proof.
  intros Hok Hc Hr Hstep. pose proof Hok as [].
  assert (Hp : feed_promises w !! p = Some (Settled (Rejected e))).
  { unfold feed_result in Hr.
    destruct (feed_promises w !! p) as [[| r] |]; try done. by injection Hr as ->. }
  assert (Hframe : ∀ v, feedDataCache v = feedDataCache w →
                        feed_promises v = feed_promises w →
                        feedDataCache v = Some p ∧ feed_result v p = Some (Rejected e)).
  { intros v Hvc Hvp. unfold feed_result. by rewrite Hvc, Hvp, Hp. }
  assert (Hstore : ∀ (v : world) q data d',
            feedDataCache v = feedDataCache w → feed_promises v = feed_promises w →
            feed_value w q = Some data →
            feedDataCache (store_feed q d' v) = Some p
            ∧ feed_result (store_feed q d' v) p = Some (Rejected e)).
  { intros v q data d' Hvc Hvp Hq. unfold feed_result, store_feed. cbn.
    rewrite Hvc, Hvp. split; [done |].
    assert (q ≠ p) by (intros ->; unfold feed_value in Hq; by rewrite Hp in Hq).
    by rewrite list_lookup_insert_ne, Hp. }
  destruct Hstep.
  - destruct (same_caches_setLatLon _ _ _ _ H0) as (_ & _ & _ & _ & ? & ?).
    by apply Hframe.
  - destruct (same_caches_getRainData forceRefresh w) as (_ & _ & _ & _ & ? & ?).
    by apply Hframe.
  - destruct (getRainData_settle_feed new_Date Date_now raw w). by apply Hframe.
  - rewrite (getFeedData_cached w p) by done. by apply Hframe.
  - apply ok_pending0 in H0 as Hcp. rewrite Hc in Hcp. injection Hcp as ->.
    congruence.
  - unfold getNearestWeatherStationData.
    destruct (same_caches_checkLocationChange w) as (Ht & _ & _ & _ & Hcc & Hcp).
    rewrite (getFeedData_cached _ p) by congruence. by apply Hframe.
  - destruct (same_caches_nearest_then requireParams data w)
      as (_ & _ & _ & _ & Hcc & Hcp).
    destruct (getNearestWeatherStationData_then requireParams data w)
      as [[v data'] r]. cbn in Hcc, Hcp. by apply (Hstore v p0 data).
  - by apply (Hstore w p0 data).
  - destruct a.
    + by apply Hframe.
    + exfalso. destruct (ok_feed0 _ H0) as (q & d & Hq & Hres). congruence.
Qed.

(** X13.  A fetch of the feed that fails in transport is cached for
    good: once feedDataCache holds a promise that has rejected, every
    later world still has that promise in feedDataCache, still rejected
    with the same error, and getFeedData keeps returning it without a new
    fetch.  No timer and no method of the module clears it. *)
Theorem rejected_feed_is_cached_for_good (w w' : world) (p : nat) (e : error) :
  reachable w →
  feedDataCache w = Some p →
  feed_result w p = Some (Rejected e) →
  rtc step w w' →
  feedDataCache w' = Some p
  ∧ feed_result w' p = Some (Rejected e)
  ∧ getFeedData w' = (w', p).
Proof.
  intros Hreach Hc Hr Hsteps.
  assert (Hall : timers_ok w' ∧ feedDataCache w' = Some p
                 ∧ feed_result w' p = Some (Rejected e)).
  { pose proof (reachable_timers_ok w Hreach) as Hok.
    induction Hsteps as [w | w v w' Hstep _ IH]; [done |].
    destruct (rejected_feed_step _ _ _ _ Hok Hc Hr Hstep) as [Hc' Hr'].
    apply IH; [| done | done | by eapply timers_ok_step].
    by eapply reach_step. }
  destruct Hall as (Hok & Hc' & Hr'). split; [done | split; [done |]].
  apply getFeedData_cached; [by destruct Hok | done].
Qed.

End RejectedFeedFacts.

Lemma rejected_feed_is_cached_for_good_witness :
  let w := @getFeedData_settle example_host 0
             (getRawFeedData (Resolved "<buienradarnl/>"%string)) fetching_world in
  let w' := (getRainData false w).1 in
  @reachable example_host w
  ∧ feedDataCache w = Some 0%nat
  ∧ feed_result w 0 = Some (Rejected (ReferenceError "http"))
  ∧ rtc (@step example_host) w w'
  ∧ getFeedData w' = (w', 0%nat)
  ∧ feed_result w' 0 = Some (Rejected (ReferenceError "http")).
Proof.
  intros w w'.
  assert (H1 : @reachable example_host w).
  { eapply reach_step; [eapply reach_step |].
    - by apply (reach_new example_config constructed_object).
    - apply step_getFeedData.
    - apply (step_getFeedData_settle 0). reflexivity. }
  assert (H2 : feedDataCache w = Some 0%nat) by reflexivity.
  assert (H3 : feed_result w 0 = Some (Rejected (ReferenceError "http")))
    by reflexivity.
  assert (H4 : rtc (@step example_host) w w')
    by (apply rtc_once; apply step_getRainData).
  destruct (@rejected_feed_is_cached_for_good example_host w w' 0%nat
              (ReferenceError "http") H1 H2 H3 H4) as (_ & Hr & Hget).
  exact (conj H1 (conj H2 (conj H3 (conj H4 (conj Hget Hr))))).
Defined.

(** ** The nearest station, by distance *)

Lemma positive_truthy d : positive d → truthy (VNum d) = true.
Proof.
  intros (q & -> & Hq). cbn. apply negb_true_iff, bool_decide_eq_false.
  intros ->. by apply Qclt_not_eq in Hq.
Qed.

Lemma positive_irrefl d : positive d → num_lt d d = false.
Proof.
  intros (q & -> & _). cbn. apply Qc_ltb_false. apply Qcle_refl.
Qed.

Lemma positive_lt_trans x y z :
  positive x → positive y → positive z →
  num_lt x y = true → num_lt y z = true → num_lt x z = true.
Proof.
  intros (a & -> & _) (b & -> & _) (c & -> & _). cbn.
  rewrite !Qc_ltb_true. apply Qclt_trans.
Qed.

Lemma positive_lt_le_trans x y z :
  positive x → positive y → positive z →
  num_lt x y = true → num_lt z y = false → num_lt x z = true.
Proof.
  intros (a & -> & _) (b & -> & _) (c & -> & _). cbn.
  rewrite !Qc_ltb_true, Qc_ltb_false. apply Qclt_le_trans.
Qed.

Section NearestFacts.
Context `{Host}.
Variable b : Buienradar.
Variable requireParams : option (list string).

Lemma scan_minimal : ∀ rest seen result nearestDistance i ws,
  Forall (λ st, skip requireParams st = inl false → positive (distance_to b st))
    (seen ++ rest) →
  scan_inv b requireParams seen result nearestDistance →
  scan (position (VNum (lat b)) (VNum (lon b))) requireParams (length seen) rest
    result nearestDistance = inl (Some (i, ws)) →
  nearest_of b requireParams (seen ++ rest) i ws.
Proof.
  induction rest as [| st rest IH]; intros seen result nd i ws Hpos Hinv Hscan.
  - cbn in Hscan. injection Hscan as ->. rewrite app_nil_r.
    unfold scan_inv in Hinv. destruct nd as [d |]; [by destruct Hinv | done].
  - assert (Hlen : length (seen ++ [st]) = S (length seen))
      by (rewrite length_app; cbn; lia).
    assert (Hpos' : Forall (λ st, skip requireParams st = inl false
                                  → positive (distance_to b st))
                      ((seen ++ [st]) ++ rest))
      by (by rewrite <- app_assoc).
    rewrite (cons_middle st seen rest), app_assoc.
    apply scan_cons in Hscan as [[Hskip Hscan] | (Hskip & _ & Hscan)];
      rewrite <- Hlen in Hscan.
    + apply (IH _ result nd); [done | | done].
      unfold scan_inv in *. destruct result as [[j r] |], nd as [d |]; try done.
      * destruct Hinv as (Hd & Hr & Hok & Hmin). split; [done |].
        split; [by apply lookup_app_l_Some | split; [done |]].
        intros k st' Hk Hst'.
        apply lookup_app_Some in Hk as [Hk | [_ Hk]]; [by apply Hmin |].
        apply list_lookup_singleton_Some in Hk as [_ <-]. congruence.
      * intros st' Hin. apply elem_of_app in Hin as [Hin | Hin]; [eauto |].
        apply list_elem_of_singleton in Hin. by subst st'.
    + assert (Hst : positive (distance_to b st)).
      { rewrite Forall_forall in Hpos. apply Hpos; [| done].
        apply elem_of_app. right. apply list_elem_of_here. }
      cbn zeta in Hscan.
      change (geodist _ _) with (distance_to b st) in Hscan.
      assert (Hnew : scan_inv b requireParams (seen ++ [st]) (Some (length seen, st)) (Some (distance_to b st))
                     ∨ ¬ (nearer nd (distance_to b st) = true)).
      { destruct (nearer nd (distance_to b st)) eqn:Hnear; [left | by right].
        split; [done |]. split; [by apply list_lookup_middle | split; [done |]].
        intros k st' Hk Hst'.
        apply lookup_app_Some in Hk as [Hk | [Hge Hk]].
        - pose proof (lookup_lt_Some _ _ _ Hk) as Hlt.
          assert (Hkb : (k <? length seen)%nat = true) by (by apply Nat.ltb_lt).
          rewrite Hkb.
          unfold scan_inv in Hinv. destruct result as [[j r] |], nd as [d |]; try done.
          + destruct Hinv as (-> & Hr & Hok & Hmin).
            assert (Hpr : positive (distance_to b r)).
            { rewrite Forall_forall in Hpos. apply Hpos; [| done].
              apply elem_of_app. left. by eapply list_elem_of_lookup_2. }
            assert (Hpst' : positive (distance_to b st')).
            { rewrite Forall_forall in Hpos. apply Hpos; [| done].
              apply elem_of_app. left. by eapply list_elem_of_lookup_2. }
            cbn [nearer] in Hnear. rewrite (positive_truthy _ Hpr) in Hnear.
            cbn [negb orb] in Hnear.
            specialize (Hmin k st' Hk Hst').
            destruct (k <? j)%nat.
            * by apply (positive_lt_trans _ (distance_to b r)).
            * by apply (positive_lt_le_trans _ (distance_to b r)).
          + exfalso. apply list_elem_of_lookup_2 in Hk. apply Hinv in Hk. congruence.
        - apply list_lookup_singleton_Some in Hk as [Hz <-].
          assert (Hkb : (k <? length seen)%nat = false) by (apply Nat.ltb_ge; lia).
          rewrite Hkb. by apply positive_irrefl. }
      destruct (nearer nd (distance_to b st)) eqn:Hnear.
      * destruct Hnew as [Hnew | Hno]; [| done].
        by apply (IH _ (Some (length seen, st)) (Some (distance_to b st))).
      * apply (IH _ result nd); [done | | done].
        unfold scan_inv in *. destruct result as [[j r] |], nd as [d |]; try done.
        destruct Hinv as (-> & Hr & Hok & Hmin). split; [done |].
        split; [by apply lookup_app_l_Some | split; [done |]].
        intros k st' Hk Hst'.
        apply lookup_app_Some in Hk as [Hk | [Hge Hk]]; [by apply Hmin |].
        apply list_lookup_singleton_Some in Hk as [Hz <-].
        pose proof (lookup_lt_Some _ _ _ Hr) as Hj.
        assert (Hkb : (k <? j)%nat = false) by (apply Nat.ltb_ge; lia).
        rewrite Hkb.
        assert (Hpr : positive (distance_to b r)).
        { rewrite Forall_forall in Hpos. apply Hpos; [| done].
          apply elem_of_app. left. by eapply list_elem_of_lookup_2. }
        cbn [nearer] in Hnear. rewrite (positive_truthy _ Hpr) in Hnear.
        by cbn [negb orb] in Hnear.
Qed.

(** X14.  When every station that passes the filter of requireParams
    lies at a finite distance above 0, the station that
    findNearestWeatherStation returns is one of the list, passes the
    filter, and is the nearest: no station that passes the filter is
    strictly nearer, and every such station before it in the list is
    strictly farther, so of equally near stations the first is taken. *)
Theorem findNearestWeatherStation_is_nearest
    (stations : list jsval) (i : nat) (ws : jsval) :
  Forall (λ st, skip requireParams st = inl false → positive (distance_to b st))
    stations →
  findNearestWeatherStation b requireParams stations = inl (Some (i, ws)) →
  stations !! i = Some ws
  ∧ skip requireParams ws = inl false
  ∧ ∀ j st, stations !! j = Some st → skip requireParams st = inl false →
      if (j <? i)%nat then num_lt (distance_to b ws) (distance_to b st) = true
      else num_lt (distance_to b st) (distance_to b ws) = false.
Proof.
  intros Hpos Hfind. apply findNearestWeatherStation_scan in Hfind as [Hscan _].
  apply (scan_minimal stations [] None None); [done | | done].
  intros st Hin. by apply elem_of_nil in Hin.
Qed.

End NearestFacts.

Lemma findNearestWeatherStation_is_nearest_witness :
  Forall (λ st, skip None st = inl false
                → positive (@distance_to grid_host example_object st))
    [station_far; station_near]
  ∧ @findNearestWeatherStation grid_host example_object None
      [station_far; station_near] = inl (Some (1%nat, station_near))
  ∧ num_lt (@distance_to grid_host example_object station_near)
           (@distance_to grid_host example_object station_far) = true.
Proof.
  assert (Hf : Forall (λ st, skip None st = inl false
                 → positive (@distance_to grid_host example_object st))
                 [station_far; station_near]).
  { repeat constructor; intros _; eexists; (split; [reflexivity | by vm_compute]). }
  assert (Hfind : @findNearestWeatherStation grid_host example_object None
                    [station_far; station_near] = inl (Some (1%nat, station_near)))
    by (by vm_compute).
  destruct (@findNearestWeatherStation_is_nearest grid_host example_object None
              _ _ _ Hf Hfind) as (_ & _ & Hmin).
  exact (conj Hf (conj Hfind (Hmin 0%nat station_far eq_refl eq_refl))).
Defined.

(** ** A station at the spot *)

Section ZeroDistanceFacts.
Context `{Host}.
Variable b : Buienradar.
Variable requireParams : option (list string).

Lemma scan_index : ∀ rest i0 result nd i ws,
  scan (position (VNum (lat b)) (VNum (lon b))) requireParams i0 rest result nd
    = inl (Some (i, ws)) →
  result = Some (i, ws) ∨ (i0 ≤ i)%nat.
Proof.
  induction rest as [| st rest IH]; intros i0 result nd i ws Hs.
  - cbn in Hs. left. congruence.
  - apply scan_cons in Hs as [[_ Hs] | (_ & _ & Hs)].
    + destruct (IH _ _ _ _ _ Hs) as [? | ?]; [by left | right; lia].
    + cbn zeta in Hs. destruct (nearer nd _);
        (destruct (IH _ _ _ _ _ Hs) as [Heq | ?]; [| right; lia]).
      * injection Heq as <- <-. right. lia.
      * by left.
Qed.

(** The loop over a prefix of the list: it throws, or it hands the rest
    a result of its own or the one it started with. *)
Lemma scan_prefix : ∀ pre i0 result nd,
  (∃ e, ∀ rest,
     scan (position (VNum (lat b)) (VNum (lon b))) requireParams i0
       (pre ++ rest) result nd = inr e)
  ∨ ∃ result' nd',
      (∀ rest,
         scan (position (VNum (lat b)) (VNum (lon b))) requireParams i0
           (pre ++ rest) result nd
         = scan (position (VNum (lat b)) (VNum (lon b))) requireParams
             (i0 + length pre) rest result' nd')
      ∧ ∀ j st, result' = Some (j, st) →
                result = Some (j, st) ∨ (j < i0 + length pre)%nat.
Proof.
  induction pre as [| a pre IH]; intros i0 result nd.
  - right. exists result, nd.
    split; [intros rest; by rewrite Nat.add_0_r | by left].
  - cbn [app length].
    destruct (nullish a) eqn:Ha.
    { left. destruct (scan_cons_unreadable
                        (position (VNum (lat b)) (VNum (lon b)))
                        requireParams a Ha) as [what Hthrow].
      exists (TypeError what). intros rest. apply Hthrow. }
    destruct (skip requireParams a) as [[|] | e] eqn:Hskip.
    + destruct (IH (S i0) result nd) as [[e He] | (r' & n' & Heq & Hidx)].
      * left. exists e. intros rest. by rewrite scan_cons_skip.
      * right. exists r', n'. split.
        -- intros rest. rewrite scan_cons_skip, Heq by done. f_equal. lia.
        -- intros j st Hr. destruct (Hidx j st Hr); [by left | right; lia].
    + set (dist := geodist (position (VNum (lat b)) (VNum (lon b)))
                     (position (get a "lat") (get a "lon"))).
      destruct (nearer nd dist) eqn:Hnear.
      * destruct (IH (S i0) (Some (i0, a)) (Some dist))
          as [[e He] | (r' & n' & Heq & Hidx)].
        -- left. exists e. intros rest. rewrite scan_cons_keep by done.
           cbn zeta. fold dist. by rewrite Hnear.
        -- right. exists r', n'. split.
           ++ intros rest. rewrite scan_cons_keep by done.
              cbn zeta. fold dist. rewrite Hnear, Heq. f_equal. lia.
           ++ intros j st Hr. right.
              destruct (Hidx j st Hr) as [[= <- <-] | ?]; lia.
      * destruct (IH (S i0) result nd) as [[e He] | (r' & n' & Heq & Hidx)].
        -- left. exists e. intros rest. rewrite scan_cons_keep by done.
           cbn zeta. fold dist. by rewrite Hnear.
        -- right. exists r', n'. split.
           ++ intros rest. rewrite scan_cons_keep by done.
              cbn zeta. fold dist. rewrite Hnear, Heq. f_equal. lia.
           ++ intros j st Hr. destruct (Hidx j st Hr); [by left | right; lia].
    + left. exists e. intros rest. cbn [scan]. by rewrite Hskip.
Qed.

Lemma scan_after_falsy_distance : ∀ rest i0 result d i ws,
  truthy (VNum d) = false →
  Exists (λ st, skip requireParams st = inl false) rest →
  scan (position (VNum (lat b)) (VNum (lon b))) requireParams i0 rest
    result (Some d) = inl (Some (i, ws)) →
  (i0 ≤ i)%nat.
Proof.
  induction rest as [| st rest IH]; intros i0 result d i ws Hd Hex Hs.
  - by apply Exists_nil in Hex.
  - apply scan_cons in Hs as [[Hskip Hs] | (Hskip & _ & Hs)].
    + apply Exists_cons in Hex as [Hex | Hex]; [congruence |].
      pose proof (IH _ _ _ _ _ Hd Hex Hs). lia.
    + cbn zeta in Hs. cbn [nearer] in Hs. rewrite Hd in Hs. cbn [negb orb] in Hs.
      destruct (scan_index _ _ _ _ _ _ Hs) as [[= <- <-] | ?]; lia.
Qed.

(** X15.  A station whose distance is falsy (distance 0: a station at
    the very spot, or a distance that is NaN) is never the one returned
    when a station that passes the filter comes after it in the list:
    the test !nearestDistance lets the next such station replace it,
    however far that one is. *)
Theorem station_at_the_spot_loses
    (pre post : list jsval) (z : jsval) (i : nat) (ws : jsval) :
  skip requireParams z = inl false →
  truthy (VNum (distance_to b z)) = false →
  Exists (λ st, skip requireParams st = inl false) post →
  findNearestWeatherStation b requireParams (pre ++ z :: post)
    = inl (Some (i, ws)) →
  i ≠ length pre.
Proof.
  intros Hz Hd Hex Hfind.
  apply findNearestWeatherStation_scan in Hfind as [Hscan _].
  destruct (scan_prefix pre 0 None None) as [[e He] | (r' & n' & Heq & Hidx)];
    [by rewrite He in Hscan |].
  rewrite Heq in Hscan. cbn [Nat.add] in Hscan.
  apply scan_cons in Hscan as [[Hskip _] | (_ & _ & Hscan)]; [congruence |].
  cbn zeta in Hscan.
  change (geodist _ _) with (distance_to b z) in Hscan.
  destruct (nearer n' (distance_to b z)).
  - pose proof (scan_after_falsy_distance _ _ _ _ _ _ Hd Hex Hscan). lia.
  - destruct (scan_index _ _ _ _ _ _ Hscan) as [Hr | ?]; [| lia].
    destruct (Hidx _ _ Hr) as [? | ?]; [done | lia].
Qed.


End ZeroDistanceFacts.

Lemma station_at_the_spot_loses_witness :
  skip None station_here = inl false
  ∧ truthy (VNum (@distance_to grid_host example_object station_here)) = false
  ∧ Exists (λ st, skip None st = inl false) [station_far]
  ∧ @findNearestWeatherStation grid_host example_object None
      ([] ++ station_here :: [station_far]) = inl (Some (1%nat, station_far))
  ∧ 1%nat ≠ length (@nil jsval).
Proof.
  assert (H1 : skip None station_here = inl false) by reflexivity.
  assert (H2 : truthy (VNum (@distance_to grid_host example_object station_here))
               = false) by (by vm_compute).
  assert (H3 : Exists (λ st, skip None st = inl false) [station_far])
    by (by constructor).
  assert (H4 : @findNearestWeatherStation grid_host example_object None
                 ([] ++ station_here :: [station_far])
               = inl (Some (1%nat, station_far)))
    by (by vm_compute).
  exact (conj H1 (conj H2 (conj H3 (conj H4
    (@station_at_the_spot_loses grid_host example_object None
       [] [station_far] station_here 1%nat station_far H1 H2 H3 H4))))).
Defined.

(** ** The lookup and the feed *)

Lemma weatherStationList_array data stations :
  weatherStationList data = inl (VArr stations) →
  ∃ f g h : gmap string jsval,
    data = VObj f
    ∧ f !! "actueel_weer"%string = Some (VObj g)
    ∧ g !! "weerstations"%string = Some (VObj h)
    ∧ h !! "weerstation"%string = Some (VArr stations).
Proof.
  unfold weatherStationList, member.
  destruct data as [| | | | | | | f]; try done. cbn [get].
  destruct (f !! "actueel_weer"%string) as [aw |] eqn:Hf; [| done]. cbn.
  destruct aw as [| | | | | | | g]; try done. cbn [get].
  destruct (g !! "weerstations"%string) as [ws |] eqn:Hg; [| done]. cbn.
  destruct ws as [| | | | | | | h]; try done. cbn [get].
  destruct (h !! "weerstation"%string) as [l |] eqn:Hh; [| done]. cbn.
  intros [= ->]. by exists f, g, h.
Qed.

Lemma weatherStationList_store data stations i ws :
  weatherStationList data = inl (VArr stations) →
  weatherStationList (store_station data i ws) = inl (VArr (<[i := ws]> stations)).
Proof.
  intros Hl. destruct (weatherStationList_array _ _ Hl) as (f & g & h & -> & Hf & Hg & Hh).
  unfold store_station, weatherStationList, member, update. cbn [get].
  rewrite lookup_alter_eq, Hf. cbn. rewrite lookup_alter_eq, Hg. cbn.
  by rewrite lookup_alter_eq, Hh.
Qed.

Lemma store_station_other data i ws key :
  key ≠ "actueel_weer"%string → get (store_station data i ws) key = get data key.
Proof.
  intros Hne. unfold store_station, update.
  destruct data as [| | | | | | | f]; try done. cbn [get].
  by rewrite lookup_alter_ne.
Qed.

Lemma normalise_resolved found st :
  normalise found = inl st →
  strict_eq (get st "regenMMPU") (VStr "-") = false
  ∧ get st "stationcode" = get found "stationcode"
  ∧ (truthy found = true → truthy st = true).
Proof.
  unfold normalise. destruct found as [| | | | | t | l | f]; try done.
  - by intros [= <-].
  - by intros [= <-].
  - intros [= <-]. cbn [get]. rewrite !lookup_insert_ne by done.
    split; [| split; [| done]].
    + destruct (strict_eq (default VUndefined (f !! "regenMMPU"%string)) (VStr "-"))
        eqn:E; [by rewrite lookup_insert_eq | done].
    + destruct (strict_eq _ _); [by rewrite lookup_insert_ne | done].
Qed.

Section LookupFacts.
Context `{Host}.

Lemma scan_lookup location requireParams : ∀ rest i0 result nd i ws,
  scan location requireParams i0 rest result nd = inl (Some (i, ws)) →
  result = Some (i, ws) ∨ ((i0 ≤ i)%nat ∧ rest !! (i - i0)%nat = Some ws).
Proof.
  induction rest as [| st rest IH]; intros i0 result nd i ws Hs.
  - cbn in Hs. left. congruence.
  - assert (Hlater : ∀ i, (S i0 ≤ i)%nat → rest !! (i - S i0)%nat = Some ws →
                          (i0 ≤ i)%nat ∧ (st :: rest) !! (i - i0)%nat = Some ws).
    { intros k Hk Hl. split; [lia |].
      replace (k - i0)%nat with (S (k - S i0)) by lia. done. }
    apply scan_cons in Hs as [[_ Hs] | (_ & _ & Hs)].
    + destruct (IH _ _ _ _ _ Hs) as [? | [? ?]]; [by left | right; eauto].
    + cbn zeta in Hs. destruct (nearer nd _);
        (destruct (IH _ _ _ _ _ Hs) as [Heq | [? ?]]; [| right; eauto]).
      * injection Heq as <- <-. right. split; [lia |]. by rewrite Nat.sub_diag.
      * by left.
Qed.

Lemma findNearestWeatherStation_lookup b requireParams stations i ws :
  findNearestWeatherStation b requireParams stations = inl (Some (i, ws)) →
  stations !! i = Some ws ∧ truthy ws = true.
Proof.
  intros Hfind. apply findNearestWeatherStation_scan in Hfind as [Hscan Ht].
  split; [| done].
  destruct (scan_lookup _ _ _ _ _ _ _ _ Hscan) as [? | [_ Hl]]; [done |].
  by rewrite Nat.sub_0_r in Hl.
Qed.





(** A lookup that resolves, taken apart. *)
Lemma nearest_then_resolved requireParams data w w1 data1 st :
  getNearestWeatherStationData_then requireParams data w = (w1, data1, Resolved st) →
  ∃ stations i found,
    weatherStationList data = inl (VArr stations)
    ∧ findNearestWeatherStation (self w) requireParams stations
      = inl (Some (i, found))
    ∧ normalise found = inl st
    ∧ data1 = store_station data i st
    ∧ path_of requireParams w ≠ FindMemoized
    ∧ w1 = match path_of requireParams w with
           | ScanAndMemoize =>
               set_nearestWeatherStationId (get found "stationcode") w
           | _ => w
           end.
Proof.
  unfold getNearestWeatherStationData_then.
  destruct (weatherStationList data) as [l | e]; [| done].
  destruct (path_of requireParams w) eqn:Hpath; [| | done].
  all: destruct l as [| | | | | | stations |]; try done.
  all: destruct (findNearestWeatherStation _ _ _) as [[[i found] |] | e] eqn:Hfind;
    [| done | done].
  all: destruct (normalise found) as [st' |] eqn:Hn; [| done].
  all: intros [= <- <- <-]; by exists stations, i, found.
Qed.

(** X16.  A lookup that resolves hands out a station of the list that
    is truthy and whose rain rate is not '-' (the sentinel has become 0);
    and it writes that station into the feed it read: the station list
    of the feed afterwards is the list before with the resolved station
    at the index of the one found, every other key of the feed being as
    it was. *)
Theorem resolved_station_is_written_to_the_feed
    (requireParams : option (list string)) (data data1 st : jsval)
    (w w1 : world) :
  getNearestWeatherStationData_then requireParams data w = (w1, data1, Resolved st) →
  strict_eq (get st "regenMMPU") (VStr "-") = false
  ∧ truthy st = true
  ∧ (∃ stations i found,
       weatherStationList data = inl (VArr stations)
       ∧ stations !! i = Some found
       ∧ normalise found = inl st
       ∧ weatherStationList data1 = inl (VArr (<[i := st]> stations)))
  ∧ get data1 "verwachting_meerdaags" = get data "verwachting_meerdaags"
  ∧ get data1 "verwachting_vandaag" = get data "verwachting_vandaag".
Proof.
  intros Hres.
  destruct (nearest_then_resolved _ _ _ _ _ _ Hres)
    as (stations & i & found & Hl & Hfind & Hn & -> & _ & _).
  destruct (findNearestWeatherStation_lookup _ _ _ _ _ Hfind) as [Hi Ht].
  destruct (normalise_resolved _ _ Hn) as (Hrain & _ & Htruthy).
  split; [done | split; [by apply Htruthy | split; [| split]]].
  - exists stations, i, found. repeat split; try done.
    by apply weatherStationList_store.
  - by apply store_station_other.
  - by apply store_station_other.
Qed.


(** X18.  Once a lookup without requireParams has resolved with a
    station whose stationcode is truthy, that code is memoized; the next
    call for the same location keeps it, and its handler then rejects
    with the TypeError of data.find on every feed that has a station
    list, changing neither the world nor the feed. *)
Theorem memoized_lookup_rejects
    (data data1 st data' l : jsval) (w w1 : world) :
  getNearestWeatherStationData_then None data w = (w1, data1, Resolved st) →
  truthy (get st "stationcode") = true →
  same_location (self w) = true →
  weatherStationList data' = inl l →
  nearestWeatherStationId w1 = get st "stationcode"
  ∧ checkLocationChange w1 = w1
  ∧ getNearestWeatherStationData_then None data' w1
      = (w1, data', Rejected (TypeError "find")).
Proof.
  intros Hres Hcode Hsame Hl.
  destruct (nearest_then_resolved _ _ _ _ _ _ Hres)
    as (stations & i & found & _ & _ & Hn & _ & Hpath & Hw1).
  destruct (normalise_resolved _ _ Hn) as (_ & Hsc & _).
  assert (Hp : path_of None w = ScanAndMemoize).
  { unfold path_of in *. by destruct (truthy (nearestWeatherStationId w)). }
  rewrite Hp in Hw1. subst w1. split; [by rewrite Hsc |]. split.
  - unfold checkLocationChange. cbn [self set_nearestWeatherStationId set_closure].
    by rewrite Hsame.
  - unfold getNearestWeatherStationData_then. rewrite Hl.
    unfold path_of. cbn [nearestWeatherStationId set_nearestWeatherStationId set_closure].
    by rewrite <- Hsc, Hcode.
Qed.

End LookupFacts.

Lemma resolved_station_is_written_to_the_feed_witness :
  let feed := stations_feed [distant_station; rainless_station] in
  let r := @getNearestWeatherStationData_then example_host
             (Some ["luchtdruk"%string]) feed (initial example_object) in
  let st := match r.2 with Resolved s => s | Rejected _ => VUndefined end in
  r = (r.1.1, r.1.2, Resolved st)
  ∧ get st "stationcode" = VStr "6275"
  ∧ get st "regenMMPU" = VNum (num 0)
  ∧ strict_eq (get st "regenMMPU") (VStr "-") = false
  ∧ weatherStationList r.1.2 = inl (VArr [distant_station; st]).
Proof.
  intros feed r st.
  assert (Hr : r = (r.1.1, r.1.2, Resolved st)) by (by vm_compute).
  destruct (@resolved_station_is_written_to_the_feed example_host _ _ _ _ _ _ Hr)
    as (Hrain & _).
  exact (conj Hr (conj eq_refl (conj eq_refl (conj Hrain eq_refl)))).
Defined.


Lemma memoized_lookup_rejects_witness :
  let feed := stations_feed [station_far; station_near] in
  let w := checkLocationChange (initial example_object) in
  let r := @getNearestWeatherStationData_then grid_host None feed w in
  r = (r.1.1, r.1.2, Resolved (match r.2 with Resolved s => s | _ => VUndefined end))
  ∧ same_location (self w) = true
  ∧ nearestWeatherStationId r.1.1 = VStr "6283"
  ∧ @getNearestWeatherStationData_then grid_host None r.1.2 r.1.1
      = (r.1.1, r.1.2, Rejected (TypeError "find")).
Proof.
  intros feed w r.
  set (st := match r.2 with Resolved s => s | _ => VUndefined end).
  assert (Hr : r = (r.1.1, r.1.2, Resolved st)) by (by vm_compute).
  assert (Hcode : truthy (get st "stationcode") = true) by (by vm_compute).
  assert (Hsame : same_location (self w) = true) by (by vm_compute).
  assert (Hl : weatherStationList r.1.2
               = inl (VArr [station_far; st])) by (by vm_compute).
  destruct (@memoized_lookup_rejects grid_host feed r.1.2 st r.1.2 _ w r.1.1
              Hr Hcode Hsame Hl) as (Hid & _ & Hrej).
  refine (conj Hr (conj Hsame (conj _ Hrej))).
  rewrite Hid. by vm_compute.
Defined.

(** ** The days of the forecast *)

(** X19.  A forecast that resolves has in dagen the days dag-plus1,
    dag-plus2, ... up to the first that is missing or falsy: each day
    collected is truthy, the day after the last one collected is not,
    and the days behind that gap stay in the object under their keys. *)
Theorem forecast_days_stop_at_first_gap (data data1 r1 : jsval) :
  getWeatherForecast_then data = (data1, Resolved r1) →
  ∃ days,
    get r1 "dagen" = VArr days
    ∧ (∀ j day, days !! j = Some day →
         get (get data "verwachting_meerdaags") (day_key (1 + j)) = day
         ∧ truthy day = true)
    ∧ truthy (get (get data "verwachting_meerdaags")
                (day_key (1 + length days))) = false
    ∧ ∀ j, (length days < j)%nat →
        get r1 (day_key (1 + j))
        = get (get data "verwachting_meerdaags") (day_key (1 + j)).
Proof.
  intros Hfirst.
  destruct (getWeatherForecast_then_resolved _ _ _ Hfirst)
    as (fields & vm & tm & tl & -> & Hvm & Hr1 & _).
  set (vm0 := <["dagen"%string := VArr []]> vm) in *.
  assert (Hvm0 : ∀ k, vm0 !! day_key k = vm !! day_key k).
  { intros k. unfold vm0. apply lookup_insert_ne.
    intros E. by apply (day_key_not_dagen k). }
  destruct (collect_days_exact (S (size vm0)) 1 vm0 [])
    as (days & Hdagen & Hdays & Hstop & Hrest); [lia | |].
  { unfold vm0. by rewrite lookup_insert_eq. }
  assert (Horig : ∀ k, get (get (VObj fields) "verwachting_meerdaags") (day_key k)
                       = default VUndefined (vm !! day_key k)).
  { intros k. rewrite get_object, Hvm. reflexivity. }
  exists days. split; [| split; [| split]].
  - rewrite Hr1, get_object. rewrite !lookup_insert_ne by done. by rewrite Hdagen.
  - intros j day Hj. destruct (Hdays j day Hj) as [Hv Ht]. split; [| done].
    by rewrite Horig, <- Hvm0, Hv.
  - by rewrite Horig, <- Hvm0.
  - intros j Hj. rewrite Horig, Hr1, get_object.
    rewrite lookup_insert_ne
      by (intros E; by apply (day_key_not_tekst_lang (1 + j))).
    rewrite lookup_insert_ne
      by (intros E; by apply (day_key_not_tekst_middellang (1 + j))).
    rewrite Hrest, Hvm0; [done | apply day_key_not_dagen |].
    intros k Hk E. apply day_key_inj in E. lia.
Qed.

Lemma forecast_days_stop_at_first_gap_witness :
  let gap_feed :=
    VObj {[ "verwachting_meerdaags"%string :=
      VObj (<["dag-plus1" := VStr "vr"]> (<["dag-plus3" := VStr "zo"]>
           (<["tekst_middellang" := wrapped_text "Wisselvallig." "za"]>
           (<["tekst_lang" := wrapped_text "Droger." "di"]> ∅)))) ]} in
  let r := getWeatherForecast_then gap_feed in
  let r1 := match r.2 with Resolved v => v | Rejected _ => VUndefined end in
  r = (r.1, Resolved r1)
  ∧ get r1 "dagen" = VArr [VStr "vr"]
  ∧ get r1 (day_key 3) = VStr "zo".
Proof.
  intros gap_feed r r1.
  assert (Hr : r = (r.1, Resolved r1)) by (by vm_compute).
  destruct (forecast_days_stop_at_first_gap _ _ _ Hr) as (days & Hd & _ & _ & Hrest).
  assert (Hdays : days = [VStr "vr"]).
  { assert (E : get r1 "dagen" = VArr [VStr "vr"]) by (by vm_compute).
    rewrite Hd in E. by injection E. }
  subst days. refine (conj Hr (conj Hd _)).
  change (day_key 3) with (day_key (1 + 2)).
  rewrite (Hrest 2%nat) by (cbn; lia). by vm_compute.
Defined.

(** ** The texts of the forecast *)

(** X20.  getWeatherForecast resolves exactly when neither text of the
    feed is undefined or null, and then hands out the '$' member of each
    in its place; otherwise it rejects with a TypeError.  So the call
    after one that resolved, on the same cached feed, resolves only if
    those '$' members are themselves neither undefined nor null, and the
    texts it hands out are their '$' members in turn. *)
Theorem forecast_unwraps_a_level_per_call
    (fields vm : gmap string jsval) (data1 r1 : jsval) :
  fields !! "verwachting_meerdaags"%string = Some (VObj vm) →
  getWeatherForecast_then (VObj fields) = (data1, Resolved r1) →
  let tm := default VUndefined (vm !! "tekst_middellang"%string) in
  let tl := default VUndefined (vm !! "tekst_lang"%string) in
  nullish tm = false ∧ nullish tl = false
  ∧ get r1 "tekst_middellang" = get tm "$" ∧ get r1 "tekst_lang" = get tl "$"
  ∧ match (getWeatherForecast_then data1).2 with
    | Resolved r2 =>
        nullish (get tm "$") = false ∧ nullish (get tl "$") = false
        ∧ get r2 "tekst_middellang" = get (get tm "$") "$"
        ∧ get r2 "tekst_lang" = get (get tl "$") "$"
    | Rejected e =>
        e = TypeError "$"
        ∧ (nullish (get tm "$") = true ∨ nullish (get tl "$") = true)
    end.
Proof.
  intros Hvm Hfirst tm tl.
  pose proof (forecast_by_texts fields vm Hvm) as H1. cbn zeta in H1.
  rewrite Hfirst in H1. cbn [snd] in H1. fold tm tl in H1.
  destruct H1 as (Hntm & Hntl & Htm & Htl).
  split; [done | split; [done | split; [done | split; [done |]]]].
  destruct (getWeatherForecast_then_resolved _ _ _ Hfirst)
    as (fields' & vm' & tm' & tl' & [= <-] & _ & Hr1 & ->).
  pose proof (forecast_by_texts
                (<["verwachting_meerdaags"%string := r1]> fields)
                _ ltac:(rewrite Hr1; apply lookup_insert_eq)) as H2.
  cbn zeta in H2.
  assert (E1 : ∀ key, get r1 key
                      = default VUndefined
                          ((<["tekst_lang"%string := tl']>
                            (<["tekst_middellang"%string := tm']>
                             (collect_days
                                (S (size (<["dagen"%string := VArr []]> vm'))) 1
                                (<["dagen"%string := VArr []]> vm')))) !! key))
    by (intros key; by rewrite Hr1).
  rewrite <- !E1, Htm, Htl in H2. exact H2.
Qed.

Lemma forecast_unwraps_a_level_per_call_witness :
  let fields : gmap string jsval :=
    {[ "verwachting_meerdaags"%string :=
       VObj (<["tekst_middellang" := VStr "Wisselvallig."]>
            (<["tekst_lang" := VStr "Droger."]> ∅)) ]} in
  let r := getWeatherForecast_then (VObj fields) in
  let r1 := match r.2 with Resolved v => v | Rejected _ => VUndefined end in
  fields !! "verwachting_meerdaags"%string
    = Some (VObj (<["tekst_middellang" := VStr "Wisselvallig."]>
                 (<["tekst_lang" := VStr "Droger."]> ∅)))
  ∧ r = (r.1, Resolved r1)
  ∧ get r1 "tekst_middellang" = VUndefined
  ∧ (getWeatherForecast_then r.1).2 = Rejected (TypeError "$").
Proof.
  intros fields r r1.
  assert (H1 : fields !! "verwachting_meerdaags"%string
               = Some (VObj (<["tekst_middellang" := VStr "Wisselvallig."]>
                            (<["tekst_lang" := VStr "Droger."]> ∅))))
    by reflexivity.
  assert (H2 : r = (r.1, Resolved r1)) by (by vm_compute).
  destruct (forecast_unwraps_a_level_per_call fields _ r.1 r1 H1 H2)
    as (_ & _ & Htm & _ & Hsecond).
  refine (conj H1 (conj H2 (conj Htm _))).
  destruct ((getWeatherForecast_then r.1).2) as [r2 | e] eqn:E.
  - by destruct Hsecond as (Hn & _).
  - destruct Hsecond as (-> & _). reflexivity.
Defined.

(** X21.  getWeatherForecast writes to its own block of the feed only:
    the station list and the block of today are as before, so a lookup or
    a getCurrentWeather after it sees what it would have seen before it;
    and getCurrentWeather resolves with the block of today, or with
    undefined where the feed has none. *)
Theorem forecast_touches_only_its_block (data : jsval) :
  weatherStationList (getWeatherForecast_then data).1 = weatherStationList data
  ∧ getCurrentWeather_then (getWeatherForecast_then data).1
      = getCurrentWeather_then data
  ∧ getCurrentWeather_then data = Resolved (get data "verwachting_vandaag")
  ∧ getCurrentWeather_then (VObj ∅) = Resolved VUndefined.
Proof.
  assert (Hother : ∀ key, key ≠ "verwachting_meerdaags"%string →
                          get (getWeatherForecast_then data).1 key = get data key).
  { intros key Hk. unfold getWeatherForecast_then.
    destruct data as [| | | | | | | fields]; try done.
    destruct (get (VObj fields) "verwachting_meerdaags"); try done.
    cbn zeta.
    destruct (unwrap "tekst_middellang" _) as [vm1 |];
      [destruct (unwrap "tekst_lang" vm1) |];
      cbn [fst]; rewrite !get_object; by rewrite lookup_insert_ne. }
  split; [| split; [| done]].
  - unfold weatherStationList. by rewrite Hother.
  - unfold getCurrentWeather_then. by rewrite Hother.
Qed.

(** ** The date of the first sample *)

Section FirstDateFacts.
Context `{Host}.

Lemma setHours_hh_mm nd h m :
  0 ≤ h < 24 → 0 ≤ m < 60 →
  Z.abs nd + 86400000 ≤ 8640000000000000 →
  ∃ t, Date.setHours nd [h; m; 0] = Some t
       ∧ Date.Day (t + LocalTZA) = Date.Day (nd + LocalTZA)
       ∧ (t + LocalTZA) mod Date.msPerDay
           = h * Date.msPerHour + m * Date.msPerMinute
             + Date.msFromTime (nd + LocalTZA)
       ∧ Z.abs (t - nd) < 86400000.
Proof.
  intros Hh Hm Hnd. unfold Date.setHours.
  cbn [lookup list_lookup default from_option id].
  unfold Date.MakeDate, Date.MakeTime, Date.Day, Date.msFromTime, Date.TimeClip,
    Date.msPerDay, Date.msPerHour, Date.msPerMinute, Date.msPerSecond.
  set (l := nd + LocalTZA).
  assert (Hms : 0 ≤ l mod 1000 < 1000) by (apply Z.mod_pos_bound; lia).
  assert (Hmod : 0 ≤ l mod 86400000 < 86400000) by (apply Z.mod_pos_bound; lia).
  assert (Hdm : l = 86400000 * (l / 86400000) + l mod 86400000)
    by (apply Z.div_mod; lia).
  set (t := l / 86400000 * 86400000
            + (h * 3600000 + m * 60000 + 0 * 1000 + l mod 1000) - LocalTZA).
  assert (Ht : (Z.abs t <=? 8640000000000000) = true)
    by (apply Z.leb_le; unfold t, l in *; lia).
  rewrite Ht. exists t. split; [done |].
  assert (Htl : t + LocalTZA
                = l / 86400000 * 86400000 + (h * 3600000 + m * 60000 + l mod 1000))
    by (unfold t; lia).
  rewrite Htl. split; [| split].
  - rewrite Z.add_comm, Z.div_add by lia. rewrite Z.div_small by lia. lia.
  - rewrite Z.add_comm, Z.mod_add by lia. rewrite Z.mod_small by lia. lia.
  - unfold t, l in *. lia.
Qed.

(** X22.  For a first token whose time reads HH:MM (hours below 24,
    minutes below 60), the date that the guard then looks at is on the
    local day of the clock, at HH:MM and 0 seconds, with the milliseconds
    of the clock left in place, so less than a day away from the clock;
    the first sample gets that date, or that date plus 24 hours when it
    lies more than 12 hours after the clock. *)
Theorem first_sample_is_today_at_hh_mm
    (new_Date Date_now : Z) (time : string) (h m : Z) :
  map RainText.digits_to_Z (RainText.split_colon (list_ascii_of_string time))
    = [h; m] →
  0 ≤ h < 24 → 0 ≤ m < 60 →
  Z.abs new_Date + 2 * 86400000 ≤ 8640000000000000 →
  ∃ t,
    Date.Day (t + LocalTZA) = Date.Day (new_Date + LocalTZA)
    ∧ (t + LocalTZA) mod Date.msPerDay
        = h * Date.msPerHour + m * Date.msPerMinute
          + Date.msFromTime (new_Date + LocalTZA)
    ∧ Z.abs (t - new_Date) < 86400000
    ∧ first_time new_Date Date_now time
        = Some (if 43200000 <? t - Date_now then t + 86400000 else t).
Proof.
  intros Hfields Hh Hm Hnd.
  destruct (setHours_hh_mm new_Date h m Hh Hm ltac:(lia)) as (t & Hset & Hday & Htod & Hnear).
  exists t. split; [done | split; [done | split; [done |]]].
  unfold first_time. rewrite Hfields. cbn [app]. rewrite Hset.
  destruct (12 * 3600 * 1000 <? t - Date_now) eqn:E;
    change (12 * 3600 * 1000) with 43200000 in E; rewrite E; [| done].
  cbn [Date.of_time]. unfold Date.TimeClip.
  assert (Hok : (Z.abs (t + 24 * 3600 * 1000) <=? 8640000000000000) = true)
    by (apply Z.leb_le; lia).
  by rewrite Hok.
Qed.

End FirstDateFacts.

Lemma first_sample_is_today_at_hh_mm_witness :
  map RainText.digits_to_Z (RainText.split_colon (list_ascii_of_string "14:30"))
    = [14; 30]
  ∧ @first_time example_host 52320123 52320124 "14:30" = Some 52200123.
Proof.
  assert (H1 : map RainText.digits_to_Z
                 (RainText.split_colon (list_ascii_of_string "14:30")) = [14; 30])
    by reflexivity.
  destruct (@first_sample_is_today_at_hh_mm example_host 52320123 52320124 "14:30"
              14 30 H1 ltac:(lia) ltac:(lia) ltac:(lia))
    as (t & _ & _ & _ & Hfirst).
  refine (conj H1 _). by vm_compute.
Defined.

(** ** Samples from an array *)

Section FromArrayFacts.
Context `{Host}.

(** The element that is the Number of a captured value gets the amount
    of that value: the subtraction coerces the capture to that Number. *)
Lemma amount_of_value_digits (value : string) :
  amount_of_value (VNum (RainText.digits_number value)) = amount_of value.
Proof. reflexivity. Qed.

Lemma parse_lookup nd dn data i s :
  parse nd dn data !! i = Some s →
  ∃ tok, RainText.tokens data !! i = Some tok ∧ value s = tok.1 ∧ sample_ok s.
Proof.
  intros Hs.
  assert (Hok : sample_ok s).
  { pose proof (parse_ok nd dn data) as Hall. rewrite Forall_forall in Hall.
    apply Hall. by eapply list_elem_of_lookup_2. }
  destruct (RainText.tokens data) as [| [v t] rest] eqn:Htok.
  - pose proof (parse_length nd dn data) as Hlen. rewrite Htok in Hlen.
    destruct (parse nd dn data); [done | done].
  - rewrite (parse_tokens _ _ _ _ _ _ Htok) in Hs.
    destruct i as [| i].
    + injection Hs as <-. by exists (v, t).
    + cbn in Hs. pose proof (lookup_lt_Some _ _ _ Hs) as Hlt.
      rewrite following_length in Hlt.
      destruct (lookup_lt_is_Some_2 rest i Hlt) as [tok Htk].
      exists tok. split; [done |]. split; [| done].
      by destruct (following_values _ _ _ _ _ Hs Htk).
Qed.

(** X23.  getRainDataFromArray always resolves, with one sample per
    element, the i-th dated new Date(clock + 300000 * i); and fed with the
    numeric values of the tokens of a text (the Numbers their digits
    coerce to) it gives, sample by sample, the amounts and the indications
    that getRainData gives for that text. *)
Theorem getRainDataFromArray_agrees_with_parser
    (new_Date Date_now : Z) (clock : nat → Z) (data : string) :
  let codes := map (λ tok : string * string,
                      VNum (RainText.digits_number tok.1))
                   (RainText.tokens data) in
  ∃ out,
    getRainDataFromArray clock codes = Resolved out
    ∧ length out = length codes
    ∧ length out = length (parse new_Date Date_now data)
    ∧ (∀ i a, out !! i = Some a →
         a_time a = Date.TimeClip (clock i + 300000 * Z.of_nat i)
         ∧ Some (a_value a) = codes !! i)
    ∧ ∀ i a s, out !! i = Some a → parse new_Date Date_now data !! i = Some s →
        a_amount a = amount s ∧ a_indication a = indication s.
Proof.
  intros codes. eexists. split; [reflexivity |].
  assert (Hlen : length (imap (λ i value, sample_at (clock i) i value) codes)
                 = length codes) by apply length_imap.
  assert (Hat : ∀ i a,
            imap (λ i value, sample_at (clock i) i value) codes !! i = Some a →
            ∃ tok, RainText.tokens data !! i = Some tok
                   ∧ a = sample_at (clock i) i
                           (VNum (RainText.digits_number tok.1))).
  { intros i a Ha. rewrite list_lookup_imap in Ha. unfold codes in Ha.
    rewrite list_lookup_fmap in Ha.
    destruct (RainText.tokens data !! i) as [tok |]; [| done].
    injection Ha as <-. by exists tok. }
  split; [done | split; [| split]].
  - rewrite Hlen. unfold codes. by rewrite length_map, parse_length.
  - intros i a Ha. destruct (Hat i a Ha) as (tok & Htok & ->).
    split; [reflexivity |]. unfold codes. rewrite list_lookup_fmap, Htok. reflexivity.
  - intros i a s Ha Hs. destruct (Hat i a Ha) as (tok & Htok & ->).
    destruct (parse_lookup _ _ _ _ _ Hs) as (tok' & Htok' & Hv & Ham & Hind).
    rewrite Htok in Htok'. injection Htok' as <-.
    cbn [a_amount a_indication sample_at].
    rewrite amount_of_value_digits, Hind, Ham, Hv. done.
Qed.

End FromArrayFacts.

Lemma getRainDataFromArray_agrees_with_parser_witness :
  ∃ out,
    @getRainDataFromArray example_host (λ _, 52320000)
      (map (λ tok : string * string, VNum (RainText.digits_number tok.1))
           (RainText.tokens example_text)) = Resolved out
    ∧ length out = length (@parse example_host 52320000 52320000 example_text)
    ∧ map (λ a, num_eq (a_amount a.1) a.2)
          (zip out [double 10 100; double 100 100; double 1000 100])
      = [true; true; true].
Proof.
  destruct (@getRainDataFromArray_agrees_with_parser example_host
              52320000 52320000 (λ _, 52320000) example_text)
    as (out & Hres & _ & Hlen & _).
  refine (ex_intro _ out (conj Hres (conj Hlen _))).
  vm_compute in Hres. injection Hres as <-. by vm_compute.
Defined.

(** ** The polling script *)

Section ScriptFacts.
Context `{Host}.

Lemma not_found_found : Script.not_found (Some (num 1)) = false.
Proof. by vm_compute. Qed.

Lemma for_i_S left array own s :
  Script.for_i (S left) array own s
  = match array !! (7 - S left)%nat with
    | None => (Script.set_i (7 - S left) s, Some (TypeError "split"))
    | Some line =>
        if Script.rainy line && Script.not_found own then
          match Script.fields line !! 1%nat with
          | None => (Script.set_i (7 - S left) s, Some (TypeError "substr"))
          | Some rainTime =>
              Script.for_i left array (Some (num 1))
                (Script.log (VNum (num 1)) (Script.set_i (7 - S left) s))
          end
        else Script.for_i left array own (Script.set_i (7 - S left) s)
    end.
Proof. reflexivity. Qed.

(** The loop writes [i] and the console only, and the console at most
    once. *)
Lemma for_i_frame left array : ∀ own s,
  own = None ∨ own = Some (num 1) →
  let r := Script.for_i left array own s in
  Script.lat (Script.vars r.1) = Script.lat (Script.vars s)
  ∧ Script.lon (Script.vars r.1) = Script.lon (Script.vars s)
  ∧ Script.rain_found (Script.vars r.1) = Script.rain_found (Script.vars s)
  ∧ Script.requests r.1 = Script.requests s
  ∧ Script.timeouts r.1 = Script.timeouts s
  ∧ (Script.console r.1 = Script.console s
     ∨ own = None ∧ Script.console r.1 = Script.console s ++ [VNum (num 1)]).
Proof.
  induction left as [| left IH]; intros own s Hown r; subst r.
  - cbn. repeat split; by left.
  - rewrite for_i_S.
    destruct (array !! (7 - S left)%nat) as [line |]; [| cbn; repeat split; by left].
    destruct (Script.rainy line && Script.not_found own) eqn:E.
    + destruct (Script.fields line !! 1%nat) as [rainTime |];
        [| cbn; repeat split; by left].
      assert (Hn : own = None).
      { destruct Hown as [-> | ->]; [done |].
        by rewrite not_found_found, andb_false_r in E. }
      destruct (IH (Some (num 1))
                  (Script.log (VNum (num 1)) (Script.set_i (7 - S left) s))
                  (or_intror eq_refl))
        as (Hlat & Hlon & Hrf & Hrq & Hto & [Hc | [Hc _]]); [| done].
      repeat split; try done. right. split; [done |]. by rewrite Hc.
    + destruct (IH own (Script.set_i (7 - S left) s) Hown)
        as (Hlat & Hlon & Hrf & Hrq & Hto & Hc).
      repeat split; done.
Qed.

Lemma on_response_frame err response body s :
  let r := Script.on_response err response body s in
  Script.rain_found (Script.vars r.1) = Script.rain_found (Script.vars s)
  ∧ Script.requests r.1 = Script.requests s
  ∧ Script.timeouts r.1 = Script.timeouts s
  ∧ (Script.console r.1 = Script.console s
     ∨ Script.console r.1 = Script.console s ++ [VNum (num 1)]).
Proof.
  intros r. subst r. unfold Script.on_response.
  destruct (negb (truthy err)); [| repeat split; by left].
  destruct response as [statusCode |]; [| repeat split; by left].
  destruct (num_eq statusCode (num 200)); [| repeat split; by left].
  destruct (for_i_frame 6 (Script.lines body) None s (or_introl eq_refl))
    as (_ & _ & Hrf & Hrq & Hto & [Hc | [_ Hc]]); repeat split; try done;
    [by left | by right].
Qed.

Lemma replicate_snoc {A} (n : nat) (x : A) :
  replicate n x ++ [x] = replicate (S n) x.
Proof. induction n as [| n IH]; [done |]. cbn. by rewrite IH. Qed.

(** X24.  The script runs to its last line without an error and writes
    'No rain expected within the next 30 min' there; and whatever replies
    and timeouts follow, its variable rain_found stays 0 and the console
    holds that one line followed by lines 1 only, so the script never
    says that it is going to rain. *)
Theorem script_never_announces_rain (s : Script.state) :
  rtc Script.step Script.main.1 s →
  Script.main.2 = None
  ∧ Script.rain_found (Script.vars s) = num 0
  ∧ ∃ n, Script.console s
         = VStr "No rain expected within the next 30 min"
           :: replicate n (VNum (num 1)).
Proof.
  intros Hrun. split; [by vm_compute |].
  revert s Hrun. apply rtc_ind_r; [| intros s s' Hrun Hstep IH].
  - split; [reflexivity |]. by exists 0%nat.
  - destruct IH as (Hrf & n & Hc).
    destruct Hstep as [s Hpos | s err response body Hpos].
    + split; [done |]. by exists n.
    + unfold Script.reply_arrives.
      match goal with
      | |- context [Script.on_response ?e ?r ?b ?s0] =>
          destruct (on_response_frame e r b s0) as (Hrf' & _ & _ & Hc')
      end.
      cbn [Script.vars Script.console] in Hrf', Hc'.
      split; [by rewrite Hrf' |].
      destruct Hc' as [-> | ->]; [by exists n |].
      exists (S n). rewrite Hc. cbn [app]. by rewrite replicate_snoc.
Qed.

Lemma for_i_lines left array : ∀ own s ls rest,
  drop (7 - left) array = ls ++ rest →
  length ls = left →
  (left ≤ 7)%nat →
  forallb has_time ls = true →
  own = None ∨ own = Some (num 1) →
  Script.for_i left array own s
  = (Script.with_console
       (if Script.not_found own && existsb Script.rainy ls
        then [VNum (num 1)] else [])
       (Script.set_i 7 s), None).
Proof.
  induction left as [| left IH]; intros own s ls rest Hdrop Hlen Hle Htime Hown.
  - destruct ls; [| done]. cbn. rewrite andb_false_r.
    unfold Script.with_console, Script.set_i. cbn. by rewrite app_nil_r.
  - destruct ls as [| line ls]; [done |].
    rewrite for_i_S.
    assert (Hline : array !! (7 - S left)%nat = Some line).
    { pose proof (lookup_drop array (7 - S left) 0) as Hl.
      rewrite Hdrop in Hl. cbn in Hl. by rewrite Nat.add_0_r in Hl. }
    rewrite Hline.
    assert (Hdrop' : drop (7 - left) array = ls ++ rest).
    { replace (7 - left)%nat with ((7 - S left) + 1)%nat by lia.
      rewrite <- drop_drop, Hdrop. reflexivity. }
    cbn [forallb] in Htime. apply andb_true_iff in Htime as [Hthis Htime].
    injection Hlen as Hlen.
    destruct (Script.rainy line && Script.not_found own) eqn:E.
    + apply andb_true_iff in E as [Hr Hnf].
      assert (Hsome : is_Some (Script.fields line !! 1%nat)).
      { apply lookup_lt_is_Some. unfold has_time in Hthis.
        apply Nat.leb_le in Hthis. lia. }
      destruct Hsome as [rainTime ->].
      rewrite (IH _ _ ls rest Hdrop' Hlen ltac:(lia) Htime (or_intror eq_refl)).
      rewrite not_found_found, Hnf. cbn [existsb andb]. rewrite Hr. cbn [orb].
      unfold Script.with_console, Script.set_i, Script.log. cbn.
      by rewrite app_nil_r.
    + rewrite (IH _ _ ls rest Hdrop' Hlen ltac:(lia) Htime Hown).
      cbn [existsb].
      assert (Hsame : Script.not_found own
                      && (Script.rainy line || existsb Script.rainy ls)
                      = Script.not_found own && existsb Script.rainy ls).
      { destruct (Script.rainy line), (Script.not_found own); done. }
      rewrite Hsame. reflexivity.
Qed.

(** X25.  A reply without error, with status 200, at least seven lines
    and a pipe in each of the lines 1 to 6: the callback ends without an
    error with i at 7, and writes 1 to the console once if the value
    before the pipe is above 0 in one of the lines 1 to 6, and nothing
    otherwise; line 0 and the lines from 7 on are not looked at. *)
Theorem reply_logs_once_when_a_line_has_rain
    (err : jsval) (statusCode : number) (body : string) (s : Script.state) :
  truthy err = false →
  num_eq statusCode (num 200) = true →
  (7 ≤ length (Script.lines body))%nat →
  forallb has_time (take 6 (drop 1 (Script.lines body))) = true →
  Script.on_response err (Some statusCode) body s
  = (Script.with_console (Script.logged (Script.lines body)) (Script.set_i 7 s),
     None).
Proof.
  intros Herr Hstatus Hlen Htime. unfold Script.on_response.
  rewrite Herr, Hstatus. cbn [negb].
  rewrite (for_i_lines 6 (Script.lines body) None s
             (take 6 (drop 1 (Script.lines body)))
             (drop 6 (drop 1 (Script.lines body)))).
  - reflexivity.
  - by rewrite take_drop.
  - rewrite length_take, length_drop. lia.
  - lia.
  - done.
  - by left.
Qed.

Lemma split_crlf_length s : (1 ≤ length (Script.split_crlf s))%nat.
Proof.
  assert (Hhead : ∀ c parts, (1 ≤ length (Script.to_head c parts))%nat)
    by (intros c [| h t]; cbn; lia).
  destruct s as [| c [| d s]]; cbn; try lia.
  destruct (Script.is_cr c && Script.is_lf d); [cbn; lia | apply Hhead].
Qed.

Lemma for_i_short left array : ∀ own s,
  (7 - left ≤ length array)%nat →
  (length array < 7)%nat →
  ∃ s' what, Script.for_i left array own s = (s', Some (TypeError what)).
Proof.
  induction left as [| left IH]; intros own s Hfrom Hshort; [lia |].
  rewrite for_i_S.
  destruct (array !! (7 - S left)%nat) as [line |] eqn:Hline; [| by eexists _, _].
  apply lookup_lt_Some in Hline.
  destruct (Script.rainy line && Script.not_found own).
  - destruct (Script.fields line !! 1%nat); [| by eexists _, _].
    apply IH; lia.
  - apply IH; lia.
Qed.

(** X26.  A reply without error and with status 200 whose body has fewer
    than seven lines makes the callback throw a TypeError, which nothing
    catches; rain_found is as before and the console has at most one
    line 1 more. *)
Theorem short_reply_throws
    (err : jsval) (statusCode : number) (body : string) (s : Script.state) :
  truthy err = false →
  num_eq statusCode (num 200) = true →
  (length (Script.lines body) < 7)%nat →
  ∃ s' what,
    Script.on_response err (Some statusCode) body s = (s', Some (TypeError what))
    ∧ Script.rain_found (Script.vars s') = Script.rain_found (Script.vars s)
    ∧ (Script.console s' = Script.console s
       ∨ Script.console s' = Script.console s ++ [VNum (num 1)]).
Proof.
  intros Herr Hstatus Hlen.
  pose proof (on_response_frame err (Some statusCode) body s) as Hframe.
  cbn zeta in Hframe. destruct Hframe as (Hrf & _ & _ & Hc).
  unfold Script.on_response in *. rewrite Herr, Hstatus in *. cbn [negb] in *.
  destruct (for_i_short 6 (Script.lines body) None s) as (s' & what & Hthrow).
  - unfold Script.lines. rewrite length_map.
    pose proof (split_crlf_length (list_ascii_of_string body)). lia.
  - done.
  - rewrite Hthrow in *. by exists s', what.
Qed.

Lemma timeouts_run s n :
  Script.timeouts s = 1%nat →
  rtc Script.step s (Nat.iter n Script.timeout_fires s)
  ∧ Script.timeouts (Nat.iter n Script.timeout_fires s) = 1%nat
  ∧ Script.requests (Nat.iter n Script.timeout_fires s)
    = (n + Script.requests s)%nat
  ∧ Script.console (Nat.iter n Script.timeout_fires s) = Script.console s.
Proof.
  intros Hone. induction n as [| n (Hrun & Hto & Hrq & Hc)]; [done |].
  rewrite !Nat.iter_succ. set (x := Nat.iter n Script.timeout_fires s) in *.
  split; [| split; [| split]].
  - eapply rtc_r; [exact Hrun |]. apply Script.step_timeout. lia.
  - unfold Script.timeout_fires, Script.will_it_rain.
    cbn [Script.timeouts]. by rewrite Hto.
  - unfold Script.timeout_fires, Script.will_it_rain.
    cbn [Script.requests]. by rewrite Hrq.
  - done.
Qed.

(** X27.  Whatever happens, one call of will_it_rain is waiting in
    setTimeout; and each call sends a request without looking at the
    earlier ones, so any number of requests can be waiting for their
    reply at once. *)
Theorem polling_never_stops_nor_waits :
  (∀ s, rtc Script.step Script.main.1 s → Script.timeouts s = 1%nat)
  ∧ ∀ n, ∃ s, rtc Script.step Script.main.1 s
              ∧ Script.requests s = S n.
Proof.
  split.
  - apply rtc_ind_r; [done | intros s s' Hrun Hstep IH].
    destruct Hstep as [s Hpos | s err response body Hpos].
    + cbn. lia.
    + unfold Script.reply_arrives.
      match goal with
      | |- context [Script.on_response ?e ?r ?b ?s0] =>
          destruct (on_response_frame e r b s0) as (_ & _ & Hto & _)
      end.
      by rewrite Hto.
  - intros n. exists (Nat.iter n Script.timeout_fires Script.main.1).
    destruct (timeouts_run Script.main.1 n eq_refl) as (Hrun & _ & Hrq & _).
    split; [done |]. rewrite Hrq.
    assert (Hfirst : Script.requests Script.main.1 = 1%nat) by (by vm_compute).
    lia.
Qed.

End ScriptFacts.

Lemma example_reply_reachable :
  rtc (@Script.step example_host) Script.main.1
    (@Script.reply_arrives example_host VNull (Some (num 200)) example_body
       Script.main.1).1.
Proof. apply rtc_once. apply Script.step_reply. vm_compute. lia. Qed.

Lemma script_never_announces_rain_witness :
  let s := (@Script.reply_arrives example_host VNull (Some (num 200))
              example_body Script.main.1).1 in
  rtc (@Script.step example_host) Script.main.1 s
  ∧ Script.rain_found (Script.vars s) = num 0
  ∧ Script.console s
    = [VStr "No rain expected within the next 30 min"; VNum (num 1)].
Proof.
  intros s.
  destruct (@script_never_announces_rain example_host s example_reply_reachable)
    as (_ & Hrf & _).
  refine (conj example_reply_reachable (conj Hrf _)). by vm_compute.
Defined.

Lemma reply_logs_once_when_a_line_has_rain_witness :
  truthy VNull = false
  ∧ forallb has_time (take 6 (drop 1 (Script.lines example_body))) = true
  ∧ @Script.on_response example_host VNull (Some (num 200)) example_body
      Script.main.1
    = (Script.with_console [VNum (num 1)] (Script.set_i 7 Script.main.1), None).
Proof.
  assert (H1 : truthy VNull = false) by reflexivity.
  assert (H2 : num_eq (num 200) (num 200) = true) by (by vm_compute).
  assert (H3 : (7 ≤ length (Script.lines example_body))%nat) by (vm_compute; lia).
  assert (H4 : forallb has_time (take 6 (drop 1 (Script.lines example_body)))
               = true) by (by vm_compute).
  pose proof (@reply_logs_once_when_a_line_has_rain example_host VNull (num 200)
                example_body Script.main.1 H1 H2 H3 H4) as Hreply.
  assert (Hlog : @Script.logged example_host (Script.lines example_body)
                 = [VNum (num 1)]) by (by vm_compute).
  rewrite Hlog in Hreply. exact (conj H1 (conj H4 Hreply)).
Defined.

Lemma short_reply_throws_witness :
  (length (Script.lines short_body) < 7)%nat
  ∧ ∃ s' what,
      @Script.on_response example_host VNull (Some (num 200)) short_body
        Script.main.1 = (s', Some (TypeError what)).
Proof.
  assert (H1 : truthy VNull = false) by reflexivity.
  assert (H2 : num_eq (num 200) (num 200) = true) by (by vm_compute).
  assert (H3 : (length (Script.lines short_body) < 7)%nat) by (vm_compute; lia).
  destruct (@short_reply_throws example_host VNull (num 200) short_body
              Script.main.1 H1 H2 H3) as (s' & what & Hthrow & _).
  exact (conj H3 (ex_intro _ s' (ex_intro _ what Hthrow))).
Defined.

Lemma polling_never_stops_nor_waits_witness :
  let s := (@Script.reply_arrives example_host VNull (Some (num 200))
              example_body Script.main.1).1 in
  rtc (@Script.step example_host) Script.main.1 s
  ∧ Script.timeouts s = 1%nat
  ∧ ∃ s', rtc (@Script.step example_host) Script.main.1 s'
          ∧ Script.requests s' = 4%nat.
Proof.
  intros s.
  destruct (@polling_never_stops_nor_waits example_host) as (Hone & Hmany).
  exact (conj example_reply_reachable
           (conj (Hone s example_reply_reachable) (Hmany 3%nat))).
Defined.
